(** * pyfs: an in-memory file system

    A shallow embedding of [pyfs/inode.py] and [pyfs/filesystem.py].

    Python objects have identity and are mutated in place, and the claims
    under study depend on that (hard links share one inode, the list held
    in [_path_to_current] is handed out and changed by [_resolve_path]).
    The embedding therefore keeps an explicit store of inodes addressed by
    their allocation index, and every method is a function from the store
    and the session fields to an outcome and the store afterwards.  An
    exception does not roll anything back: the state reached when it was
    raised is the state the caller sees.

    The three timestamps of an inode ([ctime], [mtime], [atime]) come from
    the wall clock and are left out; [mark_accessed] and [mark_modified]
    are then the identity, and the [show_details] branch of [ls], which only
    formats them, is not modelled. *)

From Stdlib Require Import String Ascii ZArith List Bool Lia.
From stdpp Require Import base tactics option list.

Open Scope string_scope.
Open Scope list_scope.
Open Scope nat_scope.

(** ** Python primitives *)

Module Py.

(** [s.split("/")]: never empty, one more piece than there are separators. *)
Fixpoint split (s : string) : list string :=
  match s with
  | EmptyString => [""]
  | String c s' =>
      if Ascii.eqb c "/" then "" :: split s'
      else match split s' with
           | [] => [String c EmptyString]
           | w :: ws => String c w :: ws
           end
  end.

(** ["/".join(parts)] *)
Definition join (parts : list string) : string := String.concat "/" parts.

(** [s.startswith("/")] *)
Definition startswith_sep (s : string) : bool :=
  match s with
  | String c _ => Ascii.eqb c "/"
  | EmptyString => false
  end.

(** [s[1:]] *)
Definition tail (s : string) : string :=
  match s with
  | String _ s' => s'
  | EmptyString => ""
  end.

(** [*init, final = parts] *)
Definition init {A} (l : list A) : list A := removelast l.
Definition final (l : list string) : string := List.last l "".

(** Insertion-ordered [dict], keys compared with [eqb]. *)
Section Dict.
Context {K V : Type} (eqb : K -> K -> bool).

(** [d.get(k)] *)
Fixpoint dict_get (k : K) (d : list (K * V)) : option V :=
  match d with
  | [] => None
  | (k', v) :: d' => if eqb k' k then Some v else dict_get k d'
  end.

(** [d[k] = v]: an existing key keeps its place, a new one goes last. *)
Fixpoint dict_set (k : K) (v : V) (d : list (K * V)) : list (K * V) :=
  match d with
  | [] => [(k, v)]
  | (k', v') :: d' =>
      if eqb k' k then (k', v) :: d' else (k', v') :: dict_set k v d'
  end.

(** [d.pop(k)] without the value: the table with the key removed. *)
Fixpoint dict_del (k : K) (d : list (K * V)) : list (K * V) :=
  match d with
  | [] => []
  | (k', v') :: d' =>
      if eqb k' k then d' else (k', v') :: dict_del k d'
  end.
End Dict.

(** [l.pop()] on a list used as a stack: the last element and the rest. *)
Definition list_pop {A} (l : list A) : option (A * list A) :=
  match l with
  | [] => None
  | x :: l' => Some (List.last l' x, removelast l)
  end.

End Py.

Import Py.

(** ** inode.py *)

(** An object reference: the position of the inode in the store. *)
Abbreviation ino := nat (only parsing).

(** [FileLike = FileNode | DirectoryNode].  A directory's [_meta] table is
    [{".": self, "..": parent or self}]; the first entry is the directory's
    own reference, so only the second is stored. *)
Inductive FileLike :=
| FileNode (_contents : string)
| DirectoryNode (_meta_parent : ino) (_children : list (string * ino)).

Record INode := { links : Z; obj : FileLike }.

Abbreviation store := (list INode) (only parsing).

Definition set_obj (o : FileLike) (nd : INode) : INode :=
  {| links := links nd; obj := o |}.
Definition set_links (z : Z) (nd : INode) : INode :=
  {| links := z; obj := obj nd |}.

(** [isinstance(node, DirectoryNode)] and [isinstance(node, FileNode)] *)
Definition is_dir (h : store) (n : ino) : bool :=
  match h !! n with
  | Some {| obj := DirectoryNode _ _ |} => true
  | _ => false
  end.
Definition is_file (h : store) (n : ino) : bool :=
  match h !! n with
  | Some {| obj := FileNode _ |} => true
  | _ => false
  end.

(** The child table of a directory (empty for anything else). *)
Definition children (h : store) (n : ino) : list (string * ino) :=
  match h !! n with
  | Some {| obj := DirectoryNode _ ch |} => ch
  | _ => []
  end.

(** [self._meta.get(name)] *)
Definition meta_get (self parent : ino) (name : string) : option ino :=
  if String.eqb name "." then Some self
  else if String.eqb name ".." then Some parent
  else None.

(** [DirectoryNode.find_child]:
    [self._children.get(name) or self._meta.get(name)].  Every node is
    truthy (no [__bool__], no [__len__]), so [or] falls through to [_meta]
    exactly when the name is not a key of [_children]. *)
Definition find_child (h : store) (n : ino) (name : string) : option ino :=
  match h !! n with
  | Some {| obj := DirectoryNode p ch |} =>
      match dict_get String.eqb name ch with
      | Some c => Some c
      | None => meta_get n p name
      end
  | _ => None
  end.

(** [DirectoryNode.__iter__]: [self._children.items()] *)
Definition iter_children (h : store) (n : ino) : list (string * ino) :=
  children h n.

(** ** exceptions.py, and the built-in errors the code can raise *)

Inductive Exn :=
| NoSuchFileOrDirectory (name : string)
| NotADirectory (name : string)
| IsADirectory (name : string)
| FileExists (name : string)
| KeyError (key : string)        (* [dict.pop] of a missing key *)
| AttributeError                 (* a directory method on another object *)
| IndexError.                    (* [[-1]] of an empty list *)

(** ** filesystem.py: the session *)

Record FileSystem := {
  heap : store;
  _current : ino;
  _path_to_current : list (string * ino);
  _root : ino
}.

Definition with_heap (h : store) (st : FileSystem) : FileSystem :=
  {| heap := h; _current := _current st;
     _path_to_current := _path_to_current st; _root := _root st |}.
Definition with_chain (p : list (string * ino)) (st : FileSystem) : FileSystem :=
  {| heap := heap st; _current := _current st;
     _path_to_current := p; _root := _root st |}.
Definition with_current (c : ino) (st : FileSystem) : FileSystem :=
  {| heap := heap st; _current := c;
     _path_to_current := _path_to_current st; _root := _root st |}.

(** Outcome of a call: an exception or a value, with the state it left. *)
Definition M (A : Type) : Type := FileSystem -> (Exn + A) * FileSystem.

Definition ret {A} (a : A) : M A := fun st => (inr a, st).
Definition raise {A} (e : Exn) : M A := fun st => (inl e, st).
Definition bind {A B} (m : M A) (f : A -> M B) : M B :=
  fun st =>
    match m st with
    | (inl e, st') => (inl e, st')
    | (inr a, st') => f a st'
    end.

Notation "'let*' x ':=' m 'in' k" := (bind m (fun x => k))
  (at level 10, x pattern, m at level 100, k at level 200).
Notation "m1 ';;' m2" := (bind m1 (fun _ => m2))
  (at level 100, m2 at level 200, right associativity).

(** [FileSystem.__init__] *)
Definition init_fs : FileSystem :=
  {| heap := [ {| links := 1%Z; obj := DirectoryNode 0 [] |} ];
     _current := 0;
     _path_to_current := [("", 0)];
     _root := 0 |}.

(** Object creation: [FileNode()] and [DirectoryNode(parent=p)]; [links]
    starts at 1 in [INode.__init__]. *)
Definition new_node (o : FileLike) : M ino :=
  fun st =>
    let n := length (heap st) in
    (inr n, with_heap (heap st ++ [ {| links := 1%Z; obj := o |} ]) st).
Definition new_file : M ino := new_node (FileNode "").
Definition new_directory (parent : ino) : M ino := new_node (DirectoryNode parent []).

(** [DirectoryNode.add_child]: [self._children[name] = node; return node] *)
Definition add_child (d : ino) (name : string) (node : ino) : M ino :=
  fun st =>
    match heap st !! d with
    | Some {| links := l; obj := DirectoryNode p ch |} =>
        (inr node,
         with_heap (<[d := {| links := l;
                              obj := DirectoryNode p (dict_set String.eqb name node ch) |}]>
                      (heap st)) st)
    | _ => (inl AttributeError, st)
    end.

(** [DirectoryNode.delete_child]: [return self._children.pop(name)] *)
Definition delete_child (d : ino) (name : string) : M ino :=
  fun st =>
    match heap st !! d with
    | Some {| links := l; obj := DirectoryNode p ch |} =>
        match dict_get String.eqb name ch with
        | Some c =>
            (inr c,
             with_heap (<[d := {| links := l;
                                  obj := DirectoryNode p (dict_del String.eqb name ch) |}]>
                          (heap st)) st)
        | None => (inl (KeyError name), st)
        end
    | _ => (inl AttributeError, st)
    end.

(** [node.links += delta] *)
Definition add_links (n : ino) (delta : Z) : M unit :=
  fun st =>
    match heap st !! n with
    | Some nd =>
        (inr tt, with_heap (<[n := set_links (links nd + delta)%Z nd]> (heap st)) st)
    | None => (inl AttributeError, st)
    end.

(** [FileNode.write_contents] *)
Definition write_contents (n : ino) (contents : string) : M ino :=
  fun st =>
    match heap st !! n with
    | Some {| links := l; obj := FileNode _ |} =>
        (inr n, with_heap (<[n := {| links := l; obj := FileNode contents |}]> (heap st)) st)
    | _ => (inl AttributeError, st)
    end.

(** [FileNode.read_contents] *)
Definition read_contents (n : ino) : M string :=
  fun st =>
    match heap st !! n with
    | Some {| obj := FileNode s |} => (inr s, st)
    | _ => (inl AttributeError, st)
    end.

(** [FileNode.stream_contents]: the characters the generator yields. *)
Definition stream_contents (n : ino) : M (list ascii) :=
  fun st =>
    match heap st !! n with
    | Some {| obj := FileNode s |} => (inr (list_ascii_of_string s), st)
    | _ => (inl AttributeError, st)
    end.

(** ** filesystem.py: path lookup *)

(** One round of the loop of [_get_node]:
    [if node and isinstance(node, DirectoryNode): node = node.find_child(part)] *)
Definition get_node_step (h : store) (node : option ino) (part : string) : option ino :=
  match node with
  | Some n => if is_dir h n then find_child h n part else node
  | None => None
  end.

(** The part list and the starting node shared by [_get_node],
    [_resolve_path] and [_create_tree]. *)
Definition is_root_relative (name : string) : bool := startswith_sep name.
Definition strip (name : string) : string :=
  if is_root_relative name then tail name else name.
Definition anchor (name : string) (st : FileSystem) : ino :=
  if is_root_relative name then _root st else _current st.

(** [FileSystem._get_node]; a missing argument is the empty string. *)
Definition _get_node (name : string) (st : FileSystem) : option ino :=
  if String.eqb name "" then Some (_current st)
  else fold_left (get_node_step (heap st)) (split (strip name)) (Some (anchor name st)).

(** [FileSystem._get_node_or_fail] *)
Definition _get_node_or_fail (name : string) : M ino :=
  fun st =>
    match _get_node name st with
    | None => (inl (NoSuchFileOrDirectory name), st)
    | Some node => (inr node, st)
    end.

(** [FileSystem._get_directory_or_fail] *)
Definition _get_directory_or_fail (name : string) : M ino :=
  let* node := _get_node_or_fail name in
  fun st =>
    if is_dir (heap st) node then (inr node, st)
    else (inl (NotADirectory name), st).

(** [FileSystem._fail_if_node_exists] *)
Definition _fail_if_node_exists (name : string) : M unit :=
  fun st =>
    match _get_node name st with
    | Some _ => (inl (FileExists name), st)
    | None => (inr tt, st)
    end.

(** What [_resolve_path] returns is a Python list object: either the very
    list stored in [self._path_to_current], or a list built in the call. *)
Inductive chain_ref :=
| SessionChain
| FreshChain (l : list (string * ino)).

Definition deref (st : FileSystem) (r : chain_ref) : list (string * ino) :=
  match r with
  | SessionChain => _path_to_current st
  | FreshChain l => l
  end.

(** The [for] loop of [_resolve_path] over the list object [path], which it
    changes in place with [pop] and [append].  The result is the exception
    raised, if any, and the contents of the list when the loop was left. *)
Fixpoint resolve_walk (h : store) (name : string) (parts : list string)
    (node : ino) (path : list (string * ino)) : option Exn * list (string * ino) :=
  match parts with
  | [] => (None, path)
  | part :: parts' =>
      match find_child h node part with
      | None => (Some (NoSuchFileOrDirectory name), path)
      | Some next_node =>
          if is_dir h next_node then
            let path' :=
              if String.eqb part ".." then
                (if 1 <? length path then removelast path else path)
              else if negb (String.eqb part ".") then path ++ [(part, next_node)]
              else path in
            resolve_walk h name parts' next_node path'
          else resolve_walk h name parts' node path
      end
  end.

(** [FileSystem._resolve_path].  For a relative name [path] is bound to
    [self._path_to_current] itself, so the loop edits the session's list. *)
Definition _resolve_path (name : string) : M chain_ref :=
  fun st =>
    if String.eqb name "" then (inr SessionChain, st)
    else if is_root_relative name then
      match resolve_walk (heap st) (strip name) (split (strip name))
              (_root st) [("", _root st)] with
      | (Some e, _) => (inl e, st)
      | (None, path) => (inr (FreshChain path), st)
      end
    else
      match resolve_walk (heap st) (strip name) (split (strip name))
              (_current st) (_path_to_current st) with
      | (Some e, path) => (inl e, with_chain path st)
      | (None, path) => (inr SessionChain, with_chain path st)
      end.

(** The [for] loop of [_create_tree]. *)
Fixpoint create_tree_walk (parts : list string) (node : ino) : M unit :=
  match parts with
  | [] => ret tt
  | name :: parts' =>
      fun st =>
        if is_file (heap st) node then (inl (FileExists name), st)
        else
          match find_child (heap st) node name with
          | Some existing_node => create_tree_walk parts' existing_node st
          | None =>
              (let* d := new_directory node in
               let* d := add_child node name d in
               create_tree_walk parts' d) st
          end
  end.

(** [FileSystem._create_tree] *)
Definition _create_tree (name : string) : M unit :=
  fun st => create_tree_walk (split (strip name)) (anchor name st) st.

(** [*parent_dirs, requested = name.split("/")] and
    [parent_path = "/".join(parent_dirs)] *)
Definition parent_path (name : string) : string := join (init (split name)).
Definition requested (name : string) : string := final (split name).

(** [p + "/" + q]: the path [q] below the path [p] *)
Definition join2 (p q : string) : string := String.append p (String "/" q).

(** A string without the separator. *)
Fixpoint no_sep (s : string) : Prop :=
  match s with
  | EmptyString => True
  | String c s' => Ascii.eqb c "/" = false /\ no_sep s'
  end.

(** ** filesystem.py: the operations *)

(** [not name] for an optional string argument *)
Definition arg (name : option string) : string := default "" name.

(** [FileSystem.cd] *)
Definition cd (name : option string) : M unit :=
  if String.eqb (arg name) "" then
    fun st => (inr tt, with_chain [("", _root st)] (with_current (_root st) st))
  else
    let* node := _get_node_or_fail (arg name) in
    fun st =>
      if negb (is_dir (heap st) node) then (inl (NotADirectory (arg name)), st)
      else
        (let* r := _resolve_path (arg name) in
         fun st =>
           let st := with_chain (deref st r) st in
           match list_pop (_path_to_current st) with
           | Some ((_, d), _) => (inr tt, with_current d st)
           | None => (inl IndexError, st)
           end) st.

(** [FileSystem.create_file] *)
Definition create_file (name : string) : M ino :=
  _fail_if_node_exists name ;;
  let* parent_node := _get_directory_or_fail (parent_path name) in
  let* file_node := new_file in
  add_child parent_node (requested name) file_node ;;
  ret file_node.

(** [FileSystem.cwd] *)
Definition cwd (st : FileSystem) : string :=
  let s := join (map fst (_path_to_current st)) in
  if String.eqb s "" then "/" else s.

(** [FileSystem.ls] with [show_details=False] *)
Definition ls (name : option string) : M (list string) :=
  let* node :=
    (if String.eqb (arg name) "" then fun st => (inr (_current st), st)
     else _get_directory_or_fail (arg name)) in
  fun st => (inr (map fst (iter_children (heap st) node)), st).

(** [FileSystem.ln] *)
Definition ln (target dest : string) : M ino :=
  let* target_node := _get_node_or_fail target in
  let* dest_parent_node := _get_directory_or_fail (parent_path dest) in
  add_links target_node 1 ;;
  add_child dest_parent_node (requested dest) target_node.

(** [FileSystem.mkdir] *)
Definition mkdir (name : string) (create_intermediates : bool) : M ino :=
  _fail_if_node_exists name ;;
  (if create_intermediates then _create_tree (parent_path name) else ret tt) ;;
  let* parent_node := _get_directory_or_fail (parent_path name) in
  let* node := new_directory parent_node in
  add_child parent_node (requested name) node ;;
  ret node.

(** [try: ... except exceptions.NoSuchFileOrDirectory: pass] *)
Definition ignore_missing {A} (m : M A) : M unit :=
  fun st =>
    match m st with
    | (inl (NoSuchFileOrDirectory _), st') => (inr tt, st')
    | (inl e, st') => (inl e, st')
    | (inr _, st') => (inr tt, st')
    end.

(** Equality of two lists of [(name, node)] tuples; nodes define no
    [__eq__], so they are compared by identity. *)
Definition pair_eqb (a b : string * ino) : bool :=
  String.eqb (fst a) (fst b) && Nat.eqb (snd a) (snd b).
Fixpoint chain_eqb (p q : list (string * ino)) : bool :=
  match p, q with
  | [], [] => true
  | a :: p', b :: q' => pair_eqb a b && chain_eqb p' q'
  | _, _ => false
  end.

(** [self._resolve_path(new_parent_path) == self._resolve_path(old_parent_path)]:
    both calls are made, left one first, and the two list objects are
    compared afterwards. *)
Definition same_parent (new_parent_path old_parent_path : string) : M bool :=
  let* r_new := _resolve_path new_parent_path in
  let* r_old := _resolve_path old_parent_path in
  fun st => (inr (chain_eqb (deref st r_new) (deref st r_old)), st).

(** [FileSystem.mv] *)
Definition mv (old_name new_name : string) : M ino :=
  let* node := _get_node_or_fail old_name in
  ignore_missing (_get_node_or_fail new_name) ;;
  let* old_parent_node := _get_directory_or_fail (parent_path old_name) in
  let* new_parent_node := _get_directory_or_fail (parent_path new_name) in
  let* same := same_parent (parent_path new_name) (parent_path old_name) in
  if same && String.eqb (requested new_name) (requested old_name) then ret node
  else
    add_child new_parent_node (requested new_name) node ;;
    delete_child old_parent_node (requested old_name) ;;
    ret node.

(** What [read_file] hands back: a string, or a generator's characters. *)
Inductive read_result :=
| Contents (s : string)
| Stream (chars : list ascii).

(** [FileSystem.read_file] *)
Definition read_file (name : string) (stream : bool) : M read_result :=
  let* node := _get_node_or_fail name in
  fun st =>
    if is_dir (heap st) node then (inl (IsADirectory name), st)
    else if stream then (let* cs := stream_contents node in ret (Stream cs)) st
    else (let* s := read_contents node in ret (Contents s)) st.

(** [FileSystem.rm] *)
Definition rm (name : string) (recursive : bool) : M ino :=
  let* node := _get_node_or_fail name in
  fun st =>
    if is_dir (heap st) node && negb recursive then (inl (IsADirectory name), st)
    else
      (let* parent_node := _get_directory_or_fail (parent_path name) in
       add_links node (-1) ;;
       delete_child parent_node (requested name)) st.

(** [FileSystem.touch] *)
Definition touch (name : string) : M ino :=
  fun st =>
    match _get_node name st with
    | Some match_ => (inr match_, st)
    | None =>
        (let* parent_node := _get_directory_or_fail (parent_path name) in
         let* file_node := new_file in
         add_child parent_node (requested name) file_node) st
    end.

(** [FileSystem.write_file] *)
Definition write_file (name contents : string) : M ino :=
  fun st =>
    match _get_node name st with
    | Some match_ =>
        if is_dir (heap st) match_ then (inl (IsADirectory name), st)
        else write_contents match_ contents st
    | None =>
        (let* file := create_file name in
         write_contents file contents) st
    end.

(** ** filesystem.py: [find] *)

(** [child not in visited] on a set of [(name, node)] tuples *)
Definition seen (x : string * ino) (visited : list (string * ino)) : bool :=
  existsb (pair_eqb x) visited.

(** The three collections the search loop updates. *)
Record search := {
  visited : list (string * ino);
  nodes : list (string * ino);
  adjacency_map : list ((string * ino) * (string * ino))
}.

(** The body of [for child in node_obj] *)
Definition discover (node : string * ino) (s : search) (child : string * ino) : search :=
  if seen child (visited s) then s
  else {| visited := child :: visited s;
          nodes := nodes s ++ [child];
          adjacency_map := dict_set pair_eqb child node (adjacency_map s) |}.

(** [while nodes: node = nodes.pop(); ...], at most [fuel] rounds;
    [None] when the stack is not empty after that many. *)
Fixpoint search_loop (fuel : nat) (h : store) (s : search) : option search :=
  match list_pop (nodes s) with
  | None => Some s
  | Some (node, rest) =>
      match fuel with
      | O => None
      | S fuel' =>
          let s := {| visited := visited s; nodes := rest;
                      adjacency_map := adjacency_map s |} in
          search_loop fuel' h
            (if is_dir h (snd node)
             then fold_left (discover node) (iter_children h (snd node)) s
             else s)
      end
  end.

(** [while parent in adjacency_map: path.insert(0, parent[0]); ...]
    followed by the last [path.insert(0, parent[0])] *)
Fixpoint climb (fuel : nat) (adj : list ((string * ino) * (string * ino)))
    (parent : string * ino) (path : list string) : option (list string) :=
  match dict_get pair_eqb parent adj with
  | None => Some (fst parent :: path)
  | Some grandparent =>
      match fuel with
      | O => None
      | S fuel' => climb fuel' adj grandparent (fst parent :: path)
      end
  end.

(** ["".join("/".join(part for part in path if part))] *)
Definition render (path : list string) : string :=
  join (filter (fun part => negb (String.eqb part "")) path).

(** The body of [for match in matches] *)
Definition coalesce (fuel : nat) (adj : list ((string * ino) * (string * ino)))
    (relative_to : string) (match_ : string * ino) : option string :=
  match dict_get pair_eqb match_ adj with
  | None => None
  | Some parent =>
      match climb fuel adj parent [fst match_] with
      | None => None
      | Some path =>
          Some (render (if String.eqb relative_to "" then path else relative_to :: path))
      end
  end.

Fixpoint coalesce_all (fuel : nat) (adj : list ((string * ino) * (string * ino)))
    (relative_to : string) (matches : list (string * ino)) : option (list string) :=
  match matches with
  | [] => Some []
  | m :: ms =>
      match coalesce fuel adj relative_to m, coalesce_all fuel adj relative_to ms with
      | Some p, Some ps => Some (p :: ps)
      | _, _ => None
      end
  end.

(** [FileSystem.find], each of its [while] loops cut off after [fuel]
    rounds: [None] when a loop needed more.  [find] reads the store and the
    session and writes to neither, so no state is returned. *)
Definition find (fuel : nat) (name : string) (relative_to : option string)
    (st : FileSystem) : option (Exn + list string) :=
  match (if String.eqb (arg relative_to) "" then Some (_current st)
         else _get_node (arg relative_to) st) with
  | None => Some (inl (NoSuchFileOrDirectory (arg relative_to)))
  | Some starting_node =>
      match search_loop fuel (heap st)
              {| visited := [("", starting_node)];
                 nodes := [("", starting_node)];
                 adjacency_map := [] |} with
      | None => None
      | Some s =>
          let matches :=
            map fst (filter (fun kv => String.eqb (fst (fst kv)) name) (adjacency_map s)) in
          match coalesce_all fuel (adjacency_map s) (arg relative_to) matches with
          | None => None
          | Some found_paths => Some (inr found_paths)
          end
      end
  end.

(** ** Sessions: sequences of calls *)

Inductive Op :=
| Cd (name : option string)
| CreateFile (name : string)
| Ls (name : option string)
| Ln (target dest : string)
| Mkdir (name : string) (create_intermediates : bool)
| Mv (old_name new_name : string)
| ReadFile (name : string) (stream : bool)
| Rm (name : string) (recursive : bool)
| Touch (name : string)
| WriteFile (name contents : string).

Inductive Value :=
| VNone
| VNode (n : ino)
| VNames (l : list string)
| VRead (r : read_result).

Definition fmap_M {A B} (f : A -> B) (m : M A) : M B :=
  let* a := m in ret (f a).

Definition step (op : Op) : M Value :=
  match op with
  | Cd name => fmap_M (fun _ => VNone) (cd name)
  | CreateFile name => fmap_M VNode (create_file name)
  | Ls name => fmap_M VNames (ls name)
  | Ln target dest => fmap_M VNode (ln target dest)
  | Mkdir name ci => fmap_M VNode (mkdir name ci)
  | Mv old_name new_name => fmap_M VNode (mv old_name new_name)
  | ReadFile name stream => fmap_M VRead (read_file name stream)
  | Rm name recursive => fmap_M VNode (rm name recursive)
  | Touch name => fmap_M VNode (touch name)
  | WriteFile name contents => fmap_M VNode (write_file name contents)
  end.

(** The state after a sequence of calls, whatever each of them returned or
    raised. *)
Definition run (ops : list Op) (st : FileSystem) : FileSystem :=
  fold_left (fun st op => snd (step op st)) ops st.

(** All the calls of the sequence returned normally. *)
Fixpoint all_return (ops : list Op) (st : FileSystem) : bool :=
  match ops with
  | [] => true
  | op :: ops' =>
      match step op st with
      | (inr _, st') => all_return ops' st'
      | (inl _, _) => false
      end
  end.

(** ** Vocabulary of the properties *)

(** The updates the operations make to the store, as functions on stores;
    each leaves the store alone where the method would raise. *)
Definition node_children (nd : INode) : list (string * ino) :=
  match obj nd with
  | DirectoryNode _ ch => ch
  | FileNode _ => []
  end.

Definition h_alloc (o : FileLike) (h : store) : store :=
  h ++ [ {| links := 1%Z; obj := o |} ].

Definition h_add (d : ino) (name : string) (c : ino) (h : store) : store :=
  match h !! d with
  | Some {| links := l; obj := DirectoryNode p ch |} =>
      <[d := {| links := l; obj := DirectoryNode p (dict_set String.eqb name c ch) |}]> h
  | _ => h
  end.

Definition h_del (d : ino) (name : string) (h : store) : store :=
  match h !! d with
  | Some {| links := l; obj := DirectoryNode p ch |} =>
      <[d := {| links := l; obj := DirectoryNode p (dict_del String.eqb name ch) |}]> h
  | _ => h
  end.

Definition h_links (n : ino) (delta : Z) (h : store) : store :=
  match h !! n with
  | Some nd => <[n := set_links (links nd + delta)%Z nd]> h
  | None => h
  end.

Definition h_write (n : ino) (s : string) (h : store) : store :=
  match h !! n with
  | Some {| links := l; obj := FileNode _ |} =>
      <[n := {| links := l; obj := FileNode s |}]> h
  | _ => h
  end.

(** A new node [o] stored under [name] in the directory [p]. *)
Definition created (o : FileLike) (p : nat) (name : string) (h : list INode) : list INode :=
  h_add p name (length h) (h_alloc o h).

(** A path that is one name under the root: [/r]. *)
Definition root_entry (name : string) : Prop := init (split name) = [""].

(** Every reference held by a node points into a store of [n] nodes. *)
Definition closed_node (n : nat) (nd : INode) : Prop :=
  match obj nd with
  | DirectoryNode p ch => p < n /\ Forall (fun kv => snd kv < n) ch
  | FileNode _ => True
  end.

Definition closed (h : list INode) : Prop := Forall (closed_node (length h)) h.

(** A state in which no reference dangles. *)
Record wf (st : FileSystem) : Prop := {
  wf_closed : closed (heap st);
  wf_root : _root st < length (heap st);
  wf_current : _current st < length (heap st);
  wf_chain : Forall (fun kv => snd kv < length (heap st)) (_path_to_current st)
}.

(** [mv] gets to its test and the test says "same place". *)
Definition mv_keeps (old_name new_name : string) (st : FileSystem) : bool :=
  match fst (same_parent (parent_path new_name) (parent_path old_name) st) with
  | inr same => same && String.eqb (requested new_name) (requested old_name)
  | inl _ => true
  end.

(** The two names of [_meta]. *)
Definition reserved (name : string) : bool :=
  String.eqb name "." || String.eqb name "..".

(** No child table has a key [.] or [..]. *)
Definition no_reserved_children (h : list INode) : Prop :=
  Forall (fun nd => Forall (fun kv => reserved (fst kv) = false) (node_children nd)) h.

(** The calls that store an entry under a name they do not look up first
    ([ln], [mv], and [mkdir] once [_create_tree] has run) are given a name
    other than [.] and [..]. *)
Definition plain_final (op : Op) : bool :=
  match op with
  | Ln _ dest => negb (reserved (requested dest))
  | Mv _ new_name => negb (reserved (requested new_name))
  | Mkdir name true => negb (reserved (requested name))
  | _ => true
  end.

(** The number of entries of a child table that hold the node [n]. *)
Fixpoint refs_in (n : nat) (ch : list (string * nat)) : nat :=
  match ch with
  | [] => 0
  | (_, c) :: ch' => (if Nat.eqb c n then 1 else 0) + refs_in n ch'
  end.

(** The number of directory entries that hold the node [n], over the
    child tables of all the directories in the store. *)
Fixpoint refcount (h : list INode) (n : nat) : nat :=
  match h with
  | [] => 0
  | nd :: h' => refs_in n (node_children nd) + refcount h' n
  end.


(** The directory named by the parent path of [name] has no entry under
    the final component of [name]. *)
Definition slot_free (name : string) (st : FileSystem) : bool :=
  match _get_node (parent_path name) st with
  | Some p =>
      match dict_get String.eqb (requested name) (children (heap st) p) with
      | None => true
      | Some _ => false
      end
  | None => true
  end.

(** The entry under the final component of [name], in the directory named
    by its parent path, holds the node that [name] resolves to. *)
Definition slot_holds (name : string) (st : FileSystem) : bool :=
  match _get_node (parent_path name) st, _get_node name st with
  | Some p, Some n =>
      match dict_get String.eqb (requested name) (children (heap st) p) with
      | Some c => Nat.eqb c n
      | None => false
      end
  | _, _ => true
  end.

(** A call that creates [name] when it does not resolve finds its slot
    free in [st1], the state in which it stores. *)
Definition stores_fresh (name : string) (st st1 : FileSystem) : bool :=
  match _get_node name st with
  | Some _ => true
  | None => slot_free name st1
  end.

(** The call stores no entry over an existing one, and removes no entry
    but that of the node it resolved. *)
Definition tidy (op : Op) (st : FileSystem) : bool :=
  match op with
  | CreateFile name | Touch name | WriteFile name _ => stores_fresh name st st
  | Mkdir name ci =>
      stores_fresh name st (if ci then snd (_create_tree (parent_path name) st) else st)
  | Ln _ dest => slot_free dest st
  | Mv old_name new_name =>
      mv_keeps old_name new_name st
      || (slot_holds old_name st && slot_free new_name st)
  | Rm name _ => slot_holds name st
  | Cd _ | Ls _ | ReadFile _ _ => true
  end.

Fixpoint tidy_run (ops : list Op) (st : FileSystem) : bool :=
  match ops with
  | [] => true
  | op :: ops' => tidy op st && tidy_run ops' (snd (step op st))
  end.


(** The session fields of two states agree. *)
Definition same_session (st st' : FileSystem) : Prop :=
  _current st' = _current st /\
  _path_to_current st' = _path_to_current st /\
  _root st' = _root st.

(** A call that leaves the state as it was whenever it raises. *)
Definition atomic {A} (m : M A) : Prop :=
  forall st e st', m st = (inl e, st') -> st' = st.

(** A chain starts at the root, under the empty name, and holds
    directories only. *)
Definition chain_ok (h : list INode) (root : nat) (c : list (string * nat)) : Prop :=
  (exists rest, c = ("", root) :: rest) /\
  Forall (fun kv => is_dir h (snd kv) = true) c.

(** The session stands on directories. *)
Record anchored (st : FileSystem) : Prop := {
  anch_root : is_dir (heap st) (_root st) = true;
  anch_current : is_dir (heap st) (_current st) = true;
  anch_chain : chain_ok (heap st) (_root st) (_path_to_current st)
}.

(** Every directory of [h] is a directory of [h']. *)
Definition dirs_kept (h h' : list INode) : Prop :=
  forall n, is_dir h n = true -> is_dir h' n = true.

(** No child table holds a name twice. *)
Definition names_unique (h : list INode) : Prop :=
  Forall (fun nd => List.NoDup (map fst (node_children nd))) h.

(** The store [h'] has every node of [h], each of the same kind as in [h]
    and with every entry it had in [h]. *)
Definition store_grows (h h' : list INode) : Prop :=
  length h <= length h' /\
  forall a, a < length h ->
    is_dir h' a = is_dir h a /\
    forall part c, find_child h a part = Some c -> find_child h' a part = Some c.
(** The paths a creating call stores where it looked: every path but
    [/r] from a current directory that is not the root. *)
Definition stores_where_it_looks (name : string) (st : FileSystem) : Prop :=
  ~ root_entry name \/ _current st = _root st.

(** The store [h'] is [h] without the entry [r] of the directory [p]. *)
Definition entry_removed (p : nat) (r : string) (h h' : list INode) : Prop :=
  (forall a, is_dir h' a = is_dir h a) /\
  (forall a part, a <> p \/ part <> r -> find_child h' a part = find_child h a part) /\
  find_child h' p r = None.

(** The joined names of the session chain, before [cwd] replaces the empty
    string by [/]. *)
Definition chain_names (st : FileSystem) : string :=
  join (map fst (_path_to_current st)).

(** Every entry of every directory of the store. *)
Definition entries (h : list INode) : list (string * nat) :=
  concat (map node_children h).

(** How many of the pairs of [U] the search has not seen. *)
Definition unseen (vis U : list (string * nat)) : nat :=
  length (List.filter (fun x => negb (seen x vis)) U).

(** An adjacency map built key by key, each new key unknown to the map
    as a key and as a value, and different from its own value: following
    values from any pair ends. *)
Inductive forest : list ((string * nat) * (string * nat)) -> Prop :=
| forest_nil : forest []
| forest_snoc adj k v :
    forest adj ->
    dict_get pair_eqb k adj = None ->
    (forall k' v', In (k', v') adj -> v' <> k) ->
    v <> k ->
    forest (adj ++ [(k, v)]).

(** What the search loop keeps true of its three collections. *)
Record search_inv (U : list (string * nat)) (s : search) : Prop := {
  inv_nodes : Forall (fun x => In x (visited s)) (nodes s);
  inv_keys : forall k v, In (k, v) (adjacency_map s) ->
               In k (visited s) /\ In v (visited s);
  inv_forest : forest (adjacency_map s);
  inv_len : length (adjacency_map s) + unseen (visited s) U <= length U
}.

(** The pairs [(name, node)] met by following directory entries from the
    directory [d]. *)
Inductive below (h : list INode) (d : nat) : string * nat -> Prop :=
| below_child c :
    is_dir h d = true -> In c (children h d) -> below h d c
| below_step x c :
    below h d x -> is_dir h (snd x) = true -> In c (children h (snd x)) ->
    below h d c.

(** One round of the search loop: the pair [node] was popped, [rest] is
    what is left of the stack. *)
Definition search_round (h : list INode) (s : search) (node : string * nat)
    (rest : list (string * nat)) : search :=
  let s1 := {| visited := visited s; nodes := rest; adjacency_map := adjacency_map s |} in
  if is_dir h (snd node)
  then fold_left (discover node) (iter_children h (snd node)) s1
  else s1.

(** The entries of the directory of a pair have all been seen. *)
Definition explored (h : list INode) (s : search) (x : string * nat) : Prop :=
  is_dir h (snd x) = true -> forall c, In c (children h (snd x)) -> In c (visited s).

(** What the search has seen lies below the start, and is a key of the
    adjacency map, but for the starting pair, which is no key. *)
Record search_sound (h : list INode) (start : nat) (s : search) : Prop := {
  snd_start : In ("", start) (visited s);
  snd_nodes : forall x, In x (nodes s) -> In x (visited s);
  snd_visited : forall x, In x (visited s) ->
                  x = ("", start) \/
                  (below h start x /\ exists v, In (x, v) (adjacency_map s));
  snd_keys : forall k v, In (k, v) (adjacency_map s) ->
               In k (visited s) /\ k <> ("", start)
}.

(** Every pair seen is on the stack, is one of [extra], or is explored. *)
Definition closed_but (h : list INode) (extra : list (string * nat)) (s : search) : Prop :=
  forall x, In x (visited s) -> In x (nodes s) \/ In x extra \/ explored h s x.

(** ** Sessions used as examples *)

(** The build of the repository's [test_find]: the file [/a/b/c/d/e] first,
    the directory [/a/b/e] second, back at the root at the end. *)
Definition find_example_ops : list Op :=
  [ Mkdir "a" false; Cd (Some "a"); Mkdir "b" false; Cd (Some "b");
    Mkdir "c" false; Cd (Some "c"); Mkdir "d" false; Cd (Some "d");
    Touch "e"; Cd (Some ".."); Cd (Some "..");
    Mkdir "e" false; Cd (Some ".."); Cd (Some "..") ].
Definition find_example : FileSystem := run find_example_ops init_fs.

(** A directory [a] holding a file [f], seen from the root. *)
Definition dir_with_file : FileSystem := run [Mkdir "a" false; Touch "a/f"] init_fs.

(** A file [f] next to an empty directory [a], seen from the root. *)
Definition file_beside_dir : FileSystem := run [Touch "f"; Mkdir "a" false] init_fs.

(** The session has moved into a directory [a] below the root. *)
Definition inside_a : FileSystem := run [Mkdir "a" false; Cd (Some "a")] init_fs.

(** A file [f] with contents in the root. *)
Definition one_file : FileSystem := run [Touch "f"; WriteFile "f" "hello"] init_fs.

(** * Properties *)

(** ** Dictionaries *)

Section DictFacts.
Context {K V : Type} (eqb : K -> K -> bool).
Hypothesis eqb_eq : forall a b, eqb a b = true <-> a = b.

Lemma eqb_refl' (a : K) : eqb a a = true.
Proof. apply eqb_eq. reflexivity. Qed.

Lemma eqb_neq (a b : K) : a <> b -> eqb a b = false.
Proof.
  intros Hne. destruct (eqb a b) eqn:E; [|reflexivity].
  apply eqb_eq in E. contradiction.
Qed.

Lemma dict_get_set_eq (k : K) (v : V) (d : list (K * V)) :
  dict_get eqb k (dict_set eqb k v d) = Some v.
Proof.
  induction d as [|[k' v'] d IH]; simpl.
  - rewrite eqb_refl'. reflexivity.
  - destruct (eqb k' k) eqn:E; simpl; rewrite E; auto.
Qed.

Lemma dict_get_set_ne (k k' : K) (v : V) (d : list (K * V)) :
  k <> k' -> dict_get eqb k' (dict_set eqb k v d) = dict_get eqb k' d.
Proof.
  intros Hne. induction d as [|[k0 v0] d IH]; simpl.
  - rewrite eqb_neq by assumption. reflexivity.
  - destruct (eqb k0 k) eqn:E; simpl.
    + apply eqb_eq in E. subst k0. rewrite eqb_neq by assumption. reflexivity.
    + destruct (eqb k0 k'); auto.
Qed.

Lemma dict_set_fresh (k : K) (v : V) (d : list (K * V)) :
  dict_get eqb k d = None -> dict_set eqb k v d = d ++ [(k, v)].
Proof.
  induction d as [|[k0 v0] d IH]; simpl; [reflexivity|].
  destruct (eqb k0 k); [discriminate|]. intros H. rewrite IH by assumption. reflexivity.
Qed.

Lemma dict_get_None_keys (k : K) (d : list (K * V)) :
  dict_get eqb k d = None <-> ~ In k (map fst d).
Proof.
  induction d as [|[k0 v0] d IH]; simpl; [tauto|].
  destruct (eqb k0 k) eqn:E.
  - apply eqb_eq in E. split; [discriminate|]. intros H. exfalso. auto.
  - rewrite IH. split; [|tauto].
    intros H [Heq|Hin]; [|tauto]. subst. rewrite eqb_refl' in E. discriminate.
Qed.

Lemma dict_set_keys (k k' : K) (v : V) (d : list (K * V)) :
  In k' (map fst (dict_set eqb k v d)) <-> k' = k \/ In k' (map fst d).
Proof.
  induction d as [|[k0 v0] d IH]; simpl.
  - intuition.
  - destruct (eqb k0 k) eqn:E; simpl.
    + apply eqb_eq in E. subst. intuition.
    + rewrite IH. intuition.
Qed.

Lemma dict_del_keys (k k' : K) (d : list (K * V)) :
  In k' (map fst (dict_del eqb k d)) -> In k' (map fst d).
Proof.
  induction d as [|[k0 v0] d IH]; simpl; [tauto|].
  destruct (eqb k0 k); simpl; intuition.
Qed.

End DictFacts.

(** ** Splitting and joining paths *)

Lemma split_nonempty (s : string) : split s <> [].
Proof.
  induction s as [|c s IH]; simpl; [discriminate|].
  destruct (Ascii.eqb c "/"); [discriminate|].
  destruct (split s); [contradiction|discriminate].
Qed.

Lemma split_join2 (a b : string) : split (join2 a b) = split a ++ split b.
Proof.
  unfold join2. induction a as [|c a IH]; simpl; [reflexivity|].
  destruct (Ascii.eqb c "/"); [rewrite IH; reflexivity|].
  rewrite IH. pose proof (split_nonempty a) as Hne.
  destruct (split a); [contradiction|reflexivity].
Qed.

Lemma join_cons (x : string) (xs : list string) :
  xs <> [] -> join (x :: xs) = join2 x (join xs).
Proof. destruct xs; [contradiction|reflexivity]. Qed.

Lemma join_split (s : string) : join (split s) = s.
Proof.
  induction s as [|c s IH]; simpl; [reflexivity|].
  pose proof (split_nonempty s) as Hne.
  destruct (Ascii.eqb c "/") eqn:E.
  - apply Ascii.eqb_eq in E. subst c. rewrite join_cons by assumption.
    rewrite IH. reflexivity.
  - destruct (split s) as [|w ws] eqn:Es; [contradiction|].
    destruct ws as [|w' ws].
    + unfold join in *. simpl in *. congruence.
    + unfold join in *. simpl in *. congruence.
Qed.

Lemma split_no_sep (s : string) : Forall no_sep (split s).
Proof.
  induction s as [|c s IH]; simpl; [repeat constructor|].
  destruct (Ascii.eqb c "/") eqn:E; [constructor; [exact I|assumption]|].
  destruct (split s) as [|w ws]; [repeat constructor; assumption|].
  inversion IH; subst. constructor; [split; assumption|assumption].
Qed.

Lemma split_one (s : string) : no_sep s -> split s = [s].
Proof.
  induction s as [|c s IH]; simpl; [reflexivity|].
  intros [-> Hs]. rewrite IH by assumption. reflexivity.
Qed.

Lemma split_join (parts : list string) :
  parts <> [] -> Forall no_sep parts -> split (join parts) = parts.
Proof.
  induction parts as [|x xs IH]; [congruence|]. intros _ Hall.
  inversion Hall as [|? ? Hx Hxs]; subst.
  destruct xs as [|y ys].
  - simpl. apply split_one. assumption.
  - rewrite join_cons by discriminate. rewrite split_join2.
    rewrite split_one by assumption. rewrite IH by (assumption || discriminate).
    reflexivity.
Qed.

Lemma append_assoc (a b c : string) :
  String.append (String.append a b) c = String.append a (String.append b c).
Proof. induction a as [|x a IH]; simpl; [reflexivity|]. rewrite IH. reflexivity. Qed.

Lemma join_app (xs ys : list string) :
  xs <> [] -> ys <> [] -> join (xs ++ ys) = join2 (join xs) (join ys).
Proof.
  induction xs as [|x xs IH]; [congruence|]. intros _ Hys.
  destruct xs as [|x' xs].
  - simpl app. apply join_cons. assumption.
  - change ((x :: x' :: xs) ++ ys) with (x :: ((x' :: xs) ++ ys)).
    rewrite (join_cons x ((x' :: xs) ++ ys)) by (simpl; discriminate).
    rewrite IH by (assumption || discriminate).
    rewrite (join_cons x (x' :: xs)) by discriminate.
    unfold join2. rewrite append_assoc. reflexivity.
Qed.

(** ** The store *)


Lemma is_file_lookup (h : store) (n : ino) :
  is_file h n = true <->
  exists l s, h !! n = Some {| links := l; obj := FileNode s |}.
Proof.
  unfold is_file. split.
  - destruct (h !! n) as [[l [s|p ch]]|]; try discriminate. eauto.
  - intros (l & s & ->). reflexivity.
Qed.

Lemma is_file_not_dir (h : store) (n : ino) : is_file h n = true -> is_dir h n = false.
Proof.
  unfold is_file, is_dir. destruct (h !! n) as [[l [s|p ch]]|]; congruence.
Qed.

(** ** Lookup of a path that runs through a file *)

Lemma eqb_empty (s : string) : String.eqb s "" = false <-> s <> "".
Proof. rewrite <- String.eqb_neq. reflexivity. Qed.

Lemma join2_nonempty (p q : string) : String.eqb (join2 p q) "" = false.
Proof. destruct p; reflexivity. Qed.

Lemma is_root_relative_join2 (p q : string) :
  p <> "" -> is_root_relative (join2 p q) = is_root_relative p.
Proof. destruct p; [congruence|reflexivity]. Qed.

Lemma strip_join2 (p q : string) :
  p <> "" -> strip (join2 p q) = join2 (strip p) q.
Proof.
  intros Hp. unfold strip. rewrite is_root_relative_join2 by assumption.
  destruct p as [|c p]; [congruence|].
  unfold is_root_relative. simpl. destruct (Ascii.eqb c "/"); reflexivity.
Qed.

Lemma anchor_join2 (p q : string) (st : FileSystem) :
  p <> "" -> anchor (join2 p q) st = anchor p st.
Proof. intros Hp. unfold anchor. rewrite is_root_relative_join2 by assumption. reflexivity. Qed.

Lemma get_node_stuck (h : store) (f : ino) (parts : list string) :
  is_dir h f = false -> fold_left (get_node_step h) parts (Some f) = Some f.
Proof.
  intros Hf. induction parts as [|x xs IH]; simpl; [reflexivity|].
  rewrite Hf. assumption.
Qed.

Lemma get_node_join2 (st : FileSystem) (p q : string) :
  p <> "" ->
  _get_node (join2 p q) st
  = fold_left (get_node_step (heap st)) (split q) (_get_node p st).
Proof.
  intros Hp. unfold _get_node. rewrite join2_nonempty.
  apply eqb_empty in Hp as Hp'. rewrite Hp'.
  rewrite strip_join2, anchor_join2, split_join2 by assumption.
  apply fold_left_app.
Qed.

Lemma get_node_through_file (st : FileSystem) (p q : string) (f : ino) :
  p <> "" -> _get_node p st = Some f -> is_dir (heap st) f = false ->
  _get_node (join2 p q) st = Some f.
Proof.
  intros Hp Hf Hnd. rewrite get_node_join2 by assumption. rewrite Hf.
  apply get_node_stuck. assumption.
Qed.

Lemma init_app {A} (xs ys : list A) : ys <> [] -> init (xs ++ ys) = xs ++ init ys.
Proof. intros H. unfold init. apply removelast_app. assumption. Qed.

Lemma parent_path_join2 (p q : string) :
  parent_path (join2 p q) = p \/ exists q', parent_path (join2 p q) = join2 p q'.
Proof.
  unfold parent_path. rewrite split_join2. rewrite init_app by apply split_nonempty.
  destruct (init (split q)) as [|y ys] eqn:E.
  - left. rewrite app_nil_r. apply join_split.
  - right. exists (join (y :: ys)). rewrite join_app; [|apply split_nonempty|discriminate].
    rewrite join_split. reflexivity.
Qed.

Lemma parent_through_file (st : FileSystem) (p q : string) (f : ino) :
  p <> "" -> _get_node p st = Some f -> is_dir (heap st) f = false ->
  _get_node (parent_path (join2 p q)) st = Some f.
Proof.
  intros Hp Hf Hnd. destruct (parent_path_join2 p q) as [->|[q' ->]]; [assumption|].
  apply get_node_through_file; assumption.
Qed.

(** C2, as the code has it.  No component of a path is ever refused for
    not being a directory: when the part [p] of a path resolves to a file,
    the lookup stays on that file and [p/q] resolves to it too, whatever
    [q] is.  So [read_file] returns the contents of that file (and [touch]
    returns it, [write_file] overwrites it); [cd] and [ls], which need a
    directory, raise [NotADirectory], as do [rm], [mv] and a [ln] to it,
    whose parent path resolves to the same file; [create_file] and [mkdir]
    raise [FileExists]. *)
Theorem lookup_stops_at_a_file (st : FileSystem) (p q : string) (f : ino)
    (l : Z) (s : string) :
  p <> "" ->
  _get_node p st = Some f ->
  heap st !! f = Some {| links := l; obj := FileNode s |} ->
  let name := join2 p q in
  _get_node name st = Some f /\
  read_file name false st = (inr (Contents s), st) /\
  read_file name true st = (inr (Stream (list_ascii_of_string s)), st) /\
  touch name st = (inr f, st) /\
  (forall c, exists st',
     write_file name c st = (inr f, st') /\
     heap st' !! f = Some {| links := l; obj := FileNode c |}) /\
  cd (Some name) st = (inl (NotADirectory name), st) /\
  ls (Some name) st = (inl (NotADirectory name), st) /\
  (forall r, rm name r st = (inl (NotADirectory (parent_path name)), st)) /\
  (forall new, mv name new st = (inl (NotADirectory (parent_path name)), st)) /\
  (forall target t, _get_node target st = Some t ->
     ln target name st = (inl (NotADirectory (parent_path name)), st)) /\
  create_file name st = (inl (FileExists name), st) /\
  (forall ci, mkdir name ci st = (inl (FileExists name), st)).
Proof.
  intros Hp Hf Hnode name.
  assert (Hfile : is_file (heap st) f = true) by (apply is_file_lookup; eauto).
  assert (Hnd : is_dir (heap st) f = false) by (apply is_file_not_dir; assumption).
  assert (Hname : _get_node name st = Some f) by (apply get_node_through_file; assumption).
  assert (Hpar : _get_node (parent_path name) st = Some f)
    by (apply parent_through_file; assumption).
  assert (Hne : String.eqb name "" = false) by apply join2_nonempty.
  split; [assumption|].
  split; [unfold read_file, bind, _get_node_or_fail, read_contents, ret;
          rewrite Hname, Hnd, Hnode; reflexivity|].
  split; [unfold read_file, bind, _get_node_or_fail, stream_contents, ret;
          rewrite Hname, Hnd, Hnode; reflexivity|].
  split; [unfold touch; rewrite Hname; reflexivity|].
  split.
  { intros c. unfold write_file, write_contents. rewrite Hname, Hnd, Hnode.
    eexists; split; [reflexivity|]. cbn [heap with_heap].
    apply list_lookup_insert_eq. eapply lookup_lt_Some; eassumption. }
  split; [unfold cd, arg, default, bind, _get_node_or_fail; cbn [id];
          rewrite Hne, Hname, Hnd; reflexivity|].
  split; [unfold ls, arg, default, bind, _get_directory_or_fail, _get_node_or_fail, bind;
          cbn [id]; rewrite Hne, Hname, Hnd; reflexivity|].
  split.
  { intros r. unfold rm, bind, _get_directory_or_fail, _get_node_or_fail, bind.
    rewrite Hname, Hnd. cbn [andb]. rewrite Hpar. cbn beta iota. rewrite Hnd. reflexivity. }
  split.
  { intros new. unfold mv, bind, ignore_missing, _get_directory_or_fail, _get_node_or_fail, bind.
    rewrite Hname. cbn beta iota.
    destruct (_get_node new st); cbn beta iota; rewrite Hpar; cbn beta iota;
      rewrite Hnd; reflexivity. }
  split.
  { intros target t Ht. unfold ln, bind, _get_directory_or_fail, _get_node_or_fail, bind.
    rewrite Ht, Hpar. cbn beta iota. rewrite Hnd. reflexivity. }
  split; [unfold create_file, bind, _fail_if_node_exists; rewrite Hname; reflexivity|].
  intros ci. unfold mkdir, bind, _fail_if_node_exists. rewrite Hname. reflexivity.
Qed.

(** The theorem at the file [f] of [one_file] and the path [f/x]. *)
Lemma lookup_stops_at_a_file_witness :
  "f" <> "" /\
  _get_node "f" one_file = Some 1 /\
  read_file (join2 "f" "x") false one_file = (inr (Contents "hello"), one_file) /\
  cd (Some (join2 "f" "x")) one_file = (inl (NotADirectory (join2 "f" "x")), one_file).
Proof.
  pose proof (lookup_stops_at_a_file one_file "f" "x" 1 1%Z "hello"
                ltac:(discriminate) eq_refl eq_refl) as H.
  split; [discriminate|]. split; [reflexivity|].
  split; [apply H|apply H].
Defined.

(** C2, as stated, fails: [f] is a file, [f/x] has it as a non-final
    component, and [read_file("f/x")] returns the contents of [f]; it does
    not raise [NotADirectory]. *)
Lemma read_file_through_a_file_returns :
  _get_node "f" one_file = Some 1 /\
  is_file (heap one_file) 1 = true /\
  read_file "f/x" false one_file = (inr (Contents "hello"), one_file) /\
  forall name, fst (read_file "f/x" false one_file) <> inl (NotADirectory name).
Proof. repeat split. discriminate. Qed.

(** ** A path and its parent path *)

Lemma split_init_final (s : string) : split s = init (split s) ++ [final (split s)].
Proof. unfold init, final. apply app_removelast_last, split_nonempty. Qed.

Lemma no_sep_not_root_relative (x rest : string) :
  no_sep x -> x <> "" -> is_root_relative (String.append x rest) = false.
Proof. destruct x as [|c x]; [congruence|]. intros [H _] _. exact H. Qed.

Lemma append_nonempty (x rest : string) : x <> "" -> String.append x rest <> "".
Proof. destruct x; [congruence|discriminate]. Qed.

Lemma join_head (x : string) (xs : list string) :
  exists rest, join (x :: xs) = String.append x rest.
Proof.
  destruct xs as [|y ys].
  - exists "". simpl. unfold join. simpl. induction x; simpl; congruence.
  - eexists. rewrite join_cons by discriminate. reflexivity.
Qed.

Lemma get_node_of_parts (name : string) (st : FileSystem) :
  name <> "" ->
  _get_node name st
  = fold_left (get_node_step (heap st)) (split (strip name)) (Some (anchor name st)).
Proof. intros H. unfold _get_node. apply eqb_empty in H. rewrite H. reflexivity. Qed.

Lemma fold_snoc (h : list INode) (ps : list string) (r : string) (start : option nat) :
  fold_left (get_node_step h) (ps ++ [r]) start
  = get_node_step h (fold_left (get_node_step h) ps start) r.
Proof. rewrite fold_left_app. reflexivity. Qed.

Lemma get_node_root_entry (name : string) (st : FileSystem) :
  root_entry name ->
  _get_node name st = get_node_step (heap st) (Some (_root st)) (requested name).
Proof.
  unfold root_entry, requested. intros HP.
  pose proof (split_init_final name) as Hs. rewrite HP in Hs.
  pose proof (split_no_sep name) as Hns. rewrite Hs in Hns.
  assert (Hname : name = String "/" (final (split name))).
  { rewrite <- (join_split name) at 1. rewrite Hs. reflexivity. }
  remember (final (split name)) as r eqn:Er. clear Er.
  rewrite Hname at 1. unfold _get_node. simpl String.eqb.
  unfold strip, anchor, is_root_relative. simpl.
  rewrite split_one; [reflexivity|].
  inversion Hns as [|? ? _ Hr]; inversion Hr; assumption.
Qed.

Lemma get_node_parent (name : string) (st : FileSystem) :
  name <> "" -> ~ root_entry name ->
  _get_node name st
  = get_node_step (heap st) (_get_node (parent_path name) st) (requested name).
Proof.
  unfold root_entry, requested, parent_path. intros Hne HP.
  pose proof (split_init_final name) as Hs.
  pose proof (split_no_sep name) as Hns.
  pose proof (join_split name) as Hj.
  remember (final (split name)) as r eqn:Er. remember (init (split name)) as P eqn:EP.
  clear Er EP. rewrite Hs in Hns, Hj. clear Hs. subst name.
  apply Forall_app in Hns as [HnsP Hnsr].
  assert (Hr : no_sep r) by (inversion Hnsr; assumption).
  destruct P as [|x P'].
  - (* one component, relative *)
    change (join ([] ++ [r])) with r in *.
    change (join []) with "". unfold _get_node at 2. simpl String.eqb. cbn iota.
    rewrite get_node_of_parts by assumption.
    assert (Hrr : is_root_relative r = false).
    { destruct r as [|c r]; [congruence|]. destruct Hr as [Hc _]. exact Hc. }
    unfold strip, anchor. rewrite Hrr. rewrite split_one by assumption. reflexivity.
  - assert (Hx : no_sep x) by (inversion HnsP; assumption).
    assert (HnsP' : Forall no_sep P') by (inversion HnsP; assumption).
    change ((x :: P') ++ [r]) with (x :: (P' ++ [r])) in *.
    destruct (String.eqb x "") eqn:Ex.
    + apply String.eqb_eq in Ex. subst x.
      destruct P' as [|y P'']; [contradiction|].
      (* absolute, at least two components *)
      rewrite (join_cons "" ((y :: P'') ++ [r])) by (simpl; discriminate).
      rewrite (join_cons "" (y :: P'')) by discriminate.
      unfold _get_node, join2. simpl String.eqb. cbn iota.
      unfold strip, anchor, is_root_relative. simpl startswith_sep. cbn iota. simpl tail.
      assert (H1 : split (join ((y :: P'') ++ [r])) = (y :: P'') ++ [r])
        by (apply split_join; [simpl; discriminate|apply Forall_app_2; assumption]).
      assert (H2 : split (join (y :: P'')) = y :: P'')
        by (apply split_join; [discriminate|assumption]).
      change (y :: P'' ++ [r]) with ((y :: P'') ++ [r]).
      rewrite H1, H2. apply fold_snoc.
    + apply String.eqb_neq in Ex.
      (* relative, at least two components *)
      destruct (join_head x (P' ++ [r])) as [rest Hrest].
      destruct (join_head x P') as [rest' Hrest'].
      assert (Hrr : is_root_relative (join (x :: P' ++ [r])) = false).
      { rewrite Hrest. apply no_sep_not_root_relative; assumption. }
      assert (Hrr' : is_root_relative (join (x :: P')) = false).
      { rewrite Hrest'. apply no_sep_not_root_relative; assumption. }
      assert (Hne' : join (x :: P') <> "").
      { rewrite Hrest'. apply append_nonempty. assumption. }
      rewrite !get_node_of_parts by assumption.
      unfold strip, anchor. rewrite Hrr, Hrr'.
      assert (H1 : split (join ((x :: P') ++ [r])) = (x :: P') ++ [r])
        by (apply split_join; [simpl; discriminate|apply Forall_app_2; assumption]).
      assert (H2 : split (join (x :: P')) = x :: P')
        by (apply split_join; [discriminate|assumption]).
      change (x :: P' ++ [r]) with ((x :: P') ++ [r]).
      rewrite H1, H2. apply fold_snoc.
Qed.

(** ** What the operations do to the store *)

Lemma with_heap_id (st : FileSystem) : with_heap (heap st) st = st.
Proof. destruct st; reflexivity. Qed.

Lemma dict_del_absent {V} (k : string) (d : list (string * V)) :
  dict_get String.eqb k d = None -> dict_del String.eqb k d = d.
Proof.
  induction d as [|[k0 v0] d IH]; simpl; [reflexivity|].
  destruct (String.eqb k0 k); [discriminate|]. intros H. rewrite IH by assumption. reflexivity.
Qed.

Lemma new_node_eq (o : FileLike) (st : FileSystem) :
  new_node o st = (inr (length (heap st)), with_heap (h_alloc o (heap st)) st).
Proof. reflexivity. Qed.

Lemma add_child_snd (d : ino) (name : string) (c : ino) (st : FileSystem) :
  snd (add_child d name c st) = with_heap (h_add d name c (heap st)) st.
Proof.
  unfold add_child, h_add.
  destruct (heap st !! d) as [[l [s|p ch]]|]; simpl; rewrite ?with_heap_id; reflexivity.
Qed.

Lemma add_child_dir (d : ino) (name : string) (c : ino) (st : FileSystem) :
  is_dir (heap st) d = true ->
  add_child d name c st = (inr c, with_heap (h_add d name c (heap st)) st).
Proof.
  unfold add_child, h_add, is_dir.
  destruct (heap st !! d) as [[l [s|p ch]]|]; simpl; congruence.
Qed.

Lemma delete_child_snd (d : ino) (name : string) (st : FileSystem) :
  snd (delete_child d name st) = with_heap (h_del d name (heap st)) st.
Proof.
  unfold delete_child, h_del.
  destruct (heap st !! d) as [[l [s|p ch]]|] eqn:E; simpl; rewrite ?with_heap_id; try reflexivity.
  destruct (dict_get String.eqb name ch) eqn:G; simpl; [reflexivity|].
  rewrite dict_del_absent by assumption.
  rewrite list_insert_id by assumption. rewrite with_heap_id. reflexivity.
Qed.

Lemma add_links_snd (n : ino) (delta : Z) (st : FileSystem) :
  snd (add_links n delta st) = with_heap (h_links n delta (heap st)) st.
Proof.
  unfold add_links, h_links.
  destruct (heap st !! n); simpl; rewrite ?with_heap_id; reflexivity.
Qed.

Lemma add_links_ok (n : ino) (delta : Z) (st : FileSystem) (e : Exn) (st' : FileSystem) :
  add_links n delta st = (inl e, st') -> st' = st.
Proof. unfold add_links. destruct (heap st !! n); congruence. Qed.

Lemma write_contents_snd (n : ino) (s : string) (st : FileSystem) :
  snd (write_contents n s st) = with_heap (h_write n s (heap st)) st.
Proof.
  unfold write_contents, h_write.
  destruct (heap st !! n) as [[l [s0|p ch]]|]; simpl; rewrite ?with_heap_id; reflexivity.
Qed.

Lemma h_alloc_length o h : length (h_alloc o h) = S (length h).
Proof. unfold h_alloc. rewrite length_app. simpl. lia. Qed.
Lemma h_add_length d name c h : length (h_add d name c h) = length h.
Proof. unfold h_add. destruct (h !! d) as [[l [s|p ch]]|]; rewrite ?length_insert; reflexivity. Qed.
Lemma h_del_length d name h : length (h_del d name h) = length h.
Proof. unfold h_del. destruct (h !! d) as [[l [s|p ch]]|]; rewrite ?length_insert; reflexivity. Qed.
Lemma h_links_length n z h : length (h_links n z h) = length h.
Proof. unfold h_links. destruct (h !! n); rewrite ?length_insert; reflexivity. Qed.
Lemma h_write_length n s h : length (h_write n s h) = length h.
Proof. unfold h_write. destruct (h !! n) as [[l [s0|p ch]]|]; rewrite ?length_insert; reflexivity. Qed.

Lemma snd_fmap_M {A B} (g : A -> B) (m : M A) (st : FileSystem) :
  snd (fmap_M g m st) = snd (m st).
Proof. unfold fmap_M, bind, ret. destruct (m st) as [[e|a] st']; reflexivity. Qed.

Lemma lookup_dir_app (h : list INode) (p : nat) (nd : INode) :
  is_dir h p = true -> is_dir (h ++ [nd]) p = true.
Proof.
  unfold is_dir. destruct (h !! p) eqn:E; [|discriminate].
  rewrite lookup_app_l by (eapply lookup_lt_Some; eassumption). rewrite E. auto.
Qed.

Lemma is_dir_h_alloc o h p : is_dir h p = true -> is_dir (h_alloc o h) p = true.
Proof. apply lookup_dir_app. Qed.

Lemma create_file_effect (name : string) (st : FileSystem) :
  (exists e, create_file name st = (inl e, st)) \/
  exists p, _get_node name st = None /\ _get_node (parent_path name) st = Some p /\
    is_dir (heap st) p = true /\
    create_file name st
    = (inr (length (heap st)), with_heap (created (FileNode "") p (requested name) (heap st)) st).
Proof.
  unfold create_file, bind, _fail_if_node_exists, _get_directory_or_fail, _get_node_or_fail, bind.
  destruct (_get_node name st) eqn:Hn; [left; eexists; reflexivity|]. cbn beta iota.
  destruct (_get_node (parent_path name) st) as [p|] eqn:Hp; [|left; eexists; reflexivity].
  cbn beta iota.
  destruct (is_dir (heap st) p) eqn:Hd; [|left; eexists; reflexivity].
  right. exists p. repeat split; try assumption.
  unfold new_file. rewrite new_node_eq.
  rewrite add_child_dir by (apply is_dir_h_alloc; assumption).
  reflexivity.
Qed.

Lemma touch_effect (name : string) (st : FileSystem) :
  snd (touch name st) = st \/
  exists p, _get_node name st = None /\ _get_node (parent_path name) st = Some p /\
    is_dir (heap st) p = true /\
    touch name st
    = (inr (length (heap st)), with_heap (created (FileNode "") p (requested name) (heap st)) st).
Proof.
  unfold touch, bind, _get_directory_or_fail, _get_node_or_fail, bind.
  destruct (_get_node name st) eqn:Hn; [left; reflexivity|].
  destruct (_get_node (parent_path name) st) as [p|] eqn:Hp; [|left; reflexivity]. cbn beta iota.
  destruct (is_dir (heap st) p) eqn:Hd; [|left; reflexivity].
  right. exists p. repeat split; try assumption.
  unfold new_file. rewrite new_node_eq.
  rewrite add_child_dir by (apply is_dir_h_alloc; assumption).
  reflexivity.
Qed.

Lemma write_file_effect (name contents : string) (st : FileSystem) :
  snd (write_file name contents st) = st \/
  (exists m, _get_node name st = Some m /\
     snd (write_file name contents st) = with_heap (h_write m contents (heap st)) st) \/
  exists p, _get_node name st = None /\ _get_node (parent_path name) st = Some p /\
    is_dir (heap st) p = true /\
    snd (write_file name contents st)
    = with_heap (h_write (length (heap st)) contents
                   (created (FileNode "") p (requested name) (heap st))) st.
Proof.
  unfold write_file.
  destruct (_get_node name st) as [m|] eqn:Hn.
  - destruct (is_dir (heap st) m); [left; reflexivity|].
    right; left. exists m. split; [reflexivity|]. apply write_contents_snd.
  - unfold bind. destruct (create_file_effect name st) as [[e H]|(p & _ & Hp & Hd & H)];
      rewrite H.
    + left; reflexivity.
    + right; right. exists p. repeat split; try assumption.
      rewrite write_contents_snd. reflexivity.
Qed.

Lemma ln_effect (target dest : string) (st : FileSystem) :
  snd (ln target dest st) = st \/
  exists t p, _get_node target st = Some t /\ is_Some (heap st !! t) /\
    _get_node (parent_path dest) st = Some p /\ is_dir (heap st) p = true /\
    snd (ln target dest st)
    = with_heap (h_add p (requested dest) t (h_links t 1 (heap st))) st.
Proof.
  unfold ln, bind, _get_directory_or_fail, _get_node_or_fail, bind.
  destruct (_get_node target st) as [t|] eqn:Ht; [|left; reflexivity]. cbn beta iota.
  destruct (_get_node (parent_path dest) st) as [p|] eqn:Hp; [|left; reflexivity].
  cbn beta iota.
  destruct (is_dir (heap st) p) eqn:Hd; [|left; reflexivity].
  destruct (add_links t 1 st) as [[e|[]] st1] eqn:E.
  - left. apply add_links_ok in E. assumption.
  - right. exists t, p. pose proof (add_links_snd t 1 st) as Hs. rewrite E in Hs. simpl in Hs.
    subst st1. repeat split; try assumption.
    + unfold add_links in E. destruct (heap st !! t); [eauto|discriminate].
    + rewrite add_child_snd. reflexivity.
Qed.

Lemma rm_effect (name : string) (recursive : bool) (st : FileSystem) :
  snd (rm name recursive st) = st \/
  exists n p, _get_node name st = Some n /\ is_Some (heap st !! n) /\
    _get_node (parent_path name) st = Some p /\ is_dir (heap st) p = true /\
    snd (rm name recursive st)
    = with_heap (h_del p (requested name) (h_links n (-1) (heap st))) st.
Proof.
  unfold rm, bind, _get_directory_or_fail, _get_node_or_fail, bind.
  destruct (_get_node name st) as [n|] eqn:Hn; [|left; reflexivity]. cbn beta iota.
  destruct (is_dir (heap st) n && negb recursive); [left; reflexivity|].
  destruct (_get_node (parent_path name) st) as [p|] eqn:Hp; [|left; reflexivity].
  cbn beta iota.
  destruct (is_dir (heap st) p) eqn:Hd; [|left; reflexivity].
  destruct (add_links n (-1) st) as [[e|[]] st1] eqn:E.
  - left. apply add_links_ok in E. assumption.
  - right. exists n, p. pose proof (add_links_snd n (-1) st) as Hs. rewrite E in Hs.
    simpl in Hs. subst st1. repeat split; try assumption.
    + unfold add_links in E. destruct (heap st !! n); [eauto|discriminate].
    + rewrite delete_child_snd. reflexivity.
Qed.

Lemma ls_effect (name : option string) (st : FileSystem) : snd (ls name st) = st.
Proof.
  unfold ls, bind, _get_directory_or_fail, _get_node_or_fail, bind.
  destruct (String.eqb (arg name) ""); [reflexivity|].
  destruct (_get_node (arg name) st) as [n|]; [|reflexivity]. cbn beta iota.
  destruct (is_dir (heap st) n); reflexivity.
Qed.

Lemma read_file_effect (name : string) (stream : bool) (st : FileSystem) :
  snd (read_file name stream st) = st.
Proof.
  unfold read_file, bind, _get_node_or_fail, read_contents, stream_contents, ret.
  destruct (_get_node name st) as [n|]; [|reflexivity]. cbn beta iota.
  destruct (is_dir (heap st) n); [reflexivity|].
  destruct stream; destruct (heap st !! n) as [[l [s|p ch]]|]; reflexivity.
Qed.

(** ** States without dangling references *)

Lemma dict_set_Forall {V} (P : string * V -> Prop) (k : string) (v : V)
    (d : list (string * V)) :
  Forall P d -> P (k, v) -> Forall P (dict_set String.eqb k v d).
Proof.
  intros Hd Hv. induction Hd as [|[k0 v0] d H0 Hd IH]; simpl.
  - repeat constructor. apply Hv.
  - destruct (String.eqb k0 k) eqn:E; constructor; auto.
    apply String.eqb_eq in E. subst k0. assumption.
Qed.

Lemma dict_del_Forall {V} (P : string * V -> Prop) (k : string) (d : list (string * V)) :
  Forall P d -> Forall P (dict_del String.eqb k d).
Proof.
  intros Hd. induction Hd as [|[k0 v0] d H0 Hd IH]; simpl; [constructor|].
  destruct (String.eqb k0 k); [assumption|constructor; assumption].
Qed.

Lemma dict_get_In {V} (k : string) (v : V) (d : list (string * V)) :
  dict_get String.eqb k d = Some v -> exists k', In (k', v) d /\ String.eqb k' k = true.
Proof.
  induction d as [|[k0 v0] d IH]; simpl; [discriminate|].
  destruct (String.eqb k0 k) eqn:E.
  - intros [= ->]. exists k0. auto.
  - intros H. destruct (IH H) as (k' & Hin & Hk). exists k'. auto.
Qed.

Lemma closed_node_mono (n m : nat) (nd : INode) :
  closed_node n nd -> n <= m -> closed_node m nd.
Proof.
  unfold closed_node. destruct (obj nd) as [s|p ch]; [auto|].
  intros [Hp Hch] Hle. split; [lia|].
  eapply Forall_impl; [eassumption|]. simpl. intros; lia.
Qed.

Lemma closed_alloc (o : FileLike) (h : list INode) :
  closed h -> closed_node (S (length h)) {| links := 1%Z; obj := o |} ->
  closed (h_alloc o h).
Proof.
  unfold closed, h_alloc. intros Hc Ho. rewrite length_app. simpl.
  replace (length h + 1) with (S (length h)) by lia.
  apply Forall_app. split.
  - eapply Forall_impl; [eassumption|]. intros nd Hnd. eapply closed_node_mono; [eassumption|lia].
  - constructor; [assumption|constructor].
Qed.

Lemma closed_insert (d : nat) (nd : INode) (h : list INode) :
  closed h -> closed_node (length h) nd -> closed (<[d := nd]> h).
Proof.
  unfold closed. intros Hc Hnd. rewrite length_insert. apply Forall_insert; assumption.
Qed.

Lemma closed_lookup (h : list INode) (n : nat) (nd : INode) :
  closed h -> h !! n = Some nd -> closed_node (length h) nd.
Proof. unfold closed. intros Hc Hn. eapply Forall_lookup_1; eassumption. Qed.

Lemma closed_add (d : nat) (name : string) (c : nat) (h : list INode) :
  closed h -> c < length h -> closed (h_add d name c h).
Proof.
  intros Hc Hlt. unfold h_add.
  destruct (h !! d) as [[l [s|p ch]]|] eqn:E; try assumption.
  apply closed_insert; [assumption|].
  pose proof (closed_lookup _ _ _ Hc E) as [Hp Hch]. split; [assumption|].
  apply dict_set_Forall; [assumption|]. intros; assumption.
Qed.

Lemma closed_del (d : nat) (name : string) (h : list INode) :
  closed h -> closed (h_del d name h).
Proof.
  intros Hc. unfold h_del.
  destruct (h !! d) as [[l [s|p ch]]|] eqn:E; try assumption.
  apply closed_insert; [assumption|].
  pose proof (closed_lookup _ _ _ Hc E) as [Hp Hch]. split; [assumption|].
  apply dict_del_Forall. assumption.
Qed.

Lemma closed_links (n : nat) (z : Z) (h : list INode) :
  closed h -> closed (h_links n z h).
Proof.
  intros Hc. unfold h_links. destruct (h !! n) as [nd|] eqn:E; [|assumption].
  apply closed_insert; [assumption|]. exact (closed_lookup _ _ _ Hc E).
Qed.

Lemma closed_write (n : nat) (s : string) (h : list INode) :
  closed h -> closed (h_write n s h).
Proof.
  intros Hc. unfold h_write. destruct (h !! n) as [[l [s0|p ch]]|] eqn:E; try assumption.
  apply closed_insert; [assumption|exact I].
Qed.

Lemma find_child_valid (h : list INode) (n : nat) (name : string) (c : nat) :
  closed h -> find_child h n name = Some c -> c < length h.
Proof.
  intros Hc. unfold find_child.
  destruct (h !! n) as [[l [s|p ch]]|] eqn:E; try discriminate.
  pose proof (closed_lookup _ _ _ Hc E) as [Hp Hch].
  destruct (dict_get String.eqb name ch) as [c'|] eqn:G.
  - intros [= ->]. apply dict_get_In in G as (k' & Hin & _).
    rewrite List.Forall_forall in Hch. apply (Hch _ Hin).
  - unfold meta_get. destruct (String.eqb name "."); [intros [= <-]; eapply lookup_lt_Some; eassumption|].
    destruct (String.eqb name ".."); [intros [= <-]; assumption|discriminate].
Qed.

Lemma get_node_step_valid (h : list INode) (node : option nat) (part : string) (c : nat) :
  closed h -> (forall n, node = Some n -> n < length h) ->
  get_node_step h node part = Some c -> c < length h.
Proof.
  intros Hc Hn. unfold get_node_step. destruct node as [n|]; [|discriminate].
  destruct (is_dir h n).
  - apply find_child_valid. assumption.
  - intros [= <-]. auto.
Qed.

Lemma fold_get_node_valid (h : list INode) (parts : list string) (node : option nat) (c : nat) :
  closed h -> (forall n, node = Some n -> n < length h) ->
  fold_left (get_node_step h) parts node = Some c -> c < length h.
Proof.
  intros Hc. revert node. induction parts as [|x xs IH]; simpl; intros node Hn H; [auto|].
  eapply IH; [|eassumption]. intros n Hs. eapply get_node_step_valid; eassumption.
Qed.

Lemma get_node_valid (name : string) (st : FileSystem) (n : nat) :
  wf st -> _get_node name st = Some n -> n < length (heap st).
Proof.
  intros [Hc Hr Hcur _]. unfold _get_node.
  destruct (String.eqb name ""); [intros [= <-]; assumption|].
  apply fold_get_node_valid; [assumption|].
  intros m [= <-]. unfold anchor. destruct (is_root_relative name); assumption.
Qed.

Lemma wf_with_heap (h : list INode) (st : FileSystem) :
  wf st -> closed h -> length (heap st) <= length h -> wf (with_heap h st).
Proof.
  intros [Hc Hr Hcur Hch] Hc' Hle. constructor; simpl; try lia; [assumption|].
  eapply Forall_impl; [eassumption|]. simpl. intros; lia.
Qed.

Lemma with_chain_id (st : FileSystem) : with_chain (_path_to_current st) st = st.
Proof. destruct st; reflexivity. Qed.

Lemma wf_with_chain (c : list (string * nat)) (st : FileSystem) :
  wf st -> Forall (fun kv => snd kv < length (heap st)) c -> wf (with_chain c st).
Proof. intros [Hc Hr Hcur Hch] Hv. constructor; simpl; assumption. Qed.

Lemma removelast_Forall {A} (P : A -> Prop) (l : list A) :
  Forall P l -> Forall P (removelast l).
Proof.
  intros H. induction H as [|x l Hx Hl IH]; simpl; [constructor|].
  destruct l; [constructor|]. constructor; assumption.
Qed.

Lemma last_In {A} (l : list A) (d : A) :
  (List.last l d = d /\ l = []) \/ In (List.last l d) l.
Proof.
  induction l as [|z l IH]; [left; auto|]. right.
  destruct l as [|w l]; [left; reflexivity|].
  destruct IH as [[_ H]|H]; [discriminate|]. right. exact H.
Qed.

Lemma list_pop_In {A} (l : list A) (x : A) (rest : list A) :
  list_pop l = Some (x, rest) -> In x l.
Proof.
  unfold list_pop. destruct l as [|y l]; [discriminate|]. intros [= <- _].
  destruct (last_In l y) as [[-> _]|H]; [left; reflexivity|right; assumption].
Qed.

Lemma resolve_walk_valid (h : list INode) (name : string) (parts : list string)
    (node : nat) (path : list (string * nat)) :
  closed h -> Forall (fun kv => snd kv < length h) path ->
  Forall (fun kv => snd kv < length h) (snd (resolve_walk h name parts node path)).
Proof.
  intros Hc. revert node path. induction parts as [|part parts IH]; intros node path Hp; simpl.
  - assumption.
  - destruct (find_child h node part) as [next|] eqn:F; [|assumption].
    destruct (is_dir h next); [|apply IH; assumption].
    apply IH. destruct (String.eqb part "..").
    + destruct (1 <? length path); [apply removelast_Forall|]; assumption.
    + destruct (String.eqb part "."); simpl; [assumption|].
      apply Forall_app. split; [assumption|].
      constructor; [|constructor]. simpl. eapply find_child_valid; eassumption.
Qed.

(** [_resolve_path] touches nothing but the session's chain. *)
Lemma resolve_path_effect (name : string) (st : FileSystem) :
  exists c,
    snd (_resolve_path name st) = with_chain c st /\
    (wf st -> Forall (fun kv => snd kv < length (heap st)) c) /\
    (forall r, fst (_resolve_path name st) = inr r -> wf st ->
       Forall (fun kv => snd kv < length (heap st)) (deref (with_chain c st) r)).
Proof.
  unfold _resolve_path.
  destruct (String.eqb name "").
  - exists (_path_to_current st). rewrite with_chain_id.
    split; [reflexivity|]. split; [intros []; assumption|].
    simpl. intros r [= <-] []. assumption.
  - destruct (is_root_relative name).
    + exists (_path_to_current st). rewrite with_chain_id.
      pose proof (resolve_walk_valid (heap st) (strip name) (split (strip name))
                    (_root st) [("", _root st)]) as Hv.
      destruct (resolve_walk _ _ _ _ _) as [[e|] path]; simpl in *.
      * split; [reflexivity|]. split; [intros []; assumption|]. discriminate.
      * split; [reflexivity|]. split; [intros []; assumption|].
        intros r [= <-] [Hc Hr _ _]. simpl. apply Hv; [assumption|].
        constructor; [assumption|constructor].
    + pose proof (resolve_walk_valid (heap st) (strip name) (split (strip name))
                    (_current st) (_path_to_current st)) as Hv.
      destruct (resolve_walk _ _ _ _ _) as [[e|] path]; simpl in *; exists path.
      * split; [reflexivity|]. split; [intros []; auto|]. discriminate.
      * split; [reflexivity|]. split; [intros []; auto|].
        intros r [= <-] []. simpl. auto.
Qed.

Lemma cd_heap (name : option string) (st : FileSystem) :
  heap (snd (cd name st)) = heap st /\ _root (snd (cd name st)) = _root st.
Proof.
  unfold cd. destruct (String.eqb (arg name) ""); [split; reflexivity|].
  unfold bind, _get_node_or_fail.
  destruct (_get_node (arg name) st) as [n|]; [|split; reflexivity]. cbn beta iota.
  destruct (negb (is_dir (heap st) n)); [split; reflexivity|].
  destruct (resolve_path_effect (arg name) st) as (c & Hs & _).
  destruct (_resolve_path (arg name) st) as [[e|r] st']; simpl in Hs; subst st'.
  - split; reflexivity.
  - destruct (list_pop _) as [[[k d] rest]|]; split; reflexivity.
Qed.

Lemma cd_wf (name : option string) (st : FileSystem) : wf st -> wf (snd (cd name st)).
Proof.
  intros Hwf. unfold cd. destruct (String.eqb (arg name) "").
  - destruct Hwf as [Hc Hr Hcur Hch]. constructor; simpl; try assumption.
    constructor; [assumption|constructor].
  - unfold bind, _get_node_or_fail.
    destruct (_get_node (arg name) st) as [n|]; [|assumption]. cbn beta iota.
    destruct (negb (is_dir (heap st) n)); [assumption|].
    destruct (resolve_path_effect (arg name) st) as (c & Hs & Hc & Hr).
    destruct (_resolve_path (arg name) st) as [[e|r] st']; simpl in Hs; subst st'.
    + apply wf_with_chain; auto.
    + specialize (Hr r eq_refl Hwf). specialize (Hc Hwf).
      assert (Hwf2 : wf (with_chain (deref (with_chain c st) r) (with_chain c st))).
      { apply wf_with_chain; [apply wf_with_chain; assumption|assumption]. }
      destruct (list_pop _) as [[[k d] rest]|] eqn:Hpop; [|exact Hwf2].
      apply list_pop_In in Hpop. simpl in Hpop.
      rewrite List.Forall_forall in Hr. specialize (Hr _ Hpop). simpl in Hr.
      destruct Hwf2 as [H1 H2 H3 H4]. constructor; simpl in *; assumption.
Qed.

(** ** What [mkdir], [mv] and [_create_tree] do *)

(** One invariant for the loop of [_create_tree]: [Q st node] holds of the
    state and the node the loop stands on. *)
Lemma create_tree_walk_inv (Q : FileSystem -> nat -> Prop) :
  (forall st node name c,
     Q st node -> find_child (heap st) node name = Some c -> Q st c) ->
  (forall st node name,
     Q st node -> is_file (heap st) node = false ->
     find_child (heap st) node name = None ->
     Q (with_heap (created (DirectoryNode node []) node name (heap st)) st)
       (length (heap st))) ->
  forall parts node st,
    Q st node -> exists node', Q (snd (create_tree_walk parts node st)) node'.
Proof.
  intros Hfound Hnew. induction parts as [|name parts IH]; intros node st HQ; simpl.
  - exists node. assumption.
  - destruct (is_file (heap st) node) eqn:Hfile; [exists node; assumption|].
    destruct (find_child (heap st) node name) as [c|] eqn:F.
    + apply IH. eapply Hfound; eassumption.
    + specialize (Hnew _ _ _ HQ Hfile F).
      unfold bind, new_directory. rewrite new_node_eq.
      pose proof (add_child_snd node name (length (heap st))
                    (with_heap (h_alloc (DirectoryNode node []) (heap st)) st)) as Hs.
      destruct (add_child _ _ _ _) as [[e|d] st'] eqn:E; simpl in Hs; subst st'.
      * eexists. exact Hnew.
      * assert (d = length (heap st)) as ->.
        { unfold add_child in E. destruct (_ !! node) as [[l [s|p ch]]|]; congruence. }
        apply IH. exact Hnew.
Qed.

Lemma create_tree_inv (Q : FileSystem -> nat -> Prop) :
  (forall st node name c,
     Q st node -> find_child (heap st) node name = Some c -> Q st c) ->
  (forall st node name,
     Q st node -> is_file (heap st) node = false ->
     find_child (heap st) node name = None ->
     Q (with_heap (created (DirectoryNode node []) node name (heap st)) st)
       (length (heap st))) ->
  forall name st,
    Q st (anchor name st) -> exists node', Q (snd (_create_tree name st)) node'.
Proof. intros H1 H2 name st HQ. unfold _create_tree. apply create_tree_walk_inv; assumption. Qed.

Lemma mkdir_effect (name : string) (ci : bool) (st : FileSystem) :
  let st1 := if ci then snd (_create_tree (parent_path name) st) else st in
  snd (mkdir name ci st) = st \/
  snd (mkdir name ci st) = st1 \/
  exists p, _get_node name st = None /\ _get_node (parent_path name) st1 = Some p /\
    is_dir (heap st1) p = true /\
    mkdir name ci st
    = (inr (length (heap st1)),
       with_heap (created (DirectoryNode p []) p (requested name) (heap st1)) st1).
Proof.
  intros st1. unfold mkdir, bind, _fail_if_node_exists.
  destruct (_get_node name st) eqn:Hn; [left; reflexivity|]. cbn beta iota.
  assert (Hst1 : exists r, (if ci then _create_tree (parent_path name) else ret tt) st = (r, st1)).
  { subst st1. destruct ci; [|eexists; reflexivity].
    destruct (_create_tree (parent_path name) st); eexists; reflexivity. }
  destruct Hst1 as [r Hr]. rewrite Hr.
  destruct r as [e|[]]; [right; left; reflexivity|].
  unfold _get_directory_or_fail, _get_node_or_fail, bind.
  destruct (_get_node (parent_path name) st1) as [p|] eqn:Hp; [|right; left; reflexivity].
  cbn beta iota.
  destruct (is_dir (heap st1) p) eqn:Hd; [|right; left; reflexivity].
  right; right. exists p. repeat split; try assumption.
  unfold new_directory. rewrite new_node_eq.
  rewrite add_child_dir by (apply is_dir_h_alloc; assumption).
  reflexivity.
Qed.

(** [same_parent] touches nothing but the session's chain. *)
Lemma same_parent_effect (a b : string) (st : FileSystem) :
  exists c,
    snd (same_parent a b st) = with_chain c st /\
    (wf st -> Forall (fun kv => snd kv < length (heap st)) c).
Proof.
  unfold same_parent, bind.
  destruct (resolve_path_effect a st) as (c1 & Hs1 & Hv1 & _).
  destruct (_resolve_path a st) as [[e|r1] st1]; simpl in Hs1; subst st1.
  - exists c1. auto.
  - destruct (resolve_path_effect b (with_chain c1 st)) as (c2 & Hs2 & Hv2 & _).
    destruct (_resolve_path b (with_chain c1 st)) as [[e|r2] st2]; simpl in Hs2; subst st2;
      exists c2; (split; [reflexivity|]); intros Hwf; apply Hv2;
      apply wf_with_chain; auto.
Qed.

Lemma bind_inr {A B} (m : M A) (f : A -> M B) (st st' : FileSystem) (a : A) :
  m st = (inr a, st') -> bind m f st = f a st'.
Proof. unfold bind. intros ->. reflexivity. Qed.

Lemma bind_inl {A B} (m : M A) (f : A -> M B) (st st' : FileSystem) (e : Exn) :
  m st = (inl e, st') -> bind m f st = (inl e, st').
Proof. unfold bind. intros ->. reflexivity. Qed.

Lemma get_node_or_fail_cases (name : string) (st : FileSystem) :
  (exists e, _get_node_or_fail name st = (inl e, st)) \/
  exists n, _get_node name st = Some n /\ _get_node_or_fail name st = (inr n, st).
Proof.
  unfold _get_node_or_fail. destruct (_get_node name st) as [n|]; eauto.
Qed.

Lemma get_directory_or_fail_cases (name : string) (st : FileSystem) :
  (exists e, _get_directory_or_fail name st = (inl e, st)) \/
  exists p, _get_node name st = Some p /\ is_dir (heap st) p = true /\
    _get_directory_or_fail name st = (inr p, st).
Proof.
  unfold _get_directory_or_fail, bind, _get_node_or_fail.
  destruct (_get_node name st) as [p|]; [|eauto]. cbn beta iota.
  destruct (is_dir (heap st) p) eqn:Hd; eauto.
Qed.

Lemma ignore_missing_lookup (name : string) (st : FileSystem) :
  ignore_missing (_get_node_or_fail name) st = (inr tt, st).
Proof.
  unfold ignore_missing, _get_node_or_fail. destruct (_get_node name st); reflexivity.
Qed.

Lemma snd_bind_ret {A B} (m : M A) (b : B) (st : FileSystem) :
  snd (bind m (fun _ => ret b) st) = snd (m st).
Proof. unfold bind, ret. destruct (m st) as [[e|a] st']; reflexivity. Qed.

Lemma mv_effect (old_name new_name : string) (st : FileSystem) :
  exists c,
    (wf st -> Forall (fun kv => snd kv < length (heap st)) c) /\
    (snd (mv old_name new_name st) = with_chain c st \/
     exists n op np,
       mv_keeps old_name new_name st = false /\
       _get_node old_name st = Some n /\
       _get_node (parent_path old_name) st = Some op /\ is_dir (heap st) op = true /\
       _get_node (parent_path new_name) st = Some np /\ is_dir (heap st) np = true /\
       snd (mv old_name new_name st)
       = with_heap (h_del op (requested old_name)
                      (h_add np (requested new_name) n (heap st))) (with_chain c st)).
Proof.
  assert (Hid : forall r : Exn + nat, mv old_name new_name st = (r, st) ->
            exists c, (wf st -> Forall (fun kv => snd kv < length (heap st)) c) /\
              (snd (mv old_name new_name st) = with_chain c st \/
               exists n op np,
                 mv_keeps old_name new_name st = false /\
                 _get_node old_name st = Some n /\
                 _get_node (parent_path old_name) st = Some op /\
                 is_dir (heap st) op = true /\
                 _get_node (parent_path new_name) st = Some np /\
                 is_dir (heap st) np = true /\
                 snd (mv old_name new_name st)
                 = with_heap (h_del op (requested old_name)
                                (h_add np (requested new_name) n (heap st)))
                     (with_chain c st))).
  { intros r Hr. exists (_path_to_current st). split; [intros []; assumption|].
    left. rewrite Hr, with_chain_id. reflexivity. }
  destruct (get_node_or_fail_cases old_name st) as [[e H]|(n & Hn & H)].
  { eapply Hid. unfold mv. rewrite (bind_inl _ _ _ _ _ H). reflexivity. }
  destruct (get_directory_or_fail_cases (parent_path old_name) st)
    as [[e Ho]|(op & Hop & Hdo & Ho)].
  { eapply Hid. unfold mv. rewrite (bind_inr _ _ _ _ _ H).
    rewrite (bind_inr _ _ _ _ _ (ignore_missing_lookup new_name st)).
    rewrite (bind_inl _ _ _ _ _ Ho). reflexivity. }
  destruct (get_directory_or_fail_cases (parent_path new_name) st)
    as [[e Hnw]|(np & Hnp & Hdn & Hnw)].
  { eapply Hid. unfold mv. rewrite (bind_inr _ _ _ _ _ H).
    rewrite (bind_inr _ _ _ _ _ (ignore_missing_lookup new_name st)).
    rewrite (bind_inr _ _ _ _ _ Ho). rewrite (bind_inl _ _ _ _ _ Hnw). reflexivity. }
  clear Hid.
  destruct (same_parent_effect (parent_path new_name) (parent_path old_name) st)
    as (c & Hs & Hv).
  exists c. split; [assumption|].
  unfold mv. rewrite (bind_inr _ _ _ _ _ H).
  rewrite (bind_inr _ _ _ _ _ (ignore_missing_lookup new_name st)).
  rewrite (bind_inr _ _ _ _ _ Ho). rewrite (bind_inr _ _ _ _ _ Hnw).
  unfold mv_keeps.
  destruct (same_parent (parent_path new_name) (parent_path old_name) st)
    as [[e|same] st1] eqn:Esp; simpl in Hs; subst st1.
  { left. rewrite (bind_inl _ _ _ _ _ Esp). reflexivity. }
  rewrite (bind_inr _ _ _ _ _ Esp). simpl fst. cbn beta iota.
  destruct (same && String.eqb (requested new_name) (requested old_name)).
  { left. reflexivity. }
  right. exists n, op, np. repeat split; try assumption.
  rewrite (bind_inr _ _ _ _ _
             (add_child_dir np (requested new_name) n (with_chain c st) Hdn)).
  rewrite snd_bind_ret. rewrite delete_child_snd. reflexivity.
Qed.

(** ** No operation leaves a dangling reference *)

Lemma is_dir_lt (h : list INode) (n : nat) : is_dir h n = true -> n < length h.
Proof.
  unfold is_dir. destruct (h !! n) eqn:E; [|discriminate]. intros _.
  eapply lookup_lt_Some; eassumption.
Qed.

Lemma created_length o p name h : length (created o p name h) = S (length h).
Proof. unfold created. rewrite h_add_length, h_alloc_length. reflexivity. Qed.

Lemma closed_created (o : FileLike) (p : nat) (name : string) (h : list INode) :
  closed h -> closed_node (S (length h)) {| links := 1%Z; obj := o |} ->
  closed (created o p name h).
Proof.
  intros Hc Ho. unfold created. apply closed_add.
  - apply closed_alloc; assumption.
  - rewrite h_alloc_length. lia.
Qed.

Lemma wf_created (o : FileLike) (p : nat) (name : string) (st : FileSystem) :
  wf st -> closed_node (S (length (heap st))) {| links := 1%Z; obj := o |} ->
  wf (with_heap (created o p name (heap st)) st).
Proof.
  intros Hwf Ho. apply wf_with_heap; [assumption| |rewrite created_length; lia].
  apply closed_created; [apply Hwf|assumption].
Qed.

Lemma closed_new_dir (p n : nat) : p < n -> closed_node n {| links := 1%Z; obj := DirectoryNode p [] |}.
Proof. intros H. split; [assumption|constructor]. Qed.

Lemma create_tree_wf (name : string) (st : FileSystem) :
  wf st -> wf (snd (_create_tree name st)).
Proof.
  intros Hwf.
  destruct (create_tree_inv (fun st node => wf st /\ node < length (heap st))) with
    (name := name) (st := st) as [node' [H _]]; [| | |exact H].
  - intros s node nm c [Hw Hn] F. split; [assumption|].
    eapply find_child_valid; [apply Hw|eassumption].
  - intros s node nm [Hw Hn] _ F. split.
    + apply wf_created; [assumption|]. apply closed_new_dir. lia.
    + simpl. rewrite created_length. lia.
  - split; [assumption|]. unfold anchor.
    destruct (is_root_relative name); apply Hwf.
Qed.

Lemma step_wf (op : Op) (st : FileSystem) : wf st -> wf (snd (step op st)).
Proof.
  intros Hwf. destruct op as [name|name|name|target dest|name ci|old new|name stream
                              |name recursive|name|name contents];
    unfold step; rewrite snd_fmap_M.
  - apply cd_wf. assumption.
  - destruct (create_file_effect name st) as [[e H]|(p & _ & _ & Hd & H)]; rewrite H; simpl;
      [assumption|apply wf_created; [assumption|exact I]].
  - rewrite ls_effect. assumption.
  - destruct (ln_effect target dest st) as [H|(t & p & _ & [nd Ht] & _ & _ & H)]; rewrite H;
      [assumption|].
    apply wf_with_heap; [assumption| |rewrite h_add_length, h_links_length; lia].
    apply closed_add; [apply closed_links; apply Hwf|].
    rewrite h_links_length. eapply lookup_lt_Some; eassumption.
  - pose proof (mkdir_effect name ci st) as H. cbv zeta in H.
    assert (Hwf1 : wf (if ci then snd (_create_tree (parent_path name) st) else st))
      by (destruct ci; [apply create_tree_wf|]; assumption).
    destruct H as [H|[H|(p & _ & _ & Hd & H)]]; rewrite H; try assumption.
    simpl. apply wf_created; [assumption|]. apply closed_new_dir.
    apply is_dir_lt in Hd. lia.
  - destruct (mv_effect old new st) as (c & Hc & [H|(n & op & np & _ & Hn & _ & _ & _ & _ & H)]);
      rewrite H.
    + apply wf_with_chain; auto.
    + apply wf_with_heap; [apply wf_with_chain; auto| |simpl; rewrite h_del_length, h_add_length; lia].
      apply closed_del, closed_add; [apply Hwf|]. eapply get_node_valid; eassumption.
  - rewrite read_file_effect. assumption.
  - destruct (rm_effect name recursive st) as [H|(n & p & _ & _ & _ & _ & H)]; rewrite H;
      [assumption|].
    apply wf_with_heap; [assumption| |rewrite h_del_length, h_links_length; lia].
    apply closed_del, closed_links, Hwf.
  - destruct (touch_effect name st) as [H|(p & _ & _ & Hd & H)]; rewrite H; simpl;
      [assumption|apply wf_created; [assumption|exact I]].
  - destruct (write_file_effect name contents st) as [H|[(m & _ & H)|(p & _ & _ & Hd & H)]];
      rewrite H; [assumption| |].
    + apply wf_with_heap; [assumption|apply closed_write, Hwf|rewrite h_write_length; lia].
    + apply wf_with_heap; [assumption| |rewrite h_write_length, created_length; lia].
      apply closed_write, closed_created; [apply Hwf|exact I].
Qed.

Lemma init_fs_wf : wf init_fs.
Proof.
  constructor; simpl; try lia.
  - repeat constructor.
  - repeat constructor.
Qed.

Lemma run_wf (ops : list Op) (st : FileSystem) : wf st -> wf (run ops st).
Proof.
  revert st. induction ops as [|op ops IH]; intros st Hwf; simpl; [assumption|].
  apply IH, step_wf, Hwf.
Qed.

(** ** The reserved names [.] and [..] *)

Lemma get_node_step_reserved (h : list INode) (n : nat) (r : string) :
  reserved r = true -> get_node_step h (Some n) r <> None.
Proof.
  intros Hr. unfold get_node_step, is_dir, find_child.
  destruct (h !! n) as [[l [s|p ch]]|]; try discriminate.
  destruct (dict_get String.eqb r ch); [discriminate|].
  unfold meta_get. unfold reserved in Hr.
  destruct (String.eqb r "."); [discriminate|].
  destruct (String.eqb r ".."); [discriminate|discriminate].
Qed.

Lemma root_entry_dec (name : string) : {root_entry name} + {~ root_entry name}.
Proof. unfold root_entry. apply (List.list_eq_dec string_dec). Qed.

(** A name that does not resolve while its parent path does is not
    reserved: under any directory, and under a file, [.] and [..]
    resolve. *)
Lemma fresh_name_not_reserved (name : string) (st : FileSystem) (p : nat) :
  _get_node name st = None -> _get_node (parent_path name) st = Some p ->
  reserved (requested name) = false.
Proof.
  intros Hn Hp. destruct (reserved (requested name)) eqn:Hr; [exfalso|reflexivity].
  destruct (String.eqb name "") eqn:E.
  - unfold _get_node in Hn. rewrite E in Hn. discriminate.
  - apply String.eqb_neq in E. destruct (root_entry_dec name) as [Hre|Hre].
    + rewrite get_node_root_entry in Hn by assumption.
      exact (get_node_step_reserved _ _ _ Hr Hn).
    + rewrite get_node_parent in Hn by assumption. rewrite Hp in Hn.
      exact (get_node_step_reserved _ _ _ Hr Hn).
Qed.

Lemma no_reserved_alloc (o : FileLike) (h : list INode) :
  no_reserved_children h ->
  node_children {| links := 1%Z; obj := o |} = [] ->
  no_reserved_children (h_alloc o h).
Proof.
  intros Hh Ho. unfold no_reserved_children, h_alloc. apply Forall_app. split; [assumption|].
  constructor; [|constructor]. rewrite Ho. constructor.
Qed.

Lemma no_reserved_add (d : nat) (name : string) (c : nat) (h : list INode) :
  no_reserved_children h -> (is_dir h d = true -> reserved name = false) ->
  no_reserved_children (h_add d name c h).
Proof.
  intros Hh Hname. unfold h_add, is_dir in *.
  destruct (h !! d) as [[l [s|p ch]]|] eqn:E; try assumption.
  apply Forall_insert; [assumption|]. unfold node_children. simpl.
  apply dict_set_Forall; [|simpl; auto].
  exact (Forall_lookup_1 _ _ _ _ Hh E).
Qed.

Lemma no_reserved_del (d : nat) (name : string) (h : list INode) :
  no_reserved_children h -> no_reserved_children (h_del d name h).
Proof.
  intros Hh. unfold h_del.
  destruct (h !! d) as [[l [s|p ch]]|] eqn:E; try assumption.
  apply Forall_insert; [assumption|]. unfold node_children. simpl.
  apply dict_del_Forall. exact (Forall_lookup_1 _ _ _ _ Hh E).
Qed.

Lemma no_reserved_links (n : nat) (z : Z) (h : list INode) :
  no_reserved_children h -> no_reserved_children (h_links n z h).
Proof.
  intros Hh. unfold h_links. destruct (h !! n) as [nd|] eqn:E; [|assumption].
  apply Forall_insert; [assumption|]. exact (Forall_lookup_1 _ _ _ _ Hh E).
Qed.

Lemma no_reserved_write (n : nat) (s : string) (h : list INode) :
  no_reserved_children h -> no_reserved_children (h_write n s h).
Proof.
  intros Hh. unfold h_write. destruct (h !! n) as [[l [s0|p ch]]|] eqn:E; try assumption.
  apply Forall_insert; [assumption|]. constructor.
Qed.

Lemma is_dir_alloc_old (o : FileLike) (h : list INode) (n : nat) :
  n < length h -> is_dir (h_alloc o h) n = is_dir h n.
Proof. intros H. unfold is_dir, h_alloc. rewrite lookup_app_l by assumption. reflexivity. Qed.

Lemma no_reserved_created (o : FileLike) (p : nat) (name : string) (h : list INode) :
  no_reserved_children h ->
  node_children {| links := 1%Z; obj := o |} = [] ->
  p < length h -> (is_dir h p = true -> reserved name = false) ->
  no_reserved_children (created o p name h).
Proof.
  intros Hh Ho Hp Hname. unfold created. apply no_reserved_add.
  - apply no_reserved_alloc; assumption.
  - rewrite is_dir_alloc_old by assumption. assumption.
Qed.

Lemma find_child_None_not_reserved (h : list INode) (n : nat) (name : string) :
  find_child h n name = None -> is_dir h n = true -> reserved name = false.
Proof.
  unfold find_child, is_dir, reserved.
  destruct (h !! n) as [[l [s|p ch]]|]; try discriminate.
  destruct (dict_get String.eqb name ch); [discriminate|].
  unfold meta_get. destruct (String.eqb name "."); [discriminate|].
  destruct (String.eqb name ".."); [discriminate|reflexivity].
Qed.

Lemma create_tree_no_reserved (name : string) (st : FileSystem) :
  wf st -> no_reserved_children (heap st) ->
  no_reserved_children (heap (snd (_create_tree name st))).
Proof.
  intros Hwf HP.
  destruct (create_tree_inv
              (fun st node => wf st /\ node < length (heap st) /\
                              no_reserved_children (heap st))) with
    (name := name) (st := st) as [node' (_ & _ & H)]; [| | |exact H].
  - intros s node nm c (Hw & Hn & Hq) F. split; [assumption|]. split; [|assumption].
    eapply find_child_valid; [apply Hw|eassumption].
  - intros s node nm (Hw & Hn & Hq) _ F. split; [|split].
    + apply wf_created; [assumption|]. apply closed_new_dir. lia.
    + simpl. rewrite created_length. lia.
    + simpl. apply no_reserved_created; try assumption; [reflexivity|].
      apply find_child_None_not_reserved. assumption.
  - split; [assumption|]. split; [|assumption]. unfold anchor.
    destruct (is_root_relative name); apply Hwf.
Qed.

Lemma step_no_reserved (op : Op) (st : FileSystem) :
  plain_final op = true -> wf st -> no_reserved_children (heap st) ->
  no_reserved_children (heap (snd (step op st))).
Proof.
  intros Hop Hwf HP.
  destruct op as [name|name|name|target dest|name ci|old new|name stream
                 |name recursive|name|name contents];
    unfold step; rewrite snd_fmap_M.
  - rewrite (proj1 (cd_heap name st)). assumption.
  - destruct (create_file_effect name st) as [[e H]|(p & Hn & Hp & Hd & H)]; rewrite H; simpl;
      [assumption|].
    apply no_reserved_created; try assumption; [reflexivity|apply is_dir_lt; assumption|].
    intros _. eapply fresh_name_not_reserved; eassumption.
  - rewrite ls_effect. assumption.
  - destruct (ln_effect target dest st) as [H|(t & p & _ & _ & _ & _ & H)]; rewrite H;
      [assumption|]. simpl.
    apply no_reserved_add; [apply no_reserved_links; assumption|].
    intros _. simpl in Hop. apply negb_true_iff in Hop. assumption.
  - pose proof (mkdir_effect name ci st) as H. cbv zeta in H.
    assert (Hwf1 : wf (if ci then snd (_create_tree (parent_path name) st) else st))
      by (destruct ci; [apply create_tree_wf|]; assumption).
    assert (HP1 : no_reserved_children
                    (heap (if ci then snd (_create_tree (parent_path name) st) else st)))
      by (destruct ci; [apply create_tree_no_reserved|]; assumption).
    destruct H as [H|[H|(p & Hn & Hp & Hd & H)]]; rewrite H; try assumption.
    simpl. apply no_reserved_created; try assumption; [reflexivity|apply is_dir_lt; assumption|].
    intros _. destruct ci.
    + simpl in Hop. apply negb_true_iff in Hop. assumption.
    + eapply fresh_name_not_reserved; eassumption.
  - destruct (mv_effect old new st) as (c & Hc & [H|(n & op & np & _ & _ & _ & _ & _ & _ & H)]);
      rewrite H; [assumption|]. simpl.
    apply no_reserved_del, no_reserved_add; [assumption|].
    intros _. simpl in Hop. apply negb_true_iff in Hop. assumption.
  - rewrite read_file_effect. assumption.
  - destruct (rm_effect name recursive st) as [H|(n & p & _ & _ & _ & _ & H)]; rewrite H;
      [assumption|]. simpl. apply no_reserved_del, no_reserved_links. assumption.
  - destruct (touch_effect name st) as [H|(p & Hn & Hp & Hd & H)]; rewrite H; simpl;
      [assumption|].
    apply no_reserved_created; try assumption; [reflexivity|apply is_dir_lt; assumption|].
    intros _. eapply fresh_name_not_reserved; eassumption.
  - destruct (write_file_effect name contents st) as [H|[(m & _ & H)|(p & Hn & Hp & Hd & H)]];
      rewrite H; [assumption| |]; simpl.
    + apply no_reserved_write. assumption.
    + apply no_reserved_write, no_reserved_created; try assumption;
        [reflexivity|apply is_dir_lt; assumption|].
      intros _. eapply fresh_name_not_reserved; eassumption.
Qed.

Lemma run_no_reserved (ops : list Op) (st : FileSystem) :
  forallb plain_final ops = true -> wf st -> no_reserved_children (heap st) ->
  no_reserved_children (heap (run ops st)).
Proof.
  revert st. induction ops as [|op ops IH]; intros st Hops Hwf HP; simpl; [assumption|].
  simpl in Hops. apply andb_true_iff in Hops as [Hop Hops].
  apply IH; [assumption|apply step_wf; assumption|apply step_no_reserved; assumption].
Qed.

Lemma children_node (h : list INode) (d : nat) (k : string) (c : nat) :
  In (k, c) (children h d) -> exists nd, h !! d = Some nd /\ In (k, c) (node_children nd).
Proof.
  unfold children, node_children.
  destruct (h !! d) as [[l [s|p ch]]|]; simpl; try tauto. eauto.
Qed.

Lemma reserved_false (k : string) : reserved k = false <-> k <> "." /\ k <> "..".
Proof.
  unfold reserved. rewrite orb_false_iff, !String.eqb_neq. reflexivity.
Qed.

(** C6, as the code has it.  [create_file], [touch], [write_file] and
    [mkdir] without [create_intermediates] never store an entry named [.]
    or [..]: such a path resolves whenever its parent does, so the first
    two raise or return before storing.  [ln], [mv], and [mkdir] after
    [_create_tree] has made the parent, store the final component of their
    path unchecked.  So after every sequence of calls on a fresh system in
    which those three are not given a path that ends in [.] or [..], no
    child table holds a key [.] or [..].  And in any store, [find_child]
    returns the real child of a name that has one: the reserved table is
    consulted only for names without a real child. *)
Theorem no_reserved_child_without_unchecked_names (ops : list Op) :
  forallb plain_final ops = true ->
  (forall d k c, In (k, c) (children (heap (run ops init_fs)) d) -> k <> "." /\ k <> "..") /\
  (forall (h : list INode) d name c,
     dict_get String.eqb name (children h d) = Some c -> find_child h d name = Some c).
Proof.
  intros Hops. split.
  - intros d k c Hin. apply reserved_false.
    apply children_node in Hin as (nd & Hnd & Hin).
    pose proof (run_no_reserved ops init_fs Hops init_fs_wf) as HP.
    assert (H0 : no_reserved_children (heap init_fs)) by (repeat constructor).
    specialize (HP H0). unfold no_reserved_children in HP.
    pose proof (Forall_lookup_1 _ _ _ _ HP Hnd) as Hch.
    rewrite List.Forall_forall in Hch. exact (Hch _ Hin).
  - intros h d name c. unfold children, find_child.
    destruct (h !! d) as [[l [s|p ch]]|]; simpl; try discriminate.
    intros ->. reflexivity.
Qed.

(** The theorem on a session that creates, links, moves and removes. *)
Lemma no_reserved_child_witness :
  forallb plain_final
    [Mkdir "a/b" true; Touch "a/f"; Ln "a/f" "g"; Mv "g" "a/b/h"; Rm "a/f" false] = true /\
  forall d k c,
    In (k, c)
       (children
          (heap (run [Mkdir "a/b" true; Touch "a/f"; Ln "a/f" "g"; Mv "g" "a/b/h";
                      Rm "a/f" false] init_fs)) d) ->
    k <> "." /\ k <> "..".
Proof.
  split; [reflexivity|].
  apply (no_reserved_child_without_unchecked_names
           [Mkdir "a/b" true; Touch "a/f"; Ln "a/f" "g"; Mv "g" "a/b/h"; Rm "a/f" false]).
  reflexivity.
Defined.

(** C6, as stated, fails: [ln("f", ".")] succeeds and stores a real child
    named [.] in the root, which [find_child] then returns in place of the
    directory itself. *)
Lemma ln_stores_a_child_named_dot :
  all_return [Touch "f"; Ln "f" "."] init_fs = true /\
  children (heap (run [Touch "f"; Ln "f" "."] init_fs)) 0 = [("f", 1); (".", 1)] /\
  find_child (heap (run [Touch "f"; Ln "f" "."] init_fs)) 0 "." = Some 1.
Proof. repeat split. Qed.

(** So does [mkdir("a/.", create_intermediates=True)]: [a] is made first,
    then a directory named [.] inside it. *)
Lemma mkdir_stores_a_child_named_dot :
  all_return [Mkdir "a/." true] init_fs = true /\
  children (heap (run [Mkdir "a/." true] init_fs)) 1 = [(".", 2)].
Proof. repeat split. Qed.

(** ** Link counts *)









(** The child table of a directory in terms of the node. *)
Lemma children_lookup (h : list INode) (d : nat) :
  children h d = match h !! d with Some nd => node_children nd | None => [] end.
Proof. unfold children, node_children. destruct (h !! d) as [[l [s|p ch]]|]; reflexivity. Qed.

(** *** The updates, on [links] and on the counts *)











(** child tables after each update *)
Lemma children_h_alloc (o : FileLike) (h : list INode) (d : nat) :
  d < length h -> children (h_alloc o h) d = children h d.
Proof. intros H. unfold children, h_alloc. rewrite lookup_app_l by assumption. reflexivity. Qed.

Lemma children_h_links (m : nat) (z : Z) (h : list INode) (d : nat) :
  children (h_links m z h) d = children h d.
Proof.
  unfold h_links. destruct (h !! m) as [nd|] eqn:E; [|reflexivity].
  unfold children. destruct (decide (m = d)) as [->|Hne].
  - rewrite list_lookup_insert_eq by (eapply lookup_lt_Some; eassumption). rewrite E.
    destruct nd as [l [s|p ch]]; reflexivity.
  - rewrite list_lookup_insert_ne by assumption. reflexivity.
Qed.

Lemma is_dir_h_links (m : nat) (z : Z) (h : list INode) (d : nat) :
  is_dir (h_links m z h) d = is_dir h d.
Proof.
  unfold h_links. destruct (h !! m) as [nd|] eqn:E; [|reflexivity].
  unfold is_dir. destruct (decide (m = d)) as [->|Hne].
  - rewrite list_lookup_insert_eq by (eapply lookup_lt_Some; eassumption). rewrite E.
    destruct nd as [l [s|p ch]]; reflexivity.
  - rewrite list_lookup_insert_ne by assumption. reflexivity.
Qed.

Lemma children_h_add (d : nat) (k : string) (c : nat) (h : list INode) (d' : nat) :
  children (h_add d k c h) d'
  = if Nat.eqb d d' then
      (if is_dir h d then dict_set String.eqb k c (children h d) else children h d)
    else children h d'.
Proof.
  unfold h_add, is_dir, children.
  destruct (Nat.eqb_spec d d') as [<-|Hne].
  - destruct (h !! d) as [[l [s|p ch]]|] eqn:E; rewrite ?E; try reflexivity.
    rewrite list_lookup_insert_eq by (eapply lookup_lt_Some; eassumption). reflexivity.
  - destruct (h !! d) as [[l [s|p ch]]|] eqn:E; try reflexivity.
    rewrite list_lookup_insert_ne by assumption. reflexivity.
Qed.

(** ** Link counts over a session *)








Lemma not_file_is_dir (h : list INode) (n : nat) :
  n < length h -> is_file h n = false -> is_dir h n = true.
Proof.
  intros Hn. unfold is_file, is_dir.
  destruct (h !! n) as [[l [s|p ch]]|] eqn:E; try congruence.
  apply lookup_ge_None in E. lia.
Qed.

Lemma find_child_None_get (h : list INode) (n : nat) (name : string) :
  find_child h n name = None -> dict_get String.eqb name (children h n) = None.
Proof.
  unfold find_child, children. destruct (h !! n) as [[l [s|p ch]]|]; try reflexivity.
  destruct (dict_get String.eqb name ch); [discriminate|reflexivity].
Qed.











(** Outside tidy sequences the count can drift: [mv] onto an existing name
    drops the entry of the node that was there and leaves its [links]. *)
Lemma mv_over_an_entry_keeps_its_links :
  let ops := [Touch "a"; Touch "b"; Ln "b" "c"; Mv "a" "b"] in
  all_return ops init_fs = true /\
  tidy_run ops init_fs = false /\
  (links <$> heap (run ops init_fs) !! 2) = Some 2%Z /\
  refcount (heap (run ops init_fs)) 2 = 1.
Proof. repeat split. Qed.

(** ** [ln] on a directory *)



(** A directory linked into itself: after [mkdir("a")] and
    [ln("a", "a/self")] the table of [a] holds [a], and a path can go
    round the cycle any number of times. *)
Lemma ln_directory_cycle :
  let st := run [Mkdir "a" false; Ln "a" "a/self"] init_fs in
  all_return [Mkdir "a" false; Ln "a" "a/self"] init_fs = true /\
  children (heap st) 1 = [("self", 1)] /\
  (links <$> heap st !! 1) = Some 2%Z /\
  _get_node "a/self/self/self" st = Some 1.
Proof. repeat split. Qed.

(** ** The session fields *)

Lemma create_tree_session (name : string) (st : FileSystem) :
  same_session st (snd (_create_tree name st)).
Proof.
  destruct (create_tree_inv (fun s _ => same_session st s)) with
    (name := name) (st := st) as [_ H]; [| | |exact H].
  - intros s node nm c H _. exact H.
  - intros s node nm H _ _. exact H.
  - repeat split.
Qed.

(** Apart from [cd] and [mv], no operation changes the session: neither
    [_current] nor the list in [_path_to_current]. *)
Lemma session_unchanged (op : Op) (st : FileSystem) :
  match op with Cd _ | Mv _ _ => False | _ => True end ->
  same_session st (snd (step op st)) /\ cwd (snd (step op st)) = cwd st.
Proof.
  intros Hop.
  assert (Hcwd : forall st', same_session st st' -> same_session st st' /\ cwd st' = cwd st).
  { intros st' H. split; [assumption|]. unfold cwd. destruct H as (_ & -> & _). reflexivity. }
  apply Hcwd.
  destruct op as [name|name|name|target dest|name ci|old new|name stream
                 |name recursive|name|name contents];
    try contradiction; unfold step; rewrite snd_fmap_M.
  - destruct (create_file_effect name st) as [[e H]|(p & _ & _ & _ & H)]; rewrite H;
      repeat split.
  - rewrite ls_effect. repeat split.
  - destruct (ln_effect target dest st) as [H|(t & p & _ & _ & _ & _ & H)]; rewrite H;
      repeat split.
  - pose proof (mkdir_effect name ci st) as H. cbv zeta in H.
    assert (H1 : same_session st (if ci then snd (_create_tree (parent_path name) st) else st))
      by (destruct ci; [apply create_tree_session|repeat split]).
    destruct H as [H|[H|(p & _ & _ & _ & H)]]; rewrite H; [repeat split|assumption|].
    exact H1.
  - rewrite read_file_effect. repeat split.
  - destruct (rm_effect name recursive st) as [H|(n & p & _ & _ & _ & _ & H)]; rewrite H;
      repeat split.
  - destruct (touch_effect name st) as [H|(p & _ & _ & _ & H)]; rewrite H; repeat split.
  - destruct (write_file_effect name contents st) as [H|[(m & _ & H)|(p & _ & _ & _ & H)]];
      rewrite H; repeat split.
Qed.

(** ** Evaluations on concrete sessions *)

(** C1.  [mv] is not [cd], and here it succeeds, yet the session's chain is
    not what it was: with [a/f] present and the session at the root,
    [mv("a/f", "a/g")] leaves [_path_to_current] as [/a/a] while
    [_current] is still the root.  [_resolve_path] walked the session's own
    list, twice. *)
Theorem mv_rewrites_the_session_chain :
  cwd dir_with_file = "/" /\
  exists st',
    mv "a/f" "a/g" dir_with_file = (inr 2, st') /\
    _path_to_current st' = [("", 0); ("a", 1); ("a", 1)] /\
    cwd st' = "/a/a" /\
    _current st' = _current dir_with_file.
Proof.
  split; [reflexivity|].
  eexists; split; [vm_compute; reflexivity|].
  repeat split.
Qed.

(** C3.  [rm(".", recursive=True)] on a fresh system raises ([KeyError],
    from [dict.pop]) after it has already taken one off the root's link
    count: the error leaves [links] at 0 where it was 1. *)
Theorem rm_raises_after_decrementing_links :
  (links <$> heap init_fs !! 0) = Some 1%Z /\
  exists st',
    rm "." true init_fs = (inl (KeyError "."), st') /\
    (links <$> heap st' !! 0) = Some 0%Z.
Proof.
  split; [reflexivity|].
  eexists; split; [vm_compute; reflexivity|reflexivity].
Qed.

(** An error of the package's own kind can leave the store changed too:
    with a file [f] in the root, [mkdir("a/../f/x", create_intermediates=True)]
    raises [NotADirectory] after [_create_tree] has made the directory [a]. *)
Lemma mkdir_raises_after_creating :
  let st := run [Touch "f"] init_fs in
  children (heap st) 0 = [("f", 1)] /\
  exists st',
    mkdir "a/../f/x" true st = (inl (NotADirectory "a/../f"), st') /\
    children (heap st') 0 = [("f", 1); ("a", 2)].
Proof.
  split; [reflexivity|]. eexists. split; [vm_compute; reflexivity|reflexivity].
Qed.

(** C5.  With a file [f] and a directory [a] in the root, [mv("f", "a/f")]
    names two different parent directories, the root and [a]; it returns
    the node of [f] and moves nothing: [f] is still an entry of the root
    and [a] is still empty. *)
Theorem mv_into_subdirectory_moves_nothing :
  _get_node (parent_path "f") file_beside_dir = Some 0 /\
  _get_node (parent_path "a/f") file_beside_dir = Some 2 /\
  exists st',
    mv "f" "a/f" file_beside_dir = (inr 1, st') /\
    heap st' = heap file_beside_dir /\
    children (heap st') 0 = [("f", 1); ("a", 2)] /\
    children (heap st') 2 = [].
Proof.
  do 2 (split; [reflexivity|]).
  eexists; split; [vm_compute; reflexivity|].
  repeat split.
Qed.

(** A loop of [find] that ends within [n] rounds gives the same result
    under every larger bound. *)
Lemma search_loop_mono (h : store) (n m : nat) (s r : search) :
  search_loop n h s = Some r -> n <= m -> search_loop m h s = Some r.
Proof.
  revert m s. induction n as [|n IH]; intros m s H Hle.
  - destruct m; simpl in *; destruct (list_pop (nodes s)) as [[? ?]|]; congruence.
  - destruct m as [|m]; [lia|]. simpl in *.
    destruct (list_pop (nodes s)) as [[node rest]|]; [|assumption].
    apply IH; [assumption|lia].
Qed.

Lemma climb_mono adj (n m : nat) (parent : string * ino) (path r : list string) :
  climb n adj parent path = Some r -> n <= m -> climb m adj parent path = Some r.
Proof.
  revert m parent path. induction n as [|n IH]; intros m parent path H Hle.
  - destruct m; simpl in *; destruct (dict_get pair_eqb parent adj); congruence.
  - destruct m as [|m]; [lia|]. simpl in *.
    destruct (dict_get pair_eqb parent adj); [|assumption].
    apply IH; [assumption|lia].
Qed.

Lemma coalesce_all_mono adj rel (n m : nat) (ms : list (string * ino)) (r : list string) :
  coalesce_all n adj rel ms = Some r -> n <= m -> coalesce_all m adj rel ms = Some r.
Proof.
  revert r. induction ms as [|x ms IH]; intros r H Hle; [assumption|].
  simpl in *. unfold coalesce in *.
  destruct (dict_get pair_eqb x adj) as [parent|]; [|discriminate].
  destruct (climb n adj parent [x.1]) as [path|] eqn:Hc; [|discriminate].
  rewrite (climb_mono _ _ _ _ _ _ Hc Hle).
  destruct (coalesce_all n adj rel ms) as [ps|]; [|discriminate].
  rewrite (IH ps eq_refl Hle). assumption.
Qed.

Lemma find_mono (n m : nat) name rel st r :
  find n name rel st = Some r -> n <= m -> find m name rel st = Some r.
Proof.
  unfold find. intros H Hle.
  destruct (if String.eqb (arg rel) "" then _ else _) as [start|]; [|assumption].
  destruct (search_loop n _ _) as [s|] eqn:Hs; [|discriminate].
  rewrite (search_loop_mono _ _ _ _ _ Hs Hle).
  destruct (coalesce_all n _ _ _) as [ps|] eqn:Hc; [|discriminate].
  rewrite (coalesce_all_mono _ _ _ _ _ _ Hc Hle). assumption.
Qed.

(** C7.  After the build of [test_find], every call returned, the session is
    at the root, and [find("e")] returns [["a/b/e"; "a/b/c/d/e"]] in that
    order: its loops end within seven rounds, and every larger bound gives
    the same list. *)
Theorem find_example_order (k : nat) :
  all_return find_example_ops init_fs = true /\
  cwd find_example = "/" /\
  find (7 + k) "e" None find_example = Some (inr ["a/b/e"; "a/b/c/d/e"]).
Proof.
  split; [reflexivity|].
  split; [reflexivity|].
  apply (find_mono 7); [reflexivity|lia].
Qed.

(** C8.  From inside [/a], [write_file("/x", "hi")] succeeds, and the
    [read_file("/x")] that follows raises [NoSuchFileOrDirectory]: the
    file was stored in the current directory, not in the root. *)
Theorem write_then_read_absolute_name_fails :
  exists n st',
    write_file "/x" "hi" inside_a = (inr n, st') /\
    read_file "/x" false st' = (inl (NoSuchFileOrDirectory "/x"), st') /\
    read_file "/x" true st' = (inl (NoSuchFileOrDirectory "/x"), st') /\
    children (heap st') (_current st') = [("x", n)].
Proof.
  do 2 eexists; split; [vm_compute; reflexivity|].
  repeat split.
Qed.

(** C9.  On a fresh system [mkdir("x", create_intermediates=True)] stores
    two entries in the root, a directory named by the empty string and
    [x]; [ls()] lists both. *)
Theorem mkdir_intermediates_single_name :
  exists n st',
    mkdir "x" true init_fs = (inr n, st') /\
    ls None st' = (inr [""; "x"], st').
Proof.
  do 2 eexists; split; [vm_compute; reflexivity|reflexivity].
Qed.

(** * Further properties of the operations *)

(** ** Paths *)

Lemma split_single_no_sep (name x : string) : split name = [x] -> no_sep name.
Proof.
  intros H. pose proof (join_split name) as Hj. rewrite H in Hj.
  pose proof (split_no_sep name) as Hn. rewrite H in Hn.
  unfold join in Hj. simpl in Hj. subst x. inversion Hn; assumption.
Qed.

(** X1.  The split of a path into parent path and final component loses
    nothing: a name without a separator has the empty parent path and is
    its own final component; any other name is its parent path, a
    separator, and its final component. *)
Theorem path_is_parent_and_final (name : string) :
  (no_sep name -> parent_path name = "" /\ requested name = name) /\
  (~ no_sep name -> join2 (parent_path name) (requested name) = name).
Proof.
  unfold parent_path, requested. split.
  - intros H. rewrite (split_one name H). split; reflexivity.
  - intros H. pose proof (split_init_final name) as Hs.
    unfold init, final in *.
    remember (List.last (split name) "") as r eqn:Er.
    remember (removelast (split name)) as P eqn:EP. clear Er EP.
    destruct P as [|x P].
    + exfalso. apply H. eapply split_single_no_sep. exact Hs.
    + rewrite <- (join_split name). rewrite Hs.
      rewrite join_app by discriminate. reflexivity.
Qed.

Lemma path_is_parent_and_final_witness :
  ~ no_sep "/one/two/file.txt" /\
  join2 (parent_path "/one/two/file.txt") (requested "/one/two/file.txt")
  = "/one/two/file.txt".
Proof.
  assert (H : ~ no_sep "/one/two/file.txt") by (simpl; intros [H _]; discriminate).
  split; [exact H|].
  exact (proj2 (path_is_parent_and_final "/one/two/file.txt") H).
Defined.

(** X2.  Resolving a path is resolving its parent path and then looking
    up the final component there, for every path but an absolute one of a
    single component.  Such a path [/r] is looked up in the root, while its
    parent path, the empty string, resolves to the current directory. *)
Theorem lookup_through_the_parent (name : string) (st : FileSystem) :
  name <> "" ->
  (~ root_entry name ->
   _get_node name st
   = get_node_step (heap st) (_get_node (parent_path name) st) (requested name)) /\
  (root_entry name ->
   name = String "/" (requested name) /\
   _get_node name st = get_node_step (heap st) (Some (_root st)) (requested name) /\
   _get_node (parent_path name) st = Some (_current st)).
Proof.
  intros Hne. split.
  - intros H. apply get_node_parent; assumption.
  - intros H. split; [|split].
    + unfold root_entry, requested in *. pose proof (split_init_final name) as Hs.
      rewrite H in Hs. rewrite <- (join_split name) at 1. rewrite Hs. reflexivity.
    + apply get_node_root_entry. assumption.
    + unfold parent_path. unfold root_entry in H. rewrite H. reflexivity.
Qed.

Lemma lookup_through_the_parent_witness :
  "/x" <> "" /\ root_entry "/x" /\
  _get_node "/x" inside_a = get_node_step (heap inside_a) (Some 0) "x" /\
  _get_node (parent_path "/x") inside_a = Some 1.
Proof.
  assert (H1 : "/x" <> "") by discriminate.
  assert (H2 : root_entry "/x") by reflexivity.
  destruct (proj2 (lookup_through_the_parent "/x" inside_a H1) H2) as (_ & H3 & H4).
  repeat split; assumption.
Defined.

(** ** Paths with a missing component *)

Lemma fold_get_node_None (h : list INode) (parts : list string) :
  fold_left (get_node_step h) parts None = None.
Proof. induction parts; simpl; auto. Qed.

Lemma get_node_missing (st : FileSystem) (p q : string) :
  p <> "" -> _get_node p st = None -> _get_node (join2 p q) st = None.
Proof.
  intros Hp Hn. rewrite get_node_join2 by assumption. rewrite Hn. apply fold_get_node_None.
Qed.

Lemma parent_missing (st : FileSystem) (p q : string) :
  p <> "" -> _get_node p st = None -> _get_node (parent_path (join2 p q)) st = None.
Proof.
  intros Hp Hn. destruct (parent_path_join2 p q) as [->|[q' ->]]; [assumption|].
  apply get_node_missing; assumption.
Qed.

(** X3.  When a part [p] of a path does not resolve, no path [p/q] below
    it resolves, and every operation raises [NoSuchFileOrDirectory] and
    leaves the state alone: the ones that need the path to exist name the
    path, the ones that create its final component name the parent path. *)
Theorem missing_component_raises (st : FileSystem) (p q : string) :
  p <> "" -> _get_node p st = None ->
  let name := join2 p q in
  _get_node name st = None /\
  (forall s, read_file name s st = (inl (NoSuchFileOrDirectory name), st)) /\
  cd (Some name) st = (inl (NoSuchFileOrDirectory name), st) /\
  ls (Some name) st = (inl (NoSuchFileOrDirectory name), st) /\
  (forall r, rm name r st = (inl (NoSuchFileOrDirectory name), st)) /\
  (forall new, mv name new st = (inl (NoSuchFileOrDirectory name), st)) /\
  (forall dest, ln name dest st = (inl (NoSuchFileOrDirectory name), st)) /\
  create_file name st = (inl (NoSuchFileOrDirectory (parent_path name)), st) /\
  touch name st = (inl (NoSuchFileOrDirectory (parent_path name)), st) /\
  mkdir name false st = (inl (NoSuchFileOrDirectory (parent_path name)), st) /\
  (forall c, write_file name c st = (inl (NoSuchFileOrDirectory (parent_path name)), st)).
Proof.
  intros Hp Hn name.
  assert (Hname : _get_node name st = None) by (apply get_node_missing; assumption).
  assert (Hpar : _get_node (parent_path name) st = None) by (apply parent_missing; assumption).
  assert (Hne : String.eqb name "" = false) by apply join2_nonempty.
  split; [assumption|].
  split; [intros s; unfold read_file, bind, _get_node_or_fail; rewrite Hname; reflexivity|].
  split; [unfold cd, arg, default, bind, _get_node_or_fail; cbn [id];
          rewrite Hne, Hname; reflexivity|].
  split; [unfold ls, arg, default, bind, _get_directory_or_fail, _get_node_or_fail, bind;
          cbn [id]; rewrite Hne, Hname; reflexivity|].
  split; [intros r; unfold rm, bind, _get_node_or_fail; rewrite Hname; reflexivity|].
  split; [intros new; unfold mv, bind, _get_node_or_fail; rewrite Hname; reflexivity|].
  split; [intros dest; unfold ln, bind, _get_node_or_fail; rewrite Hname; reflexivity|].
  assert (Hcf : create_file name st = (inl (NoSuchFileOrDirectory (parent_path name)), st)).
  { unfold create_file, bind, _fail_if_node_exists, _get_directory_or_fail,
      _get_node_or_fail, bind. rewrite Hname. cbn beta iota. rewrite Hpar. reflexivity. }
  split; [assumption|].
  split; [unfold touch, bind, _get_directory_or_fail, _get_node_or_fail, bind;
          rewrite Hname, Hpar; reflexivity|].
  split; [unfold mkdir, bind, _fail_if_node_exists, _get_directory_or_fail,
            _get_node_or_fail, bind, ret; rewrite Hname; cbn beta iota;
          rewrite Hpar; reflexivity|].
  intros c. unfold write_file. rewrite Hname. unfold bind. rewrite Hcf. reflexivity.
Qed.

Lemma missing_component_raises_witness :
  "one" <> "" /\ _get_node "one" init_fs = None /\
  mkdir (join2 "one" "two") false init_fs = (inl (NoSuchFileOrDirectory "one"), init_fs).
Proof.
  assert (H1 : "one" <> "") by discriminate.
  pose proof (missing_component_raises init_fs "one" "two" H1 eq_refl) as H.
  split; [exact H1|]. split; [reflexivity|]. apply H.
Defined.

(** ** Calls that raise *)

Lemma created_lookup_new (o : FileLike) (p : nat) (name : string) (h : list INode) :
  p < length h -> created o p name h !! length h = Some {| links := 1%Z; obj := o |}.
Proof.
  intros Hp. unfold created, h_add, h_alloc.
  assert (Hnew : (h ++ [{| links := 1%Z; obj := o |}]) !! length h
                 = Some {| links := 1%Z; obj := o |}).
  { rewrite lookup_app_r by lia. rewrite Nat.sub_diag. reflexivity. }
  destruct ((h ++ _) !! p) as [[l [s|pp ch]]|]; try assumption.
  rewrite list_lookup_insert_ne by lia. assumption.
Qed.

Lemma write_contents_raises (n : nat) (s : string) (st : FileSystem) (e : Exn)
    (st' : FileSystem) :
  write_contents n s st = (inl e, st') -> st' = st.
Proof.
  unfold write_contents. destruct (heap st !! n) as [[l [s0|p ch]]|]; congruence.
Qed.

Lemma is_dir_h_links_true (m : nat) (z : Z) (h : list INode) (d : nat) :
  is_dir h d = true -> is_dir (h_links m z h) d = true.
Proof. rewrite is_dir_h_links. auto. Qed.

(** X4.  These calls are all or nothing: when [create_file], [touch],
    [write_file], [ln], [ls], [read_file] or [mkdir] without
    [create_intermediates] raises, the store and the session are exactly
    what they were before the call. *)
Theorem raising_calls_change_nothing :
  (forall name, atomic (create_file name)) /\
  (forall name, atomic (touch name)) /\
  (forall name contents, atomic (write_file name contents)) /\
  (forall target dest, atomic (ln target dest)) /\
  (forall name, atomic (ls name)) /\
  (forall name stream, atomic (read_file name stream)) /\
  (forall name, atomic (mkdir name false)).
Proof.
  assert (Hcf : forall name, atomic (create_file name)).
  { intros name st e st' H.
    destruct (create_file_effect name st) as [[e0 H0]|(p & _ & _ & _ & H0)]; congruence. }
  split; [exact Hcf|].
  split.
  { intros name st e st' H.
    destruct (touch_effect name st) as [H0|(p & _ & _ & _ & H0)]; [|congruence].
    rewrite H in H0. exact H0. }
  split.
  { intros name contents st e st'. unfold write_file.
    destruct (_get_node name st) as [m|] eqn:Hn.
    - destruct (is_dir (heap st) m); [congruence|]. apply write_contents_raises.
    - unfold bind.
      destruct (create_file_effect name st) as [[e0 H0]|(p & _ & _ & Hd & H0)]; rewrite H0;
        [congruence|].
      unfold write_contents. cbn [heap with_heap].
      rewrite created_lookup_new by (apply is_dir_lt; assumption). discriminate. }
  split.
  { intros target dest st e st'.
    unfold ln, bind, _get_directory_or_fail, _get_node_or_fail, bind.
    destruct (_get_node target st) as [t|]; [|congruence]. cbn beta iota.
    destruct (_get_node (parent_path dest) st) as [p|]; [|congruence]. cbn beta iota.
    destruct (is_dir (heap st) p) eqn:Hd; [|congruence].
    destruct (add_links t 1 st) as [[e0|[]] st1] eqn:E.
    - apply add_links_ok in E. congruence.
    - pose proof (add_links_snd t 1 st) as Hs. rewrite E in Hs. simpl in Hs. subst st1.
      rewrite add_child_dir by (apply is_dir_h_links_true; assumption). discriminate. }
  split.
  { intros name st e st' H. pose proof (ls_effect name st) as H0. rewrite H in H0. exact H0. }
  split.
  { intros name stream st e st' H. pose proof (read_file_effect name stream st) as H0.
    rewrite H in H0. exact H0. }
  intros name st e st' H.
  destruct (mkdir_effect name false st) as [H0|[H0|(p & _ & _ & _ & H0)]];
    cbv zeta in H0; [| |congruence]; rewrite H in H0; exact H0.
Qed.

Lemma raising_calls_change_nothing_witness :
  create_file "f" one_file = (inl (FileExists "f"), one_file) /\
  snd (create_file "f" one_file) = one_file.
Proof.
  split; [reflexivity|].
  exact (proj1 raising_calls_change_nothing "f" one_file (FileExists "f")
           (snd (create_file "f" one_file)) eq_refl).
Defined.

(** ** The session stands on directories *)

Lemma dirs_kept_refl (h : list INode) : dirs_kept h h.
Proof. intros n H. exact H. Qed.

Lemma dirs_kept_trans (h1 h2 h3 : list INode) :
  dirs_kept h1 h2 -> dirs_kept h2 h3 -> dirs_kept h1 h3.
Proof. intros H1 H2 n H. auto. Qed.

Lemma dirs_kept_alloc (o : FileLike) (h : list INode) : dirs_kept h (h_alloc o h).
Proof. intros n H. apply is_dir_h_alloc. assumption. Qed.

Lemma dirs_kept_insert (h : list INode) (d : nat) (l l' : Z) (p p' : nat)
    (ch ch' : list (string * nat)) :
  h !! d = Some {| links := l; obj := DirectoryNode p ch |} ->
  dirs_kept h (<[d := {| links := l'; obj := DirectoryNode p' ch' |}]> h).
Proof.
  intros Hd n Hn. unfold is_dir in *. destruct (decide (d = n)) as [->|Hne].
  - rewrite list_lookup_insert_eq by (eapply lookup_lt_Some; eassumption). reflexivity.
  - rewrite list_lookup_insert_ne by assumption. assumption.
Qed.

Lemma dirs_kept_add (d : nat) (k : string) (c : nat) (h : list INode) :
  dirs_kept h (h_add d k c h).
Proof.
  unfold h_add. destruct (h !! d) as [[l [s|p ch]]|] eqn:E; try apply dirs_kept_refl.
  eapply dirs_kept_insert. eassumption.
Qed.

Lemma dirs_kept_del (d : nat) (k : string) (h : list INode) : dirs_kept h (h_del d k h).
Proof.
  unfold h_del. destruct (h !! d) as [[l [s|p ch]]|] eqn:E; try apply dirs_kept_refl.
  eapply dirs_kept_insert. eassumption.
Qed.

Lemma dirs_kept_links (m : nat) (z : Z) (h : list INode) : dirs_kept h (h_links m z h).
Proof. intros n H. rewrite is_dir_h_links. assumption. Qed.

Lemma dirs_kept_write (m : nat) (s : string) (h : list INode) : dirs_kept h (h_write m s h).
Proof.
  unfold h_write. destruct (h !! m) as [[l [s0|p ch]]|] eqn:E; try apply dirs_kept_refl.
  intros n Hn. unfold is_dir in *. destruct (decide (m = n)) as [->|Hne].
  - rewrite E in Hn. discriminate.
  - rewrite list_lookup_insert_ne by assumption. assumption.
Qed.

Lemma dirs_kept_created (o : FileLike) (p : nat) (k : string) (h : list INode) :
  dirs_kept h (created o p k h).
Proof.
  unfold created. eapply dirs_kept_trans; [apply dirs_kept_alloc|apply dirs_kept_add].
Qed.

Lemma chain_ok_kept (h h' : list INode) (root : nat) (c : list (string * nat)) :
  dirs_kept h h' -> chain_ok h root c -> chain_ok h' root c.
Proof.
  intros Hk [Hhd Hall]. split; [assumption|].
  eapply Forall_impl; [eassumption|]. intros kv. apply Hk.
Qed.

Lemma anchored_with_heap (h' : list INode) (st : FileSystem) :
  anchored st -> dirs_kept (heap st) h' -> anchored (with_heap h' st).
Proof.
  intros [Hr Hc Hch] Hk. constructor; simpl; auto. eapply chain_ok_kept; eassumption.
Qed.

Lemma anchored_with_chain (c : list (string * nat)) (st : FileSystem) :
  anchored st -> chain_ok (heap st) (_root st) c -> anchored (with_chain c st).
Proof. intros [Hr Hc Hch] Hk. constructor; simpl; assumption. Qed.

Lemma resolve_walk_chain_ok (h : list INode) (root : nat) (name : string)
    (parts : list string) (node : nat) (path : list (string * nat)) :
  chain_ok h root path -> chain_ok h root (snd (resolve_walk h name parts node path)).
Proof.
  revert node path. induction parts as [|part parts IH]; intros node path Hp; simpl.
  - assumption.
  - destruct (find_child h node part) as [next|] eqn:F; [|assumption].
    destruct (is_dir h next) eqn:Hd; [|apply IH; assumption].
    apply IH. destruct Hp as [[rest ->] Hall].
    destruct (String.eqb part "..").
    + destruct rest as [|x rest]; simpl; [split; [eauto|assumption]|].
      split; [eauto|]. change (Forall (fun kv => is_dir h kv.2 = true)
                                 (removelast (("", root) :: x :: rest))).
      apply removelast_Forall. assumption.
    + destruct (String.eqb part "."); simpl; [split; [eauto|assumption]|].
      split; [eauto|]. change (Forall (fun kv => is_dir h kv.2 = true)
                                 ((("", root) :: rest) ++ [(part, next)])).
      apply Forall_app. split; [assumption|]. constructor; [exact Hd|constructor].
Qed.

(** The walk of [_resolve_path] does not raise on a path that [_get_node]
    resolves to a directory. *)
Lemma resolve_walk_no_error (h : list INode) (name : string) (parts : list string)
    (node n : nat) (path : list (string * nat)) :
  is_dir h node = true ->
  fold_left (get_node_step h) parts (Some node) = Some n -> is_dir h n = true ->
  fst (resolve_walk h name parts node path) = None.
Proof.
  revert node path. induction parts as [|part parts IH]; intros node path Hnode Hf Hn; simpl.
  - reflexivity.
  - simpl in Hf. rewrite Hnode in Hf.
    destruct (find_child h node part) as [next|] eqn:F.
    + destruct (is_dir h next) eqn:Hd; [apply IH; assumption|].
      rewrite get_node_stuck in Hf by assumption. congruence.
    + rewrite fold_get_node_None in Hf. discriminate.
Qed.

Lemma resolve_path_anchored (name : string) (st : FileSystem) :
  anchored st ->
  exists c,
    snd (_resolve_path name st) = with_chain c st /\
    chain_ok (heap st) (_root st) c /\
    (forall r, fst (_resolve_path name st) = inr r ->
       chain_ok (heap st) (_root st) (deref (with_chain c st) r)) /\
    (forall n, _get_node name st = Some n -> is_dir (heap st) n = true ->
       exists r, fst (_resolve_path name st) = inr r).
Proof.
  intros [Hr Hc Hch]. unfold _resolve_path, _get_node.
  destruct (String.eqb name "").
  - exists (_path_to_current st). rewrite with_chain_id. simpl.
    split; [reflexivity|]. split; [assumption|]. split; [intros r [= <-]; assumption|].
    intros; eexists; reflexivity.
  - unfold anchor. destruct (is_root_relative name).
    + exists (_path_to_current st). rewrite with_chain_id.
      assert (H0 : chain_ok (heap st) (_root st) [("", _root st)]).
      { split; [eauto|]. constructor; [assumption|constructor]. }
      pose proof (resolve_walk_chain_ok (heap st) (_root st) (strip name)
                    (split (strip name)) (_root st) _ H0) as Hv.
      pose proof (fun n => resolve_walk_no_error (heap st) (strip name)
                    (split (strip name)) (_root st) n [("", _root st)]) as Hne.
      destruct (resolve_walk _ _ _ _ _) as [[e|] path]; simpl in *.
      * split; [reflexivity|]. split; [assumption|]. split; [intros r Hr0; discriminate Hr0|].
        intros n Hn Hd. specialize (Hne n Hr Hn Hd). discriminate.
      * split; [reflexivity|]. split; [assumption|]. split; [intros r [= <-]; assumption|].
        intros; eexists; reflexivity.
    + pose proof (resolve_walk_chain_ok (heap st) (_root st) (strip name)
                    (split (strip name)) (_current st) _ Hch) as Hv.
      pose proof (fun n => resolve_walk_no_error (heap st) (strip name)
                    (split (strip name)) (_current st) n (_path_to_current st)) as Hne.
      destruct (resolve_walk _ _ _ _ _) as [[e|] path]; simpl in *; exists path.
      * split; [reflexivity|]. split; [assumption|]. split; [intros r Hr0; discriminate Hr0|].
        intros n Hn Hd. specialize (Hne n Hc Hn Hd). discriminate.
      * split; [reflexivity|]. split; [assumption|]. split; [intros r [= <-]; assumption|].
        intros; eexists; reflexivity.
Qed.

Lemma list_pop_nonempty {A} (x : A) (l : list A) : exists y rest, list_pop (x :: l) = Some (y, rest).
Proof. unfold list_pop. eauto. Qed.

(** [cd] on a session that stands on directories: it raises only before
    it has changed anything, and otherwise lands on a directory. *)
Lemma cd_anchored (name : option string) (st : FileSystem) :
  anchored st ->
  anchored (snd (cd name st)) /\
  (forall e st', cd name st = (inl e, st') ->
     st' = st /\
     (e = NoSuchFileOrDirectory (arg name) \/ e = NotADirectory (arg name))).
Proof.
  intros Ha. unfold cd. destruct (String.eqb (arg name) "").
  - split; [|discriminate]. destruct Ha as [Hr Hc Hch]. constructor; simpl; try assumption.
    split; [eauto|]. constructor; [assumption|constructor].
  - unfold bind, _get_node_or_fail.
    destruct (_get_node (arg name) st) as [n|] eqn:Hn;
      [|split; [assumption|intros e st' [= <- <-]; auto]].
    cbn beta iota.
    destruct (is_dir (heap st) n) eqn:Hd; simpl negb; cbn iota;
      [|split; [assumption|intros e st' [= <- <-]; auto]].
    destruct (resolve_path_anchored (arg name) st Ha) as (c & Hs & Hc & Hr & Hok).
    destruct (Hok n Hn Hd) as [r Hfst].
    destruct (_resolve_path (arg name) st) as [[e|r'] st1]; simpl in Hs, Hfst; subst st1;
      [discriminate|]. injection Hfst as ->.
    specialize (Hr r eq_refl).
    assert (Ha2 : anchored (with_chain (deref (with_chain c st) r) (with_chain c st))).
    { apply anchored_with_chain; [apply anchored_with_chain; assumption|assumption]. }
    destruct Hr as [[rest Hrest] Hall].
    cbn [_path_to_current with_chain]. rewrite Hrest in *.
    destruct (list_pop_nonempty ("", _root st) rest) as (y & rest' & Hpop).
    rewrite Hpop. destruct y as [k d]. split; [|discriminate].
    apply list_pop_In in Hpop. rewrite List.Forall_forall in Hall.
    specialize (Hall _ Hpop). simpl in Hall.
    destruct Ha2 as [H1 H2 H3]. constructor; simpl in *; try assumption.
Qed.

Lemma same_parent_anchored (a b : string) (st : FileSystem) :
  anchored st ->
  exists c, snd (same_parent a b st) = with_chain c st /\
            chain_ok (heap st) (_root st) c.
Proof.
  intros Ha. unfold same_parent, bind.
  destruct (resolve_path_anchored a st Ha) as (c1 & Hs1 & Hv1 & _).
  destruct (_resolve_path a st) as [[e|r1] st1]; simpl in Hs1; subst st1.
  - exists c1. auto.
  - assert (Ha1 : anchored (with_chain c1 st)) by (apply anchored_with_chain; assumption).
    destruct (resolve_path_anchored b (with_chain c1 st) Ha1) as (c2 & Hs2 & Hv2 & _).
    destruct (_resolve_path b (with_chain c1 st)) as [[e|r2] st2]; simpl in Hs2; subst st2;
      exists c2; (split; [reflexivity|assumption]).
Qed.

(** The state [mv] leaves, in terms of the state [same_parent] leaves. *)
Lemma mv_after_same_parent (old_name new_name : string) (st : FileSystem) :
  let st1 := snd (same_parent (parent_path new_name) (parent_path old_name) st) in
  snd (mv old_name new_name st) = st \/
  snd (mv old_name new_name st) = st1 \/
  exists n op np,
    snd (mv old_name new_name st)
    = with_heap (h_del op (requested old_name)
                   (h_add np (requested new_name) n (heap st1))) st1.
Proof.
  intros st1.
  destruct (get_node_or_fail_cases old_name st) as [[e H]|(n & Hn & H)].
  { left. unfold mv. rewrite (bind_inl _ _ _ _ _ H). reflexivity. }
  destruct (get_directory_or_fail_cases (parent_path old_name) st)
    as [[e Ho]|(op & Hop & Hdo & Ho)].
  { left. unfold mv. rewrite (bind_inr _ _ _ _ _ H).
    rewrite (bind_inr _ _ _ _ _ (ignore_missing_lookup new_name st)).
    rewrite (bind_inl _ _ _ _ _ Ho). reflexivity. }
  destruct (get_directory_or_fail_cases (parent_path new_name) st)
    as [[e Hnw]|(np & Hnp & Hdn & Hnw)].
  { left. unfold mv. rewrite (bind_inr _ _ _ _ _ H).
    rewrite (bind_inr _ _ _ _ _ (ignore_missing_lookup new_name st)).
    rewrite (bind_inr _ _ _ _ _ Ho). rewrite (bind_inl _ _ _ _ _ Hnw). reflexivity. }
  right. unfold mv. rewrite (bind_inr _ _ _ _ _ H).
  rewrite (bind_inr _ _ _ _ _ (ignore_missing_lookup new_name st)).
  rewrite (bind_inr _ _ _ _ _ Ho). rewrite (bind_inr _ _ _ _ _ Hnw).
  destruct (same_parent_effect (parent_path new_name) (parent_path old_name) st)
    as (c & Hs & _).
  subst st1.
  destruct (same_parent (parent_path new_name) (parent_path old_name) st)
    as [[e|same] st1] eqn:Esp; simpl in Hs; subst st1.
  { left. rewrite (bind_inl _ _ _ _ _ Esp). reflexivity. }
  rewrite (bind_inr _ _ _ _ _ Esp). simpl snd.
  destruct (same && String.eqb (requested new_name) (requested old_name)).
  { left. reflexivity. }
  right. exists n, op, np.
  rewrite (bind_inr _ _ _ _ _
             (add_child_dir np (requested new_name) n (with_chain c st) Hdn)).
  rewrite snd_bind_ret. rewrite delete_child_snd. reflexivity.
Qed.

Lemma create_tree_dirs_kept (name : string) (st : FileSystem) :
  dirs_kept (heap st) (heap (snd (_create_tree name st))) /\
  same_session st (snd (_create_tree name st)).
Proof.
  split; [|apply create_tree_session].
  destruct (create_tree_inv (fun s _ => dirs_kept (heap st) (heap s))) with
    (name := name) (st := st) as [_ H]; [| | |exact H].
  - intros s node nm c H _. exact H.
  - intros s node nm H _ _. simpl. eapply dirs_kept_trans; [exact H|apply dirs_kept_created].
  - apply dirs_kept_refl.
Qed.

Lemma anchored_same_session (st st' : FileSystem) :
  anchored st -> same_session st st' -> dirs_kept (heap st) (heap st') -> anchored st'.
Proof.
  intros [Hr Hc Hch] (H1 & H2 & H3) Hk. constructor; rewrite ?H1, ?H2, ?H3; auto.
  eapply chain_ok_kept; eassumption.
Qed.

Lemma step_anchored (op : Op) (st : FileSystem) : anchored st -> anchored (snd (step op st)).
Proof.
  intros Ha. destruct op as [name|name|name|target dest|name ci|old new|name stream
                             |name recursive|name|name contents];
    unfold step; rewrite snd_fmap_M.
  - apply cd_anchored. assumption.
  - destruct (create_file_effect name st) as [[e H]|(p & _ & _ & _ & H)]; rewrite H; simpl;
      [assumption|apply anchored_with_heap; [assumption|apply dirs_kept_created]].
  - rewrite ls_effect. assumption.
  - destruct (ln_effect target dest st) as [H|(t & p & _ & _ & _ & _ & H)]; rewrite H;
      [assumption|]. apply anchored_with_heap; [assumption|].
    eapply dirs_kept_trans; [apply dirs_kept_links|apply dirs_kept_add].
  - pose proof (mkdir_effect name ci st) as H. cbv zeta in H.
    assert (Ha1 : anchored (if ci then snd (_create_tree (parent_path name) st) else st)).
    { destruct ci; [|assumption].
      destruct (create_tree_dirs_kept (parent_path name) st) as [Hk Hs].
      eapply anchored_same_session; eassumption. }
    destruct H as [H|[H|(p & _ & _ & _ & H)]]; rewrite H; try assumption.
    simpl. apply anchored_with_heap; [assumption|apply dirs_kept_created].
  - destruct (same_parent_anchored (parent_path new) (parent_path old) st Ha) as (c & Hs & Hc).
    assert (Ha1 : anchored (snd (same_parent (parent_path new) (parent_path old) st)))
      by (rewrite Hs; apply anchored_with_chain; assumption).
    destruct (mv_after_same_parent old new st) as [H|[H|(n & op & np & H)]];
      cbv zeta in H; rewrite H; try assumption.
    apply anchored_with_heap; [assumption|].
    eapply dirs_kept_trans; [apply dirs_kept_add|apply dirs_kept_del].
  - rewrite read_file_effect. assumption.
  - destruct (rm_effect name recursive st) as [H|(n & p & _ & _ & _ & _ & H)]; rewrite H;
      [assumption|]. apply anchored_with_heap; [assumption|].
    eapply dirs_kept_trans; [apply dirs_kept_links|apply dirs_kept_del].
  - destruct (touch_effect name st) as [H|(p & _ & _ & _ & H)]; rewrite H; simpl;
      [assumption|apply anchored_with_heap; [assumption|apply dirs_kept_created]].
  - destruct (write_file_effect name contents st) as [H|[(m & _ & H)|(p & _ & _ & _ & H)]];
      rewrite H; [assumption| |]; (apply anchored_with_heap; [assumption|]).
    + apply dirs_kept_write.
    + eapply dirs_kept_trans; [apply dirs_kept_created|apply dirs_kept_write].
Qed.

Lemma init_fs_anchored : anchored init_fs.
Proof.
  constructor; try reflexivity. split; [exists []; reflexivity|].
  constructor; [reflexivity|constructor].
Qed.

Lemma run_anchored (ops : list Op) (st : FileSystem) : anchored st -> anchored (run ops st).
Proof.
  revert st. induction ops as [|op ops IH]; intros st Ha; simpl; [assumption|].
  apply IH, step_anchored, Ha.
Qed.

(** X5.  [cd] is atomic after any sequence of calls on a fresh system: when
    it raises, the store and the session are what they were, and what it
    raises is [NoSuchFileOrDirectory] or [NotADirectory] for the name it
    was given, never an error from inside the walk. *)
Theorem cd_raises_without_moving (ops : list Op) (name : option string)
    (e : Exn) (st' : FileSystem) :
  cd name (run ops init_fs) = (inl e, st') ->
  st' = run ops init_fs /\
  (e = NoSuchFileOrDirectory (arg name) \/ e = NotADirectory (arg name)).
Proof.
  apply cd_anchored. apply run_anchored, init_fs_anchored.
Qed.

(** The atomic [cd] of the repository's [test_cd_is_atomic]. *)
Lemma cd_raises_without_moving_witness :
  let ops := [Mkdir "one" false; Mkdir "two" false; Cd (Some "one")] in
  cd (Some "../three") (run ops init_fs)
  = (inl (NoSuchFileOrDirectory "../three"), run ops init_fs) /\
  cwd (snd (cd (Some "../three") (run ops init_fs))) = "/one".
Proof.
  split; [reflexivity|].
  rewrite (proj1 (cd_raises_without_moving
                    [Mkdir "one" false; Mkdir "two" false; Cd (Some "one")]
                    (Some "../three") (NoSuchFileOrDirectory "../three")
                    (snd (cd (Some "../three")
                            (run [Mkdir "one" false; Mkdir "two" false; Cd (Some "one")]
                               init_fs))) eq_refl)).
  reflexivity.
Defined.

Lemma cwd_of_chain (st : FileSystem) (rest : list (string * nat)) (root : nat) :
  _path_to_current st = ("", root) :: rest -> startswith_sep (cwd st) = true.
Proof.
  intros H. unfold cwd. rewrite H. simpl map.
  destruct rest as [|x rest]; [reflexivity|].
  rewrite join_cons by discriminate. reflexivity.
Qed.

(** X6.  After any sequence of calls on a fresh system the session stands
    on directories: the root and the current node are directories, the
    chain starts with the root under the empty name and holds directories
    only, and [cwd()] is an absolute path. *)
Theorem session_stands_on_directories (ops : list Op) :
  let st := run ops init_fs in
  is_dir (heap st) (_root st) = true /\
  is_dir (heap st) (_current st) = true /\
  (exists rest, _path_to_current st = ("", _root st) :: rest) /\
  Forall (fun kv => is_dir (heap st) (snd kv) = true) (_path_to_current st) /\
  startswith_sep (cwd st) = true.
Proof.
  intros st. destruct (run_anchored ops init_fs init_fs_anchored) as [Hr Hc [[rest Hrest] Hall]].
  fold st in Hr, Hc, Hrest, Hall.
  repeat split; try assumption; [eauto|]. eapply cwd_of_chain; eassumption.
Qed.

Lemma dict_set_keys_In {V} (k x : string) (v : V) (d : list (string * V)) :
  In x (map fst (dict_set String.eqb k v d)) -> x = k \/ In x (map fst d).
Proof.
  induction d as [|[k0 v0] d IH]; simpl.
  - intros [H|[]]; auto.
  - destruct (String.eqb k0 k) eqn:E; simpl; intros [H|H]; auto.
    destruct (IH H); auto.
Qed.

Lemma dict_set_keys_NoDup {V} (k : string) (v : V) (d : list (string * V)) :
  List.NoDup (map fst d) -> List.NoDup (map fst (dict_set String.eqb k v d)).
Proof.
  induction d as [|[k0 v0] d IH]; simpl; intros Hd.
  - constructor; [intros []|constructor].
  - inversion Hd as [|? ? Hnin Hd']; subst.
    destruct (String.eqb k0 k) eqn:E; simpl; [constructor; assumption|].
    constructor; [|auto].
    intros Hin. apply dict_set_keys_In in Hin as [->|Hin]; [|contradiction].
    rewrite String.eqb_refl in E. discriminate.
Qed.

Lemma dict_del_keys_In {V} (k x : string) (d : list (string * V)) :
  In x (map fst (dict_del String.eqb k d)) -> In x (map fst d).
Proof.
  induction d as [|[k0 v0] d IH]; simpl; [auto|].
  destruct (String.eqb k0 k); simpl; [auto|]. intros [H|H]; auto.
Qed.

Lemma dict_del_keys_NoDup {V} (k : string) (d : list (string * V)) :
  List.NoDup (map fst d) -> List.NoDup (map fst (dict_del String.eqb k d)).
Proof.
  induction d as [|[k0 v0] d IH]; simpl; intros Hd; [constructor|].
  inversion Hd as [|? ? Hnin Hd']; subst.
  destruct (String.eqb k0 k); [assumption|]. simpl. constructor; [|auto].
  intros Hin. apply dict_del_keys_In in Hin. contradiction.
Qed.

Lemma names_unique_alloc (o : FileLike) (h : list INode) :
  names_unique h -> List.NoDup (map fst (node_children {| links := 1%Z; obj := o |})) ->
  names_unique (h_alloc o h).
Proof.
  intros Hh Ho. unfold names_unique, h_alloc. apply Forall_app_2; [assumption|].
  constructor; [assumption|constructor].
Qed.

Lemma names_unique_add (d : nat) (name : string) (c : nat) (h : list INode) :
  names_unique h -> names_unique (h_add d name c h).
Proof.
  intros Hh. unfold h_add. destruct (h !! d) as [[l [s|p ch]]|] eqn:E; try assumption.
  apply Forall_insert; [assumption|]. unfold node_children. simpl.
  apply dict_set_keys_NoDup.
  pose proof (Forall_lookup_1 _ _ _ _ Hh E) as H. exact H.
Qed.

Lemma names_unique_del (d : nat) (name : string) (h : list INode) :
  names_unique h -> names_unique (h_del d name h).
Proof.
  intros Hh. unfold h_del. destruct (h !! d) as [[l [s|p ch]]|] eqn:E; try assumption.
  apply Forall_insert; [assumption|]. unfold node_children. simpl.
  apply dict_del_keys_NoDup.
  pose proof (Forall_lookup_1 _ _ _ _ Hh E) as H. exact H.
Qed.

Lemma names_unique_links (n : nat) (z : Z) (h : list INode) :
  names_unique h -> names_unique (h_links n z h).
Proof.
  intros Hh. unfold h_links. destruct (h !! n) as [nd|] eqn:E; [|assumption].
  apply Forall_insert; [assumption|].
  pose proof (Forall_lookup_1 _ _ _ _ Hh E) as H. exact H.
Qed.

Lemma names_unique_write (n : nat) (s : string) (h : list INode) :
  names_unique h -> names_unique (h_write n s h).
Proof.
  intros Hh. unfold h_write. destruct (h !! n) as [[l [s0|p ch]]|] eqn:E; try assumption.
  apply Forall_insert; [assumption|]. constructor.
Qed.

Lemma names_unique_created_file (p : nat) (name : string) (h : list INode) :
  names_unique h -> names_unique (created (FileNode "") p name h).
Proof.
  intros Hh. unfold created. apply names_unique_add, names_unique_alloc; [assumption|constructor].
Qed.

Lemma names_unique_created_dir (q p : nat) (name : string) (h : list INode) :
  names_unique h -> names_unique (created (DirectoryNode q []) p name h).
Proof.
  intros Hh. unfold created. apply names_unique_add, names_unique_alloc; [assumption|constructor].
Qed.

Lemma create_tree_names_unique (name : string) (st : FileSystem) :
  names_unique (heap st) -> names_unique (heap (snd (_create_tree name st))).
Proof.
  intros Hh.
  destruct (create_tree_inv (fun s _ => names_unique (heap s))) with
    (name := name) (st := st) as [_ H]; [| | |exact H].
  - intros s node nm c H _. exact H.
  - intros s node nm H _ _. simpl. apply names_unique_created_dir. exact H.
  - assumption.
Qed.

Lemma step_names_unique (op : Op) (st : FileSystem) :
  names_unique (heap st) -> names_unique (heap (snd (step op st))).
Proof.
  intros Hu. destruct op as [name|name|name|target dest|name ci|old new|name stream
                             |name recursive|name|name contents];
    unfold step; rewrite snd_fmap_M.
  - rewrite (proj1 (cd_heap name st)). assumption.
  - destruct (create_file_effect name st) as [[e H]|(p & _ & _ & _ & H)]; rewrite H; simpl;
      [assumption|apply names_unique_created_file; assumption].
  - rewrite ls_effect. assumption.
  - destruct (ln_effect target dest st) as [H|(t & p & _ & _ & _ & _ & H)]; rewrite H;
      [assumption|]. simpl. apply names_unique_add, names_unique_links. assumption.
  - pose proof (mkdir_effect name ci st) as H. cbv zeta in H.
    assert (Hu1 : names_unique (heap (if ci then snd (_create_tree (parent_path name) st) else st))).
    { destruct ci; [|assumption]. apply create_tree_names_unique. assumption. }
    destruct H as [H|[H|(p & _ & _ & _ & H)]]; rewrite H; try assumption.
    simpl. apply names_unique_created_dir. assumption.
  - destruct (same_parent_effect (parent_path new) (parent_path old) st) as (c & Hs & _).
    destruct (mv_after_same_parent old new st) as [H|[H|(n & op & np & H)]];
      cbv zeta in H; rewrite H; try assumption; rewrite Hs; simpl; [assumption|].
    apply names_unique_del, names_unique_add. assumption.
  - rewrite read_file_effect. assumption.
  - destruct (rm_effect name recursive st) as [H|(n & p & _ & _ & _ & _ & H)]; rewrite H;
      [assumption|]. simpl. apply names_unique_del, names_unique_links. assumption.
  - destruct (touch_effect name st) as [H|(p & _ & _ & _ & H)]; rewrite H; simpl;
      [assumption|apply names_unique_created_file; assumption].
  - destruct (write_file_effect name contents st) as [H|[(m & _ & H)|(p & _ & _ & _ & H)]];
      rewrite H; [assumption| |]; simpl.
    + apply names_unique_write. assumption.
    + apply names_unique_write, names_unique_created_file. assumption.
Qed.

Lemma run_names_unique (ops : list Op) (st : FileSystem) :
  names_unique (heap st) -> names_unique (heap (run ops st)).
Proof.
  revert st. induction ops as [|op ops IH]; intros st Hu; simpl; [assumption|].
  apply IH, step_names_unique, Hu.
Qed.

Lemma init_fs_names_unique : names_unique (heap init_fs).
Proof. repeat constructor. Qed.

Lemma names_unique_children (h : list INode) (n : nat) :
  names_unique h -> List.NoDup (map fst (children h n)).
Proof.
  intros Hu. unfold children. destruct (h !! n) as [[l [s|p ch]]|] eqn:E; try constructor.
  pose proof (Forall_lookup_1 _ _ _ _ Hu E) as H. exact H.
Qed.

(** X7.  After any sequence of calls on a fresh system, a listing never
    holds a name twice: whatever directory [ls] is asked for, the names it
    returns are pairwise distinct. *)
Theorem ls_lists_no_name_twice (ops : list Op) (name : option string)
    (l : list string) (st' : FileSystem) :
  ls name (run ops init_fs) = (inr l, st') -> List.NoDup l.
Proof.
  pose proof (run_names_unique ops init_fs init_fs_names_unique) as Hu.
  remember (run ops init_fs) as st eqn:Est. clear Est.
  unfold ls, bind. destruct (String.eqb (arg name) "").
  - intros [= <- _]. apply names_unique_children. assumption.
  - destruct (get_directory_or_fail_cases (arg name) st) as [[e H]|(n & _ & _ & H)];
      rewrite H; [discriminate|].
    intros [= <- _]. apply names_unique_children. assumption.
Qed.

(** The listing of a directory after a file was written twice, a
    directory made and a link stored over an existing name. *)
Lemma ls_lists_no_name_twice_witness :
  let ops := [WriteFile "a" "x"; Mkdir "d" false; WriteFile "a" "y"; Touch "b";
              Ln "b" "a"] in
  ls None (run ops init_fs) = (inr ["a"; "d"; "b"], run ops init_fs) /\
  List.NoDup ["a"; "d"; "b"].
Proof.
  split; [reflexivity|].
  exact (ls_lists_no_name_twice
           [WriteFile "a" "x"; Mkdir "d" false; WriteFile "a" "y"; Touch "b"; Ln "b" "a"]
           None ["a"; "d"; "b"] _ eq_refl).
Defined.

Lemma store_grows_refl (h : list INode) : store_grows h h.
Proof. split; [lia|]. intros a _. split; auto. Qed.

Lemma store_grows_trans (h1 h2 h3 : list INode) :
  store_grows h1 h2 -> store_grows h2 h3 -> store_grows h1 h3.
Proof.
  intros [L1 H1] [L2 H2]. split; [lia|]. intros a Ha.
  destruct (H1 a Ha) as [D1 F1]. destruct (H2 a ltac:(lia)) as [D2 F2].
  split; [congruence|]. intros part c Hc. apply F2, F1, Hc.
Qed.

Lemma store_grows_alloc (o : FileLike) (h : list INode) : store_grows h (h_alloc o h).
Proof.
  split; [rewrite h_alloc_length; lia|]. intros a Ha.
  unfold is_dir, find_child, h_alloc. rewrite lookup_app_l by assumption. split; auto.
Qed.

Lemma store_grows_links (m : nat) (z : Z) (h : list INode) : store_grows h (h_links m z h).
Proof.
  split; [rewrite h_links_length; lia|]. intros a Ha.
  unfold h_links. destruct (h !! m) as [nd|] eqn:E; [|split; auto].
  unfold is_dir, find_child. destruct (decide (m = a)) as [->|Hne].
  - rewrite list_lookup_insert_eq by assumption. rewrite E.
    destruct nd as [l [s|p ch]]; simpl; split; auto.
  - rewrite list_lookup_insert_ne by assumption. split; auto.
Qed.

Lemma store_grows_write (m : nat) (s : string) (h : list INode) :
  store_grows h (h_write m s h).
Proof.
  split; [rewrite h_write_length; lia|]. intros a Ha.
  unfold h_write. destruct (h !! m) as [[l [s0|p ch]]|] eqn:E; try (split; auto; fail).
  unfold is_dir, find_child. destruct (decide (m = a)) as [->|Hne].
  - rewrite list_lookup_insert_eq by assumption. rewrite E. split; auto.
  - rewrite list_lookup_insert_ne by assumption. split; auto.
Qed.

(** Storing under a name the directory does not resolve. *)
Lemma store_grows_add (d : nat) (k : string) (c : nat) (h : list INode) :
  find_child h d k = None -> store_grows h (h_add d k c h).
Proof.
  intros Hfree. split; [rewrite h_add_length; lia|]. intros a Ha.
  unfold h_add. destruct (h !! d) as [[l [s0|p ch]]|] eqn:E; try (split; auto; fail).
  unfold is_dir, find_child in *. rewrite E in Hfree.
  destruct (decide (d = a)) as [->|Hne].
  - rewrite list_lookup_insert_eq by assumption. rewrite E. split; [reflexivity|].
    intros part x Hx.
    destruct (String.eqb k part) eqn:Ek.
    + apply String.eqb_eq in Ek. subst part. rewrite Hx in Hfree. discriminate.
    + apply String.eqb_neq in Ek.
      rewrite (dict_get_set_ne String.eqb String.eqb_eq) by assumption. assumption.
  - rewrite list_lookup_insert_ne by assumption. split; auto.
Qed.

Lemma find_child_h_alloc (o : FileLike) (h : list INode) (d : nat) (k : string) :
  d < length h -> find_child (h_alloc o h) d k = find_child h d k.
Proof. intros Hd. unfold find_child, h_alloc. rewrite lookup_app_l by assumption. reflexivity. Qed.

Lemma find_child_out (h : list INode) (d : nat) (k : string) :
  length h <= d -> find_child h d k = None.
Proof. intros Hd. unfold find_child. rewrite lookup_ge_None_2 by assumption. reflexivity. Qed.

Lemma store_grows_created (o : FileLike) (p : nat) (k : string) (h : list INode) :
  p < length h -> find_child h p k = None -> store_grows h (created o p k h).
Proof.
  intros Hp Hfree. unfold created. eapply store_grows_trans; [apply store_grows_alloc|].
  apply store_grows_add. rewrite find_child_h_alloc by assumption. assumption.
Qed.

(** A lookup that succeeds in a store succeeds, with the same node, in a
    store grown from it. *)
Lemma lookup_kept (h h' : list INode) (parts : list string) (a n : nat) :
  closed h -> store_grows h h' -> a < length h ->
  fold_left (get_node_step h) parts (Some a) = Some n ->
  fold_left (get_node_step h') parts (Some a) = Some n.
Proof.
  intros Hc [_ Hg]. revert a. induction parts as [|part parts IH]; intros a Ha; simpl; [auto|].
  destruct (Hg a Ha) as [Hd Hf]. rewrite Hd.
  destruct (is_dir h a) eqn:Ed.
  - destruct (find_child h a part) as [c|] eqn:Ef.
    + rewrite (Hf _ _ Ef). apply IH. eapply find_child_valid; eassumption.
    + rewrite fold_get_node_None. discriminate.
  - apply IH. assumption.
Qed.

Lemma get_node_kept (name : string) (st : FileSystem) (h' : list INode) (n : nat) :
  wf st -> store_grows (heap st) h' ->
  _get_node name st = Some n -> _get_node name (with_heap h' st) = Some n.
Proof.
  intros [Hc Hr Hcur _] Hg. unfold _get_node. destruct (String.eqb name ""); [auto|].
  apply lookup_kept; try assumption.
  unfold anchor. destruct (is_root_relative name); assumption.
Qed.


Lemma get_node_via_parent (name : string) (st : FileSystem) :
  name <> "" -> stores_where_it_looks name st ->
  _get_node name st
  = get_node_step (heap st) (_get_node (parent_path name) st) (requested name).
Proof.
  intros Hne Hw. destruct (root_entry_dec name) as [Hr|Hr].
  - destruct Hw as [Hw|Hw]; [contradiction|].
    rewrite (get_node_root_entry name st Hr).
    unfold parent_path. unfold root_entry in Hr. rewrite Hr.
    change (_get_node (join [""]) st) with (Some (_current st)). rewrite Hw. reflexivity.
  - apply get_node_parent; assumption.
Qed.

(** A name that does not resolve, in a directory its parent path resolves
    to, is not an entry of that directory. *)
Lemma free_slot (name : string) (st : FileSystem) (p : nat) :
  name <> "" -> stores_where_it_looks name st ->
  _get_node name st = None -> _get_node (parent_path name) st = Some p ->
  is_dir (heap st) p = true ->
  find_child (heap st) p (requested name) = None.
Proof.
  intros Hne Hw Hn Hp Hd. rewrite (get_node_via_parent name st Hne Hw), Hp in Hn.
  simpl in Hn. rewrite Hd in Hn. assumption.
Qed.

Lemma find_child_created_new (o : FileLike) (p : nat) (k : string) (h : list INode) :
  is_dir h p = true -> find_child (created o p k h) p k = Some (length h).
Proof.
  intros Hd. pose proof (is_dir_lt _ _ Hd) as Hp.
  unfold created, h_add, h_alloc. rewrite lookup_app_l by assumption.
  unfold is_dir in Hd. destruct (h !! p) as [[l [s|pp ch]]|] eqn:E; try discriminate.
  unfold find_child. rewrite list_lookup_insert_eq by (rewrite length_app; simpl; lia).
  rewrite (dict_get_set_eq String.eqb String.eqb_eq). reflexivity.
Qed.

(** The name under which a node was created resolves to that node. *)
Lemma lookup_created (o : FileLike) (name : string) (st : FileSystem) (p : nat) :
  wf st -> name <> "" -> stores_where_it_looks name st ->
  _get_node name st = None -> _get_node (parent_path name) st = Some p ->
  is_dir (heap st) p = true ->
  let st' := with_heap (created o p (requested name) (heap st)) st in
  store_grows (heap st) (heap st') /\ _get_node name st' = Some (length (heap st)).
Proof.
  intros Hwf Hne Hw Hn Hp Hd. cbv zeta.
  pose proof (free_slot name st p Hne Hw Hn Hp Hd) as Hfree.
  pose proof (is_dir_lt _ _ Hd) as Hlt.
  pose proof (store_grows_created o p (requested name) (heap st) Hlt Hfree) as Hg.
  split; [assumption|].
  rewrite get_node_via_parent by assumption.
  rewrite (get_node_kept _ _ _ _ Hwf Hg Hp).
  simpl. destruct Hg as [_ Hg]. rewrite (proj1 (Hg p Hlt)), Hd.
  apply find_child_created_new. assumption.
Qed.

Lemma write_contents_file (n : nat) (c : string) (st : FileSystem) (l : Z) (s0 : string) :
  heap st !! n = Some {| links := l; obj := FileNode s0 |} ->
  write_contents n c st = (inr n, with_heap (h_write n c (heap st)) st) /\
  h_write n c (heap st) !! n = Some {| links := l; obj := FileNode c |}.
Proof.
  intros E. unfold write_contents, h_write. rewrite E. split; [reflexivity|].
  apply list_lookup_insert_eq. eapply lookup_lt_Some; eassumption.
Qed.

Lemma read_file_of (name : string) (st : FileSystem) (n : nat) (l : Z) (s : string) :
  _get_node name st = Some n ->
  heap st !! n = Some {| links := l; obj := FileNode s |} ->
  read_file name false st = (inr (Contents s), st) /\
  read_file name true st = (inr (Stream (list_ascii_of_string s)), st).
Proof.
  intros Hn E. unfold read_file, bind, _get_node_or_fail. rewrite Hn. cbn beta iota.
  unfold is_dir, read_contents, stream_contents, ret. rewrite E. split; reflexivity.
Qed.

(** [write_file] then [read_file], in a state without dangling references. *)
Lemma write_then_read_wf (name contents : string) (st : FileSystem) (n : nat)
    (st' : FileSystem) :
  wf st -> stores_where_it_looks name st ->
  write_file name contents st = (inr n, st') ->
  store_grows (heap st) (heap st') /\
  _get_node name st' = Some n /\
  read_file name false st' = (inr (Contents contents), st') /\
  read_file name true st' = (inr (Stream (list_ascii_of_string contents)), st').
Proof.
  intros Hwf Hw. unfold write_file.
  assert (Hne : _get_node name st = None -> name <> "").
  { intros Hn ->. discriminate. }
  destruct (_get_node name st) as [m|] eqn:Hn.
  - destruct (is_dir (heap st) m) eqn:Hd; [discriminate|].
    destruct (heap st !! m) as [[l [s0|p ch]]|] eqn:E;
      try (unfold write_contents; rewrite E; discriminate).
    destruct (write_contents_file m contents st l s0 E) as [Hwr Hlk].
    rewrite Hwr. intros [= <- <-].
    pose proof (store_grows_write m contents (heap st)) as Hg.
    pose proof (get_node_kept _ _ _ _ Hwf Hg Hn) as Hn'.
    split; [assumption|]. split; [assumption|].
    eapply read_file_of; [eassumption|]. simpl. eassumption.
  - specialize (Hne eq_refl). unfold bind.
    destruct (create_file_effect name st) as [[e H]|(p & _ & Hp & Hd & H)]; rewrite H;
      [discriminate|].
    destruct (lookup_created (FileNode "") name st p Hwf Hne Hw Hn Hp Hd) as [Hg Hn1].
    cbv zeta in Hg, Hn1.
    set (st1 := with_heap (created (FileNode "") p (requested name) (heap st)) st) in *.
    assert (E : heap st1 !! length (heap st) = Some {| links := 1%Z; obj := FileNode "" |}).
    { apply created_lookup_new. apply is_dir_lt. assumption. }
    destruct (write_contents_file (length (heap st)) contents st1 _ _ E) as [Hwr Hlk].
    rewrite Hwr. intros [= <- <-].
    assert (Hwf1 : wf st1) by (apply wf_created; [assumption|exact I]).
    pose proof (store_grows_write (length (heap st)) contents (heap st1)) as Hg1.
    pose proof (get_node_kept _ _ _ _ Hwf1 Hg1 Hn1) as Hn'.
    assert (Hst : with_heap (h_write (length (heap st)) contents (heap st1)) st1
                  = with_heap (h_write (length (heap st)) contents (heap st1)) st)
      by reflexivity.
    rewrite Hst in *.
    split; [eapply store_grows_trans; eassumption|]. split; [assumption|].
    eapply read_file_of; [eassumption|]. simpl. eassumption.
Qed.

(** X8.  [write_file] then [read_file] is a round trip.  After any
    sequence of calls on a fresh system, when [write_file(name, contents)]
    returns, [name] resolves to the node it returned, [read_file(name)]
    returns [contents] and the stream yields its characters, for every
    name but an absolute [/r] given from below the root; and every path
    that resolved before the call resolves to the same node after it. *)
Theorem write_then_read (ops : list Op) (name contents : string) (n : nat)
    (st' : FileSystem) :
  stores_where_it_looks name (run ops init_fs) ->
  write_file name contents (run ops init_fs) = (inr n, st') ->
  _get_node name st' = Some n /\
  read_file name false st' = (inr (Contents contents), st') /\
  read_file name true st' = (inr (Stream (list_ascii_of_string contents)), st') /\
  (forall q m, _get_node q (run ops init_fs) = Some m -> _get_node q st' = Some m).
Proof.
  intros Hw Hwr.
  pose proof (run_wf ops init_fs init_fs_wf) as Hwf.
  destruct (write_then_read_wf name contents _ n st' Hwf Hw Hwr) as (Hg & H1 & H2 & H3).
  repeat split; try assumption.
  intros q m Hq.
  assert (Hs : st' = with_heap (heap st') (run ops init_fs)).
  { pose proof (write_file_effect name contents (run ops init_fs)) as He.
    rewrite Hwr in He. simpl in He.
    destruct He as [->|[(m0 & _ & ->)|(p & _ & _ & _ & ->)]]; simpl;
      rewrite ?with_heap_id; reflexivity. }
  rewrite Hs. apply get_node_kept; assumption.
Qed.

(** A file written from inside [/a] under a relative name, then under an
    absolute one of two components. *)
Lemma write_then_read_witness :
  stores_where_it_looks "/a/y" (run [Mkdir "a" false; Cd (Some "a"); WriteFile "x" "one"] init_fs) /\
  read_file "/a/y" true
    (snd (write_file "/a/y" "two"
            (run [Mkdir "a" false; Cd (Some "a"); WriteFile "x" "one"] init_fs)))
  = (inr (Stream ["t"; "w"; "o"]%char),
     snd (write_file "/a/y" "two"
            (run [Mkdir "a" false; Cd (Some "a"); WriteFile "x" "one"] init_fs))) /\
  _get_node "x"
    (snd (write_file "/a/y" "two"
            (run [Mkdir "a" false; Cd (Some "a"); WriteFile "x" "one"] init_fs)))
  = Some 2.
Proof.
  assert (Hw : stores_where_it_looks "/a/y"
                 (run [Mkdir "a" false; Cd (Some "a"); WriteFile "x" "one"] init_fs)).
  { left. unfold root_entry. vm_compute. discriminate. }
  destruct (write_then_read [Mkdir "a" false; Cd (Some "a"); WriteFile "x" "one"]
              "/a/y" "two" 3
              (snd (write_file "/a/y" "two"
                      (run [Mkdir "a" false; Cd (Some "a"); WriteFile "x" "one"] init_fs)))
              Hw eq_refl) as (_ & _ & H3 & H4).
  split; [exact Hw|]. split; [exact H3|]. apply H4. reflexivity.
Defined.

(** What a call that creates [name] leaves: the name resolves to the new
    node, the new node is as constructed, and the paths that resolved
    still resolve to the same nodes. *)
Lemma created_resolves (o : FileLike) (name : string) (st : FileSystem) (p : nat) :
  wf st -> stores_where_it_looks name st ->
  _get_node name st = None -> _get_node (parent_path name) st = Some p ->
  is_dir (heap st) p = true ->
  let st' := with_heap (created o p (requested name) (heap st)) st in
  name <> "" /\
  _get_node name st' = Some (length (heap st)) /\
  heap st' !! length (heap st) = Some {| links := 1%Z; obj := o |} /\
  (forall q m, _get_node q st = Some m -> _get_node q st' = Some m).
Proof.
  intros Hwf Hw Hn Hp Hd. cbv zeta.
  assert (Hne : name <> "") by (intros ->; discriminate).
  destruct (lookup_created o name st p Hwf Hne Hw Hn Hp Hd) as [Hg Hn1].
  cbv zeta in Hg, Hn1. split; [assumption|]. split; [assumption|]. split.
  - apply created_lookup_new. apply is_dir_lt. assumption.
  - intros q m Hq. apply get_node_kept; assumption.
Qed.

Lemma ls_of_directory (name : string) (st : FileSystem) (n : nat) (l : Z) (p : nat)
    (ch : list (string * nat)) :
  name <> "" -> _get_node name st = Some n ->
  heap st !! n = Some {| links := l; obj := DirectoryNode p ch |} ->
  ls (Some name) st = (inr (map fst ch), st).
Proof.
  intros Hne Hn E. unfold ls, bind, _get_directory_or_fail, _get_node_or_fail, bind.
  change (arg (Some name)) with name. rewrite (proj2 (eqb_empty name) Hne). rewrite Hn. cbn beta iota.
  unfold is_dir. rewrite E. cbn beta iota.
  unfold iter_children, children. rewrite E. reflexivity.
Qed.

(** X9.  The name a call created resolves to what the call returned.
    After any sequence of calls on a fresh system, when [create_file],
    [touch] or [mkdir] (without [create_intermediates]) returns a node for
    [name], then [name] resolves to that node: the file made by
    [create_file] reads as the empty string, the directory made by [mkdir]
    lists as empty, and every path that resolved before the call resolves
    to the same node after it.  The names excepted are the absolute [/r]
    given from below the root. *)
Theorem created_name_resolves (ops : list Op) (name : string) (n : nat)
    (st' : FileSystem) :
  stores_where_it_looks name (run ops init_fs) ->
  (create_file name (run ops init_fs) = (inr n, st') ->
   _get_node name st' = Some n /\
   read_file name false st' = (inr (Contents ""), st')) /\
  (touch name (run ops init_fs) = (inr n, st') -> _get_node name st' = Some n) /\
  (mkdir name false (run ops init_fs) = (inr n, st') ->
   _get_node name st' = Some n /\ ls (Some name) st' = (inr [], st')) /\
  (create_file name (run ops init_fs) = (inr n, st') \/
   touch name (run ops init_fs) = (inr n, st') \/
   mkdir name false (run ops init_fs) = (inr n, st') ->
   forall q m, _get_node q (run ops init_fs) = Some m -> _get_node q st' = Some m).
Proof.
  intros Hw. pose proof (run_wf ops init_fs init_fs_wf) as Hwf.
  remember (run ops init_fs) as st eqn:Est. clear Est.
  assert (Hc : create_file name st = (inr n, st') ->
               exists p, st' = with_heap (created (FileNode "") p (requested name) (heap st)) st /\
                 n = length (heap st) /\ _get_node name st = None /\
                 _get_node (parent_path name) st = Some p /\ is_dir (heap st) p = true).
  { intros H. destruct (create_file_effect name st) as [[e He]|(p & Hn & Hp & Hd & He)];
      rewrite He in H; [discriminate|]. injection H as <- <-. exists p. auto. }
  assert (Ht : touch name st = (inr n, st') ->
               (st' = st /\ _get_node name st = Some n) \/
               exists p, st' = with_heap (created (FileNode "") p (requested name) (heap st)) st /\
                 n = length (heap st) /\ _get_node name st = None /\
                 _get_node (parent_path name) st = Some p /\ is_dir (heap st) p = true).
  { intros H. unfold touch in H. destruct (_get_node name st) as [m|] eqn:Hn.
    - left. injection H as <- <-. auto.
    - right. unfold bind, _get_directory_or_fail, _get_node_or_fail, bind in H.
      destruct (_get_node (parent_path name) st) as [p|]; [|discriminate].
      cbn beta iota in H. destruct (is_dir (heap st) p) eqn:Hd; [|discriminate].
      unfold new_file in H. rewrite new_node_eq in H.
      rewrite add_child_dir in H by (apply is_dir_h_alloc; assumption).
      injection H as <- <-. exists p. auto. }
  assert (Hm : mkdir name false st = (inr n, st') ->
               exists p, st' = with_heap (created (DirectoryNode p []) p (requested name) (heap st)) st /\
                 n = length (heap st) /\ _get_node name st = None /\
                 _get_node (parent_path name) st = Some p /\ is_dir (heap st) p = true).
  { intros H. unfold mkdir, bind, _fail_if_node_exists, ret in H.
    destruct (_get_node name st) as [m|] eqn:Hn; [discriminate|]. cbn beta iota in H.
    unfold _get_directory_or_fail, _get_node_or_fail, bind in H.
    destruct (_get_node (parent_path name) st) as [p|]; [|discriminate].
    cbn beta iota in H. destruct (is_dir (heap st) p) eqn:Hd; [|discriminate].
    unfold new_directory in H. rewrite new_node_eq in H.
    rewrite add_child_dir in H by (apply is_dir_h_alloc; assumption).
    injection H as <- <-. exists p. auto. }
  split; [|split; [|split]].
  - intros H. destruct (Hc H) as (p & -> & -> & Hn & Hp & Hd).
    destruct (created_resolves (FileNode "") name st p Hwf Hw Hn Hp Hd) as (_ & H1 & H2 & _).
    split; [assumption|]. exact (proj1 (read_file_of _ _ _ _ _ H1 H2)).
  - intros H. destruct (Ht H) as [[-> Hn]|(p & -> & -> & Hn & Hp & Hd)]; [assumption|].
    destruct (created_resolves (FileNode "") name st p Hwf Hw Hn Hp Hd) as (_ & H1 & _).
    assumption.
  - intros H. destruct (Hm H) as (p & -> & -> & Hn & Hp & Hd).
    destruct (created_resolves (DirectoryNode p []) name st p Hwf Hw Hn Hp Hd)
      as (Hne & H1 & H2 & _).
    split; [assumption|]. apply (ls_of_directory name _ _ _ _ _ Hne H1 H2).
  - intros [H|[H|H]] q m Hq.
    + destruct (Hc H) as (p & -> & -> & Hn & Hp & Hd).
      destruct (created_resolves (FileNode "") name st p Hwf Hw Hn Hp Hd) as (_ & _ & _ & H3).
      apply H3. assumption.
    + destruct (Ht H) as [[-> Hn]|(p & -> & -> & Hn & Hp & Hd)]; [assumption|].
      destruct (created_resolves (FileNode "") name st p Hwf Hw Hn Hp Hd) as (_ & _ & _ & H3).
      apply H3. assumption.
    + destruct (Hm H) as (p & -> & -> & Hn & Hp & Hd).
      destruct (created_resolves (DirectoryNode p []) name st p Hwf Hw Hn Hp Hd)
        as (_ & _ & _ & H3).
      apply H3. assumption.
Qed.

(** A directory made under a path of two components from inside [/a]. *)
Lemma created_name_resolves_witness :
  stores_where_it_looks "../a/d" inside_a /\
  _get_node "../a/d" (snd (mkdir "../a/d" false inside_a)) = Some 2 /\
  ls (Some "../a/d") (snd (mkdir "../a/d" false inside_a))
  = (inr [], snd (mkdir "../a/d" false inside_a)).
Proof.
  assert (Hw : stores_where_it_looks "../a/d" inside_a).
  { left. unfold root_entry. vm_compute. discriminate. }
  split; [exact Hw|].
  exact (proj1 (proj2 (proj2 (created_name_resolves [Mkdir "a" false; Cd (Some "a")]
                                "../a/d" 2 (snd (mkdir "../a/d" false inside_a)) Hw)))
           eq_refl).
Defined.

(** The calls that create [name] when it does not resolve. *)
Lemma creating_call_effect (name : string) (st : FileSystem) (n : nat) (st' : FileSystem) :
  _get_node name st = None ->
  create_file name st = (inr n, st') \/ touch name st = (inr n, st') \/
  mkdir name false st = (inr n, st') ->
  exists o p,
    st' = with_heap (created o p (requested name) (heap st)) st /\
    n = length (heap st) /\
    _get_node (parent_path name) st = Some p /\ is_dir (heap st) p = true.
Proof.
  intros Hn [H|[H|H]].
  - destruct (create_file_effect name st) as [[e He]|(p & _ & Hp & Hd & He)];
      rewrite He in H; [discriminate|]. injection H as <- <-. eauto 10.
  - unfold touch in H. rewrite Hn in H.
    unfold bind, _get_directory_or_fail, _get_node_or_fail, bind in H.
    destruct (_get_node (parent_path name) st) as [p|]; [|discriminate].
    cbn beta iota in H. destruct (is_dir (heap st) p) eqn:Hd; [|discriminate].
    unfold new_file in H. rewrite new_node_eq in H.
    rewrite add_child_dir in H by (apply is_dir_h_alloc; assumption).
    injection H as <- <-. eauto 10.
  - unfold mkdir, bind, _fail_if_node_exists, ret in H. rewrite Hn in H. cbn beta iota in H.
    unfold _get_directory_or_fail, _get_node_or_fail, bind in H.
    destruct (_get_node (parent_path name) st) as [p|]; [|discriminate].
    cbn beta iota in H. destruct (is_dir (heap st) p) eqn:Hd; [|discriminate].
    unfold new_directory in H. rewrite new_node_eq in H.
    rewrite add_child_dir in H by (apply is_dir_h_alloc; assumption).
    injection H as <- <-. eauto 10.
Qed.

Lemma children_h_write (m : nat) (s : string) (h : list INode) (d : nat) :
  children (h_write m s h) d = children h d.
Proof.
  unfold h_write. destruct (h !! m) as [[l [s0|p ch]]|] eqn:E; try reflexivity.
  unfold children. destruct (decide (m = d)) as [->|Hne].
  - rewrite list_lookup_insert_eq by (eapply lookup_lt_Some; eassumption). rewrite E. reflexivity.
  - rewrite list_lookup_insert_ne by assumption. reflexivity.
Qed.

Lemma children_created (o : FileLike) (p : nat) (k : string) (h : list INode) :
  is_dir h p = true -> find_child h p k = None ->
  children (created o p k h) p = children h p ++ [(k, length h)].
Proof.
  intros Hd Hfree. pose proof (is_dir_lt _ _ Hd) as Hp.
  unfold created. rewrite children_h_add. rewrite Nat.eqb_refl.
  rewrite (is_dir_h_alloc _ _ _ Hd). rewrite children_h_alloc by assumption.
  apply (dict_set_fresh String.eqb). apply find_child_None_get. assumption.
Qed.

Lemma ls_of_node (q : string) (st : FileSystem) (d : nat) :
  _get_node q st = Some d -> is_dir (heap st) d = true ->
  ls (Some q) st = (inr (map fst (children (heap st) d)), st).
Proof.
  intros Hq Hd. unfold ls, bind. change (arg (Some q)) with q.
  destruct (String.eqb q "") eqn:E.
  - apply String.eqb_eq in E. subst q. injection Hq as <-. reflexivity.
  - unfold _get_directory_or_fail, _get_node_or_fail, bind. rewrite Hq. cbn beta iota.
    rewrite Hd. reflexivity.
Qed.

Lemma store_grows_is_dir (h h' : list INode) (a : nat) :
  store_grows h h' -> is_dir h a = true -> is_dir h' a = true.
Proof.
  intros [_ Hg] Hd. rewrite (proj1 (Hg a (is_dir_lt _ _ Hd))). assumption.
Qed.

(** X10.  A listing is in creation order.  After any sequence of calls on
    a fresh system, when [create_file], [touch], [mkdir] (without
    [create_intermediates]) or [write_file] creates [name], the listing of
    its parent path is the listing before the call with the final component
    of [name] added at the end, and that component was not in it.  The
    names excepted are the absolute [/r] given from below the root. *)
Theorem new_name_is_listed_last (ops : list Op) (name : string) (n : nat)
    (st' : FileSystem) :
  stores_where_it_looks name (run ops init_fs) ->
  _get_node name (run ops init_fs) = None ->
  create_file name (run ops init_fs) = (inr n, st') \/
  touch name (run ops init_fs) = (inr n, st') \/
  mkdir name false (run ops init_fs) = (inr n, st') \/
  (exists contents, write_file name contents (run ops init_fs) = (inr n, st')) ->
  exists l,
    ls (Some (parent_path name)) (run ops init_fs) = (inr l, run ops init_fs) /\
    ls (Some (parent_path name)) st' = (inr (l ++ [requested name]), st') /\
    ~ In (requested name) l.
Proof.
  intros Hw Hn H. pose proof (run_wf ops init_fs init_fs_wf) as Hwf.
  remember (run ops init_fs) as st eqn:Est. clear Est.
  assert (Hne : name <> "") by (intros ->; discriminate).
  assert (Hcase : exists o p c,
             (st' = with_heap (created o p (requested name) (heap st)) st \/
              st' = with_heap (h_write (length (heap st)) c
                                 (created o p (requested name) (heap st))) st) /\
             _get_node (parent_path name) st = Some p /\ is_dir (heap st) p = true).
  { destruct H as [H|[H|[H|[c H]]]].
    - destruct (creating_call_effect name st n st' Hn (or_introl H)) as (o & p & -> & _ & Hp & Hd).
      exists o, p, "". auto.
    - destruct (creating_call_effect name st n st' Hn (or_intror (or_introl H)))
        as (o & p & -> & _ & Hp & Hd).
      exists o, p, "". auto.
    - destruct (creating_call_effect name st n st' Hn (or_intror (or_intror H)))
        as (o & p & -> & _ & Hp & Hd).
      exists o, p, "". auto.
    - pose proof (write_file_effect name c st) as He. rewrite H in He. simpl in He.
      destruct He as [->|[(m & Hm & _)|(p & _ & Hp & Hd & ->)]].
      + exfalso. unfold write_file in H. rewrite Hn in H. unfold bind in H.
        destruct (create_file_effect name st) as [[e He]|(p & _ & Hp & Hd & He)];
          rewrite He in H; [discriminate|].
        pose proof (f_equal (fun r => length (heap (snd r))) H) as Hl. simpl in Hl.
        rewrite write_contents_snd in Hl. simpl in Hl.
        rewrite h_write_length, created_length in Hl. lia.
      + congruence.
      + exists (FileNode ""), p, c. auto. }
  destruct Hcase as (o & p & c & Hst & Hp & Hd).
  pose proof (free_slot name st p Hne Hw Hn Hp Hd) as Hfree.
  destruct (lookup_created o name st p Hwf Hne Hw Hn Hp Hd) as [Hg _]. cbv zeta in Hg.
  change (heap (with_heap (created o p (requested name) (heap st)) st))
    with (created o p (requested name) (heap st)) in Hg.
  pose proof (get_node_kept _ _ _ _ Hwf Hg Hp) as Hp1.
  exists (map fst (children (heap st) p)). split; [apply ls_of_node; assumption|]. split.
  - destruct Hst as [->| ->].
    + rewrite (ls_of_node _ _ p Hp1) by (eapply store_grows_is_dir; eassumption).
      simpl heap. rewrite children_created by assumption. rewrite map_app. reflexivity.
    + assert (Hg2 : store_grows (heap st)
                      (h_write (length (heap st)) c (created o p (requested name) (heap st)))).
      { eapply store_grows_trans; [exact Hg|apply store_grows_write]. }
      pose proof (get_node_kept _ _ _ _ Hwf Hg2 Hp) as Hp2.
      rewrite (ls_of_node _ _ p Hp2)
        by (eapply store_grows_is_dir; eassumption).
      simpl heap. rewrite children_h_write, children_created by assumption.
      rewrite map_app. reflexivity.
  - apply (dict_get_None_keys String.eqb String.eqb_eq). apply find_child_None_get. assumption.
Qed.

(** A second file made in a directory [d] that holds one. *)
Lemma new_name_is_listed_last_witness :
  stores_where_it_looks "d/c" (run [Mkdir "d" false; Touch "d/b"] init_fs) /\
  _get_node "d/c" (run [Mkdir "d" false; Touch "d/b"] init_fs) = None /\
  exists l,
    ls (Some (parent_path "d/c")) (run [Mkdir "d" false; Touch "d/b"] init_fs)
    = (inr l, run [Mkdir "d" false; Touch "d/b"] init_fs) /\
    ls (Some (parent_path "d/c"))
      (snd (touch "d/c" (run [Mkdir "d" false; Touch "d/b"] init_fs)))
    = (inr (l ++ [requested "d/c"]),
       snd (touch "d/c" (run [Mkdir "d" false; Touch "d/b"] init_fs))) /\
    ~ In (requested "d/c") l.
Proof.
  assert (Hw : stores_where_it_looks "d/c" (run [Mkdir "d" false; Touch "d/b"] init_fs)).
  { left. unfold root_entry. vm_compute. discriminate. }
  split; [exact Hw|]. split; [reflexivity|].
  apply (new_name_is_listed_last [Mkdir "d" false; Touch "d/b"] "d/c" 3
           (snd (touch "d/c" (run [Mkdir "d" false; Touch "d/b"] init_fs))) Hw eq_refl).
  right. left. reflexivity.
Defined.

Lemma dict_get_del_ne {V} (k k' : string) (d : list (string * V)) :
  k <> k' -> dict_get String.eqb k' (dict_del String.eqb k d) = dict_get String.eqb k' d.
Proof.
  intros Hne. induction d as [|[k0 v0] d IH]; simpl; [reflexivity|].
  destruct (String.eqb k0 k) eqn:E; simpl.
  - apply String.eqb_eq in E. subst k0.
    rewrite (proj2 (String.eqb_neq k k') Hne). reflexivity.
  - destruct (String.eqb k0 k'); auto.
Qed.

Lemma dict_get_del_eq {V} (k : string) (d : list (string * V)) :
  List.NoDup (map fst d) -> dict_get String.eqb k (dict_del String.eqb k d) = None.
Proof.
  induction d as [|[k0 v0] d IH]; simpl; intros Hd; [reflexivity|].
  inversion Hd as [|? ? Hnin Hd']; subst.
  destruct (String.eqb k0 k) eqn:E; simpl.
  - apply String.eqb_eq in E. subst k0.
    apply (dict_get_None_keys String.eqb String.eqb_eq). assumption.
  - rewrite E. auto.
Qed.

Lemma find_child_h_links (m : nat) (z : Z) (h : list INode) (a : nat) (k : string) :
  find_child (h_links m z h) a k = find_child h a k.
Proof.
  unfold h_links. destruct (h !! m) as [nd|] eqn:E; [|reflexivity].
  unfold find_child. destruct (decide (m = a)) as [->|Hne].
  - rewrite list_lookup_insert_eq by (eapply lookup_lt_Some; eassumption). rewrite E.
    destruct nd as [l [s|p ch]]; reflexivity.
  - rewrite list_lookup_insert_ne by assumption. reflexivity.
Qed.

Lemma is_dir_h_del (d : nat) (k : string) (h : list INode) (a : nat) :
  is_dir (h_del d k h) a = is_dir h a.
Proof.
  unfold h_del. destruct (h !! d) as [[l [s|p ch]]|] eqn:E; try reflexivity.
  unfold is_dir. destruct (decide (d = a)) as [->|Hne].
  - rewrite list_lookup_insert_eq by (eapply lookup_lt_Some; eassumption). rewrite E.
    reflexivity.
  - rewrite list_lookup_insert_ne by assumption. reflexivity.
Qed.

Lemma entry_removed_del (p : nat) (r : string) (h : list INode) :
  names_unique h -> is_dir h p = true -> reserved r = false ->
  entry_removed p r h (h_del p r h).
Proof.
  intros Hu Hd Hr. split; [intros a; apply is_dir_h_del|].
  unfold h_del. pose proof (is_dir_lt _ _ Hd) as Hlt.
  unfold is_dir in Hd. destruct (h !! p) as [[l [s|pp ch]]|] eqn:E; try discriminate.
  split.
  - intros a part Hne. unfold find_child. destruct (decide (p = a)) as [<-|Hpa].
    + rewrite list_lookup_insert_eq by assumption. rewrite E.
      destruct Hne as [Hne|Hne]; [contradiction|].
      rewrite dict_get_del_ne by congruence. reflexivity.
    + rewrite list_lookup_insert_ne by assumption. reflexivity.
  - unfold find_child. rewrite list_lookup_insert_eq by assumption.
    rewrite dict_get_del_eq.
    + unfold meta_get. apply orb_false_elim in Hr as [H1 H2]. rewrite H1, H2. reflexivity.
    + exact (Forall_lookup_1 _ _ _ _ Hu E).
Qed.

(** Without an entry a lookup fails or finds what it found. *)
Lemma lookup_entry_removed (p : nat) (r : string) (h h' : list INode)
    (parts : list string) (a : nat) :
  entry_removed p r h h' ->
  fold_left (get_node_step h') parts (Some a) = None \/
  fold_left (get_node_step h') parts (Some a) = fold_left (get_node_step h) parts (Some a).
Proof.
  intros (Hd & Hf & Hnone). revert a. induction parts as [|part parts IH]; intros a; simpl;
    [right; reflexivity|].
  rewrite Hd. destruct (is_dir h a) eqn:Ed; [|apply IH].
  destruct (Nat.eq_dec a p) as [->|Hap]; [destruct (string_dec part r) as [->|Hpr]|].
  - rewrite Hnone. left. apply fold_get_node_None.
  - rewrite Hf by (right; assumption).
    destruct (find_child h p part) as [c|]; [apply IH|].
    left. apply fold_get_node_None.
  - rewrite Hf by (left; assumption).
    destruct (find_child h a part) as [c|]; [apply IH|].
    left. apply fold_get_node_None.
Qed.

Lemma get_node_entry_removed (p : nat) (r : string) (st : FileSystem) (h' : list INode)
    (q : string) :
  entry_removed p r (heap st) h' ->
  _get_node q (with_heap h' st) = None \/ _get_node q (with_heap h' st) = _get_node q st.
Proof.
  intros He. unfold _get_node. destruct (String.eqb q ""); [right; reflexivity|].
  apply (lookup_entry_removed p r). assumption.
Qed.

(** What [rm] did when it returns. *)
Lemma rm_returns (name : string) (recursive : bool) (st : FileSystem) (c : nat)
    (st' : FileSystem) :
  rm name recursive st = (inr c, st') ->
  exists n p,
    _get_node name st = Some n /\
    _get_node (parent_path name) st = Some p /\ is_dir (heap st) p = true /\
    dict_get String.eqb (requested name) (children (heap st) p) = Some c /\
    st' = with_heap (h_del p (requested name) (h_links n (-1) (heap st))) st.
Proof.
  unfold rm, bind, _get_directory_or_fail, _get_node_or_fail, bind.
  destruct (_get_node name st) as [n|] eqn:Hn; [|discriminate]. cbn beta iota.
  destruct (is_dir (heap st) n && negb recursive); [discriminate|].
  destruct (_get_node (parent_path name) st) as [p|] eqn:Hp; [|discriminate].
  cbn beta iota. destruct (is_dir (heap st) p) eqn:Hd; [|discriminate].
  pose proof (add_links_snd n (-1) st) as Hs.
  destruct (add_links n (-1) st) as [[e|[]] st1]; [discriminate|].
  simpl in Hs. subst st1. intros H.
  pose proof (delete_child_snd p (requested name)
                (with_heap (h_links n (-1) (heap st)) st)) as Hs.
  rewrite H in Hs. simpl in Hs. exists n, p.
  repeat (split; [assumption || reflexivity|]). split; [|assumption].
  unfold delete_child in H. simpl heap in H.
  pose proof (children_h_links n (-1) (heap st) p) as Hch. unfold children in Hch.
  destruct (h_links n (-1) (heap st) !! p) as [[l [s|pp ch]]|]; try discriminate.
  unfold children. rewrite <- Hch.
  destruct (dict_get String.eqb (requested name) ch) as [c'|]; [|discriminate].
  injection H as <- _. reflexivity.
Qed.

Lemma find_child_of_children (h : list INode) (p : nat) (r : string) (c : nat) :
  dict_get String.eqb r (children h p) = Some c -> find_child h p r = Some c.
Proof.
  unfold children, find_child. destruct (h !! p) as [[l [s|pp ch]]|]; try discriminate.
  intros ->. reflexivity.
Qed.

(** X11.  [rm] removes the name.  After any sequence of calls on a fresh
    system, when [rm(name)] returns for a name that is not empty, it
    returns the node [name] resolved to, [name] resolves no longer, and a
    path that resolves after the call resolved to the same node before it.
    The names excepted are the absolute [/r] given from below the root and
    those that end in [.] or [..]. *)
Theorem rm_removes_the_name (ops : list Op) (name : string) (recursive : bool)
    (c : nat) (st' : FileSystem) :
  name <> "" ->
  stores_where_it_looks name (run ops init_fs) ->
  reserved (requested name) = false ->
  rm name recursive (run ops init_fs) = (inr c, st') ->
  _get_node name (run ops init_fs) = Some c /\
  _get_node name st' = None /\
  (forall q d, _get_node q st' = Some d -> _get_node q (run ops init_fs) = Some d).
Proof.
  intros Hne Hw Hr H.
  pose proof (run_names_unique ops init_fs init_fs_names_unique) as Hu.
  remember (run ops init_fs) as st eqn:Est. clear Est.
  destruct (rm_returns _ _ _ _ _ H) as (n & p & Hn & Hp & Hd & Hc & ->). clear H.
  assert (He : entry_removed p (requested name) (heap st)
                 (h_del p (requested name) (h_links n (-1) (heap st)))).
  { destruct (entry_removed_del p (requested name) (h_links n (-1) (heap st)))
      as (H1 & H2 & H3).
    - apply names_unique_links. assumption.
    - rewrite is_dir_h_links. assumption.
    - assumption.
    - split; [|split].
      + intros a. rewrite H1. apply is_dir_h_links.
      + intros a part Hap. rewrite H2 by assumption. apply find_child_h_links.
      + assumption. }
  split; [|split].
  - rewrite (get_node_via_parent name st Hne Hw), Hp. simpl. rewrite Hd.
    apply find_child_of_children. assumption.
  - rewrite get_node_via_parent by assumption.
    destruct (get_node_entry_removed p (requested name) st _ (parent_path name) He)
      as [Hq|Hq]; rewrite Hq; [reflexivity|].
    rewrite Hp. simpl. destruct He as (H1 & _ & H3). rewrite H1, Hd. assumption.
  - intros q d Hq.
    destruct (get_node_entry_removed p (requested name) st _ q He) as [Hq'|Hq'];
      rewrite Hq' in Hq; [discriminate|assumption].
Qed.

(** A file removed from a directory that holds two. *)
Lemma rm_removes_the_name_witness :
  "d/b" <> "" /\
  stores_where_it_looks "d/b" (run [Mkdir "d" false; Touch "d/b"; Touch "d/c"] init_fs) /\
  reserved (requested "d/b") = false /\
  _get_node "d/b" (run [Mkdir "d" false; Touch "d/b"; Touch "d/c"] init_fs) = Some 2 /\
  _get_node "d/b"
    (snd (rm "d/b" false (run [Mkdir "d" false; Touch "d/b"; Touch "d/c"] init_fs)))
  = None.
Proof.
  assert (H0 : "d/b" <> "") by discriminate.
  assert (Hw : stores_where_it_looks "d/b"
                 (run [Mkdir "d" false; Touch "d/b"; Touch "d/c"] init_fs)).
  { left. unfold root_entry. vm_compute. discriminate. }
  destruct (rm_removes_the_name [Mkdir "d" false; Touch "d/b"; Touch "d/c"] "d/b" false 2
              (snd (rm "d/b" false
                      (run [Mkdir "d" false; Touch "d/b"; Touch "d/c"] init_fs)))
              H0 Hw eq_refl eq_refl) as (H1 & H2 & _).
  repeat split; assumption.
Defined.

(** What [ln] did when it returns. *)
Lemma ln_returns (target dest : string) (st : FileSystem) (t : nat) (st' : FileSystem) :
  ln target dest st = (inr t, st') ->
  exists p,
    _get_node target st = Some t /\
    _get_node (parent_path dest) st = Some p /\ is_dir (heap st) p = true /\
    st' = with_heap (h_add p (requested dest) t (h_links t 1 (heap st))) st.
Proof.
  unfold ln, bind, _get_directory_or_fail, _get_node_or_fail, bind.
  destruct (_get_node target st) as [t0|] eqn:Ht; [|discriminate]. cbn beta iota.
  destruct (_get_node (parent_path dest) st) as [p|] eqn:Hp; [|discriminate].
  cbn beta iota. destruct (is_dir (heap st) p) eqn:Hd; [|discriminate].
  pose proof (add_links_snd t0 1 st) as Hs.
  destruct (add_links t0 1 st) as [[e|[]] st1]; [discriminate|].
  simpl in Hs. subst st1.
  rewrite add_child_dir by (simpl; rewrite is_dir_h_links; assumption).
  intros [= <- <-]. exists p. auto.
Qed.

Lemma find_child_h_add_new (p : nat) (k : string) (c : nat) (h : list INode) :
  is_dir h p = true -> find_child (h_add p k c h) p k = Some c.
Proof.
  intros Hd. pose proof (is_dir_lt _ _ Hd) as Hp. unfold h_add.
  unfold is_dir in Hd. destruct (h !! p) as [[l [s|pp ch]]|] eqn:E; try discriminate.
  unfold find_child. rewrite list_lookup_insert_eq by assumption.
  rewrite (dict_get_set_eq String.eqb String.eqb_eq). reflexivity.
Qed.

(** Writing under a name that resolves: the node it resolves to holds the
    contents, and is read under every name of that node. *)
Lemma write_resolved (name contents : string) (st : FileSystem) (m n : nat)
    (st' : FileSystem) :
  wf st -> _get_node name st = Some m ->
  write_file name contents st = (inr n, st') ->
  n = m /\
  forall q, _get_node q st = Some m ->
    read_file q false st' = (inr (Contents contents), st') /\
    read_file q true st' = (inr (Stream (list_ascii_of_string contents)), st').
Proof.
  intros Hwf Hn. unfold write_file. rewrite Hn.
  destruct (is_dir (heap st) m) eqn:Hd; [discriminate|].
  destruct (heap st !! m) as [[l [s0|p ch]]|] eqn:E;
    try (unfold write_contents; rewrite E; discriminate).
  destruct (write_contents_file m contents st l s0 E) as [Hwr Hlk].
  rewrite Hwr. intros [= <- <-]. split; [reflexivity|]. intros q Hq.
  pose proof (store_grows_write m contents (heap st)) as Hg.
  pose proof (get_node_kept _ _ _ _ Hwf Hg Hq) as Hq'.
  eapply read_file_of; [eassumption|]. simpl. eassumption.
Qed.

(** X12.  [ln] gives a node a second name.  After any sequence of calls
    on a fresh system, when [ln(target, dest)] returns for a [dest] that
    did not resolve, it returns the node of [target], both names resolve
    to that node, what is written under either name is read under the
    other, and every path that resolved before the call resolves to the
    same node after it.  The names excepted for [dest] are the absolute
    [/r] given from below the root. *)
Theorem ln_gives_a_second_name (ops : list Op) (target dest : string) (t : nat)
    (st' : FileSystem) :
  stores_where_it_looks dest (run ops init_fs) ->
  _get_node dest (run ops init_fs) = None ->
  ln target dest (run ops init_fs) = (inr t, st') ->
  _get_node target (run ops init_fs) = Some t /\
  _get_node dest st' = Some t /\
  (forall q m, _get_node q (run ops init_fs) = Some m -> _get_node q st' = Some m) /\
  (forall contents n st'',
     write_file dest contents st' = (inr n, st'') ->
     read_file target false st'' = (inr (Contents contents), st'')) /\
  (forall contents n st'',
     write_file target contents st' = (inr n, st'') ->
     read_file dest false st'' = (inr (Contents contents), st'')).
Proof.
  intros Hw Hn H. pose proof (run_wf ops init_fs init_fs_wf) as Hwf.
  remember (run ops init_fs) as st eqn:Est. clear Est.
  assert (Hwf' : wf st').
  { pose proof (step_wf (Ln target dest) st Hwf) as H1. unfold step in H1.
    rewrite snd_fmap_M, H in H1. exact H1. }
  assert (Hne : dest <> "") by (intros ->; discriminate).
  destruct (ln_returns _ _ _ _ _ H) as (p & Ht & Hp & Hd & ->). clear H.
  pose proof (free_slot dest st p Hne Hw Hn Hp Hd) as Hfree.
  assert (Hg : store_grows (heap st)
                 (h_add p (requested dest) t (h_links t 1 (heap st)))).
  { eapply store_grows_trans; [apply store_grows_links|].
    apply store_grows_add. rewrite find_child_h_links. assumption. }
  assert (Hkept : forall q m, _get_node q st = Some m ->
            _get_node q (with_heap (h_add p (requested dest) t (h_links t 1 (heap st))) st)
            = Some m).
  { intros q m Hq. apply get_node_kept; assumption. }
  assert (Hdest : _get_node dest
                    (with_heap (h_add p (requested dest) t (h_links t 1 (heap st))) st)
                  = Some t).
  { rewrite get_node_via_parent by assumption. rewrite (Hkept _ _ Hp). simpl.
    rewrite (store_grows_is_dir _ _ _ Hg Hd).
    apply find_child_h_add_new. rewrite is_dir_h_links. assumption. }
  split; [assumption|]. split; [assumption|]. split; [assumption|]. split.
  - intros c n st'' Hwr.
    destruct (write_resolved dest c _ t n st'' Hwf' Hdest Hwr) as [_ Hread].
    apply (Hread target). apply Hkept. assumption.
  - intros c n st'' Hwr.
    destruct (write_resolved target c _ t n st'' Hwf' (Hkept _ _ Ht) Hwr) as [_ Hread].
    apply (Hread dest). assumption.
Qed.

(** A file [f] linked as [d/g], then written under the new name. *)
Lemma ln_gives_a_second_name_witness :
  stores_where_it_looks "d/g" (run [Mkdir "d" false; WriteFile "f" "old"] init_fs) /\
  read_file "f" false
    (snd (write_file "d/g" "new"
            (snd (ln "f" "d/g" (run [Mkdir "d" false; WriteFile "f" "old"] init_fs)))))
  = (inr (Contents "new"),
     snd (write_file "d/g" "new"
            (snd (ln "f" "d/g" (run [Mkdir "d" false; WriteFile "f" "old"] init_fs))))).
Proof.
  assert (Hw : stores_where_it_looks "d/g"
                 (run [Mkdir "d" false; WriteFile "f" "old"] init_fs)).
  { left. unfold root_entry. vm_compute. discriminate. }
  split; [exact Hw|].
  destruct (ln_gives_a_second_name [Mkdir "d" false; WriteFile "f" "old"] "f" "d/g" 2
              (snd (ln "f" "d/g" (run [Mkdir "d" false; WriteFile "f" "old"] init_fs)))
              Hw eq_refl eq_refl) as (_ & _ & _ & H4 & _).
  apply (H4 "new" 2). reflexivity.
Defined.

(** The calls that create refuse a name that resolves, and [touch] hands
    back the node it resolves to; none changes the state. *)
Lemma resolved_name_is_kept (name : string) (st : FileSystem) (n : nat) :
  _get_node name st = Some n ->
  create_file name st = (inl (FileExists name), st) /\
  (forall ci, mkdir name ci st = (inl (FileExists name), st)) /\
  touch name st = (inr n, st).
Proof.
  intros Hn. unfold create_file, mkdir, touch, bind, _fail_if_node_exists.
  rewrite Hn. repeat split.
Qed.

(** X13.  A name is created once.  After any sequence of calls on a fresh
    system, when [create_file], [touch], [mkdir] (without
    [create_intermediates]) or [write_file] returns a node for [name], a
    second [create_file] or [mkdir] of the name raises [FileExists], a
    [touch] of it returns the same node, and none of the three changes the
    state.  The names excepted are the absolute [/r] given from below the
    root. *)
Theorem name_is_created_once (ops : list Op) (name : string) (n : nat)
    (st' : FileSystem) :
  stores_where_it_looks name (run ops init_fs) ->
  create_file name (run ops init_fs) = (inr n, st') \/
  touch name (run ops init_fs) = (inr n, st') \/
  mkdir name false (run ops init_fs) = (inr n, st') \/
  (exists contents, write_file name contents (run ops init_fs) = (inr n, st')) ->
  create_file name st' = (inl (FileExists name), st') /\
  (forall ci, mkdir name ci st' = (inl (FileExists name), st')) /\
  touch name st' = (inr n, st').
Proof.
  intros Hw H. pose proof (run_wf ops init_fs init_fs_wf) as Hwf.
  remember (run ops init_fs) as st eqn:Est. clear Est.
  apply resolved_name_is_kept.
  destruct (_get_node name st) as [m|] eqn:Hn.
  - destruct H as [H|[H|[H|[c H]]]].
    + destruct (resolved_name_is_kept name st m Hn) as (H1 & _). congruence.
    + destruct (resolved_name_is_kept name st m Hn) as (_ & _ & H3).
      rewrite H3 in H. injection H as <- <-. assumption.
    + destruct (resolved_name_is_kept name st m Hn) as (_ & H2 & _).
      rewrite H2 in H. discriminate.
    + destruct (write_then_read_wf name c st n st' Hwf Hw H) as (_ & H1 & _). assumption.
  - destruct H as [H|[H|[H|[c H]]]].
    + destruct (creating_call_effect name st n st' Hn (or_introl H))
        as (o & p & -> & -> & Hp & Hd).
      destruct (created_resolves o name st p Hwf Hw Hn Hp Hd) as (_ & H1 & _). exact H1.
    + destruct (creating_call_effect name st n st' Hn (or_intror (or_introl H)))
        as (o & p & -> & -> & Hp & Hd).
      destruct (created_resolves o name st p Hwf Hw Hn Hp Hd) as (_ & H1 & _). exact H1.
    + destruct (creating_call_effect name st n st' Hn (or_intror (or_intror H)))
        as (o & p & -> & -> & Hp & Hd).
      destruct (created_resolves o name st p Hwf Hw Hn Hp Hd) as (_ & H1 & _). exact H1.
    + destruct (write_then_read_wf name c st n st' Hwf Hw H) as (_ & H1 & _). assumption.
Qed.

(** A directory made twice from inside [/a]. *)
Lemma name_is_created_once_witness :
  stores_where_it_looks "b" inside_a /\
  mkdir "b" true (snd (mkdir "b" false inside_a))
  = (inl (FileExists "b"), snd (mkdir "b" false inside_a)) /\
  touch "b" (snd (mkdir "b" false inside_a)) = (inr 2, snd (mkdir "b" false inside_a)).
Proof.
  assert (Hw : stores_where_it_looks "b" inside_a).
  { left. unfold root_entry. vm_compute. discriminate. }
  destruct (name_is_created_once [Mkdir "a" false; Cd (Some "a")] "b" 2
              (snd (mkdir "b" false inside_a)) Hw
              (or_intror (or_intror (or_introl eq_refl)))) as (_ & H2 & H3).
  split; [exact Hw|]. split; [apply H2|exact H3].
Defined.

(** The loop of [_create_tree]: the store grows, a walk that ends has made
    every part resolve, and a walk that raises has met a file. *)
Lemma create_tree_walk_resolves (parts : list string) :
  forall (node : nat) (st : FileSystem),
    closed (heap st) -> node < length (heap st) ->
    store_grows (heap st) (heap (snd (create_tree_walk parts node st))) /\
    closed (heap (snd (create_tree_walk parts node st))) /\
    match fst (create_tree_walk parts node st) with
    | inr _ =>
        exists n', fold_left (get_node_step (heap (snd (create_tree_walk parts node st))))
                     parts (Some node) = Some n'
    | inl e => exists part, In part parts /\ e = FileExists part
    end.
Proof.
  induction parts as [|name parts IH]; intros node st Hc Hlt; simpl.
  - split; [apply store_grows_refl|]. split; [assumption|]. eauto.
  - destruct (is_file (heap st) node) eqn:Hf; simpl.
    { split; [apply store_grows_refl|]. split; [assumption|]. eauto. }
    pose proof (not_file_is_dir _ _ Hlt Hf) as Hd.
    destruct (find_child (heap st) node name) as [c|] eqn:F.
    + assert (Hcl : c < length (heap st)) by (eapply find_child_valid; eassumption).
      destruct (IH c st Hc Hcl) as (Hg & Hc' & Hres).
      split; [assumption|]. split; [assumption|].
      destruct (fst (create_tree_walk parts c st)) as [e|[]].
      * destruct Hres as (part & Hin & ->). eauto.
      * rewrite (store_grows_is_dir _ _ _ Hg Hd).
        rewrite (proj2 (proj2 Hg node Hlt) _ _ F). assumption.
    + unfold bind, new_directory. rewrite new_node_eq.
      rewrite add_child_dir by (apply is_dir_h_alloc; assumption).
      change (with_heap (h_add node name (length (heap st))
                           (heap (with_heap (h_alloc (DirectoryNode node []) (heap st)) st)))
                (with_heap (h_alloc (DirectoryNode node []) (heap st)) st))
        with (with_heap (created (DirectoryNode node []) node name (heap st)) st).
      set (st1 := with_heap (created (DirectoryNode node []) node name (heap st)) st).
      assert (Hc1 : closed (heap st1)).
      { apply closed_created; [assumption|]. apply closed_new_dir. lia. }
      assert (Hg1 : store_grows (heap st) (heap st1)).
      { apply store_grows_created; assumption. }
      assert (Hl1 : length (heap st) < length (heap st1)).
      { simpl. rewrite created_length. lia. }
      destruct (IH (length (heap st)) st1 Hc1 Hl1) as (Hg & Hc' & Hres).
      split; [eapply store_grows_trans; eassumption|]. split; [assumption|].
      destruct (fst (create_tree_walk parts (length (heap st)) st1)) as [e|[]].
      * destruct Hres as (part & Hin & ->). eauto.
      * rewrite (store_grows_is_dir _ _ _ (store_grows_trans _ _ _ Hg1 Hg) Hd).
        assert (F1 : find_child (heap st1) node name = Some (length (heap st)))
          by (apply find_child_created_new; assumption).
        rewrite (proj2 (proj2 Hg node ltac:(lia)) _ _ F1). assumption.
Qed.

Lemma same_session_with_heap (st st' : FileSystem) :
  same_session st st' -> st' = with_heap (heap st') st.
Proof.
  destruct st, st'. unfold same_session, with_heap. simpl. intros (-> & -> & ->). reflexivity.
Qed.

Lemma create_tree_resolves (name : string) (st : FileSystem) :
  wf st ->
  store_grows (heap st) (heap (snd (_create_tree name st))) /\
  wf (snd (_create_tree name st)) /\
  match fst (_create_tree name st) with
  | inr _ => exists n, _get_node name (snd (_create_tree name st)) = Some n
  | inl e => exists part, In part (split (strip name)) /\ e = FileExists part
  end.
Proof.
  intros Hwf. pose proof (create_tree_wf name st Hwf) as Hwf'.
  pose proof (create_tree_session name st) as Hs.
  assert (Ha : anchor name st < length (heap st)).
  { unfold anchor. destruct (is_root_relative name); apply Hwf. }
  unfold _create_tree in *.
  destruct (create_tree_walk_resolves (split (strip name)) (anchor name st) st
              (wf_closed _ Hwf) Ha) as (Hg & _ & Hres).
  split; [assumption|]. split; [assumption|].
  destruct (fst (create_tree_walk (split (strip name)) (anchor name st) st)) as [e|[]];
    [assumption|].
  destruct Hres as [n' Hn']. unfold _get_node.
  destruct (String.eqb name ""); [eauto|].
  exists n'. destruct Hs as (H1 & _ & H3). unfold anchor in *. rewrite H1, H3. assumption.
Qed.

(** X14.  [_create_tree] makes the path.  After any sequence of calls on
    a fresh system: when [_create_tree(name)] returns, [name] resolves;
    when it raises, it raises [FileExists] for a part of [name]; either
    way every path that resolved before resolves to the same node after.
    So [mkdir] with [create_intermediates] never raises
    [NoSuchFileOrDirectory]: it raises [FileExists], or [NotADirectory]
    for the parent path. *)
Theorem create_tree_makes_the_path (ops : list Op) (name : string) :
  (forall q m, _get_node q (run ops init_fs) = Some m ->
     _get_node q (snd (_create_tree name (run ops init_fs))) = Some m) /\
  (fst (_create_tree name (run ops init_fs)) = inr tt ->
   exists n, _get_node name (snd (_create_tree name (run ops init_fs))) = Some n) /\
  (forall e, fst (_create_tree name (run ops init_fs)) = inl e ->
   exists part, In part (split (strip name)) /\ e = FileExists part) /\
  (forall e st', mkdir name true (run ops init_fs) = (inl e, st') ->
   (exists part, e = FileExists part) \/ e = NotADirectory (parent_path name)).
Proof.
  pose proof (run_wf ops init_fs init_fs_wf) as Hwf.
  remember (run ops init_fs) as st eqn:Est. clear Est.
  split; [|split; [|split]].
  - intros q m Hq. destruct (create_tree_resolves name st Hwf) as (Hg & _ & _).
    rewrite (same_session_with_heap _ _ (create_tree_session name st)).
    apply get_node_kept; assumption.
  - intros H. destruct (create_tree_resolves name st Hwf) as (_ & _ & Hres).
    rewrite H in Hres. assumption.
  - intros e H. destruct (create_tree_resolves name st Hwf) as (_ & _ & Hres).
    rewrite H in Hres. assumption.
  - intros e st' H. unfold mkdir, bind, _fail_if_node_exists in H.
    destruct (_get_node name st) as [m|]; [injection H as <- _; eauto|].
    cbn beta iota in H.
    destruct (create_tree_resolves (parent_path name) st Hwf) as (_ & _ & Hres).
    destruct (_create_tree (parent_path name) st) as [[e1|[]] st1]; simpl in Hres.
    + injection H as <- _. destruct Hres as (part & _ & ->). eauto.
    + destruct Hres as [p Hp].
      unfold _get_directory_or_fail, _get_node_or_fail, bind in H. rewrite Hp in H.
      cbn beta iota in H. destruct (is_dir (heap st1) p) eqn:Hd.
      * unfold new_directory in H. rewrite new_node_eq in H.
        rewrite add_child_dir in H by (apply is_dir_h_alloc; assumption).
        discriminate.
      * injection H as <- _. auto.
Qed.

(** Two directories made beside a file [f]. *)
Lemma create_tree_makes_the_path_witness :
  (exists n, _get_node "a/b" (snd (_create_tree "a/b" (run [Touch "f"] init_fs))) = Some n) /\
  _get_node "f" (snd (_create_tree "a/b" (run [Touch "f"] init_fs))) = Some 1.
Proof.
  destruct (create_tree_makes_the_path [Touch "f"] "a/b") as (H1 & H2 & _).
  split; [apply H2; reflexivity|apply H1; reflexivity].
Defined.

Lemma list_pop_snoc {A} (l : list A) (x : A) : list_pop (l ++ [x]) = Some (x, l).
Proof.
  destruct l as [|a l]; [reflexivity|].
  change (list_pop ((a :: l) ++ [x]))
    with (Some (List.last (l ++ [x]) a, removelast ((a :: l) ++ [x]))).
  rewrite List.last_last, removelast_last. reflexivity.
Qed.

Lemma last_default {A} (l : list A) (d d' : A) : l <> [] -> List.last l d = List.last l d'.
Proof.
  induction l as [|a l IH]; [congruence|]. intros _.
  destruct l as [|b l]; [reflexivity|].
  change (List.last (b :: l) d = List.last (b :: l) d'). apply IH. discriminate.
Qed.

Lemma last_cons_first {A} (a : A) (l : list A) (d : A) :
  List.last (a :: l) d = List.last l a.
Proof.
  destruct l as [|b l]; [reflexivity|].
  change (List.last (b :: l) d = List.last (b :: l) a). apply last_default. discriminate.
Qed.

Lemma list_pop_app_snoc {A} (l1 l2 : list A) (x : A) :
  list_pop (l1 ++ l2 ++ [x]) = Some (x, l1 ++ l2).
Proof. rewrite app_assoc. apply list_pop_snoc. Qed.

(** The loop of [_resolve_path] along parts that are not [.] or [..]: it
    appends one pair for each part. *)
Lemma resolve_walk_plain (h : list INode) (nm : string) (parts : list string) :
  forall (node : nat) (path : list (string * nat)) (n : nat),
    Forall (fun p => reserved p = false) parts -> is_dir h node = true ->
    fold_left (get_node_step h) parts (Some node) = Some n -> is_dir h n = true ->
    exists ext,
      resolve_walk h nm parts node path = (None, path ++ ext) /\
      map fst ext = parts /\ List.last (map snd ext) node = n.
Proof.
  induction parts as [|part parts IH]; intros node path n Hall Hd Hfold Hn.
  - exists []. simpl in *. rewrite app_nil_r. injection Hfold as <-. auto.
  - inversion Hall as [|? ? Hp Hall']; subst. simpl in Hfold |- *. rewrite Hd in Hfold.
    destruct (find_child h node part) as [c|] eqn:F;
      [|rewrite fold_get_node_None in Hfold; discriminate].
    destruct (is_dir h c) eqn:Hc.
    + apply orb_false_elim in Hp as [H1 H2]. rewrite H1, H2. simpl negb. cbn iota.
      destruct (IH c (path ++ [(part, c)]) n Hall' Hc Hfold Hn) as (ext & Hw & Hf & Hl).
      exists ((part, c) :: ext). rewrite Hw, <- app_assoc. simpl.
      split; [reflexivity|]. split; [congruence|].
      rewrite <- Hl. apply last_cons_first.
    + rewrite get_node_stuck in Hfold by assumption. injection Hfold as <-. congruence.
Qed.

Lemma resolve_path_plain (name : string) (st : FileSystem) (n : nat) :
  anchored st -> name <> "" ->
  Forall (fun p => reserved p = false) (split (strip name)) ->
  _get_node name st = Some n -> is_dir (heap st) n = true ->
  exists ext k,
    map fst (ext ++ [(k, n)]) = split (strip name) /\
    _resolve_path name st
    = if is_root_relative name
      then (inr (FreshChain ([("", _root st)] ++ ext ++ [(k, n)])), st)
      else (inr SessionChain, with_chain (_path_to_current st ++ ext ++ [(k, n)]) st).
Proof.
  intros [Hr Hc _] Hne Hall Hn Hd. rewrite get_node_of_parts in Hn by assumption.
  unfold _resolve_path. rewrite (proj2 (eqb_empty name) Hne).
  assert (Ha : is_dir (heap st) (anchor name st) = true).
  { unfold anchor. destruct (is_root_relative name); assumption. }
  assert (Hext : forall path, exists ext k,
             map fst (ext ++ [(k, n)]) = split (strip name) /\
             resolve_walk (heap st) (strip name) (split (strip name)) (anchor name st) path
             = (None, path ++ ext ++ [(k, n)])).
  { intros path.
    destruct (resolve_walk_plain (heap st) (strip name) (split (strip name))
                (anchor name st) path n Hall Ha Hn Hd) as (ext & Hw & Hf & Hl).
    destruct (exists_last (l := ext)) as (ext0 & [k m] & ->).
    { intros ->. apply (split_nonempty (strip name)). symmetry. exact Hf. }
    rewrite map_app in Hl. simpl in Hl. rewrite List.last_last in Hl. subst m.
    exists ext0, k. auto. }
  unfold anchor in Hext. destruct (is_root_relative name).
  - destruct (Hext [("", _root st)]) as (ext & k & Hf & Hw). rewrite Hw. eauto.
  - destruct (Hext (_path_to_current st)) as (ext & k & Hf & Hw). rewrite Hw. eauto.
Qed.

Lemma root_relative_strip (name : string) :
  is_root_relative name = true -> name = String "/" (strip name).
Proof.
  unfold strip. intros H. rewrite H. unfold is_root_relative, startswith_sep in H.
  destruct name as [|c s]; [discriminate|]. apply Ascii.eqb_eq in H. subst c. reflexivity.
Qed.

(** X15.  [cd] follows a path without [.] and [..].  After any sequence
    of calls on a fresh system, when [name] is not empty, has no part [.]
    or [..] and resolves to a directory, [cd(name)] returns, leaves the
    store alone and makes that directory the current one; the joined
    names of the session chain, which is what [cwd()] then returns, are
    [name] itself for an absolute name, and the names joined before the
    call, a separator and [name] for a relative one. *)
Theorem cd_follows_the_path (ops : list Op) (name : string) (n : nat) :
  name <> "" ->
  Forall (fun p => reserved p = false) (split (strip name)) ->
  _get_node name (run ops init_fs) = Some n ->
  is_dir (heap (run ops init_fs)) n = true ->
  exists st',
    cd (Some name) (run ops init_fs) = (inr tt, st') /\
    heap st' = heap (run ops init_fs) /\
    _current st' = n /\
    cwd st' = chain_names st' /\
    chain_names st'
    = if is_root_relative name then name
      else join2 (chain_names (run ops init_fs)) name.
Proof.
  intros Hne Hall Hn Hd.
  pose proof (run_anchored ops init_fs init_fs_anchored) as Ha.
  remember (run ops init_fs) as st eqn:Est. clear Est.
  destruct (resolve_path_plain name st n Ha Hne Hall Hn Hd) as (ext & k & Hf & Hrp).
  unfold cd. change (arg (Some name)) with name. rewrite (proj2 (eqb_empty name) Hne).
  unfold bind, _get_node_or_fail. rewrite Hn. cbn beta iota. rewrite Hd. simpl negb.
  cbn iota. rewrite Hrp.
  assert (Hcwd : forall s, s <> "" -> (if String.eqb s "" then "/" else s) = s).
  { intros s Hs. rewrite (proj2 (eqb_empty s) Hs). reflexivity. }
  destruct (is_root_relative name) eqn:Er.
  - cbn [deref with_chain _path_to_current]. rewrite list_pop_app_snoc.
    eexists. split; [reflexivity|]. split; [reflexivity|]. split; [reflexivity|].
    unfold cwd, chain_names. cbn [_path_to_current with_current with_chain].
    rewrite (map_app fst [("", _root st)] (ext ++ [(k, n)])), Hf.
    cbn [map fst app]. rewrite join_cons by apply split_nonempty.
    rewrite join_split. change (join2 "" (strip name)) with (String "/" (strip name)).
    rewrite <- (root_relative_strip name Er).
    split; [apply Hcwd; assumption|reflexivity].
  - cbn [deref with_chain _path_to_current]. rewrite list_pop_app_snoc.
    eexists. split; [reflexivity|]. split; [reflexivity|]. split; [reflexivity|].
    unfold cwd, chain_names. cbn [_path_to_current with_current with_chain].
    rewrite (map_app fst (_path_to_current st) (ext ++ [(k, n)])), Hf.
    destruct Ha as [_ _ [[rest Hrest] _]].
    rewrite join_app; [|rewrite Hrest; discriminate|apply split_nonempty].
    rewrite join_split. unfold strip. rewrite Er.
    split; [|reflexivity]. apply Hcwd. apply (proj1 (eqb_empty _)). apply join2_nonempty.
Qed.

(** From [/a] into its child [b]. *)
Lemma cd_follows_the_path_witness :
  exists st',
    cd (Some "b") (run [Mkdir "a" false; Mkdir "a/b" false; Cd (Some "a")] init_fs)
    = (inr tt, st') /\
    _current st' = 2 /\ cwd st' = "/a/b".
Proof.
  destruct (cd_follows_the_path [Mkdir "a" false; Mkdir "a/b" false; Cd (Some "a")] "b" 2)
    as (st' & H1 & _ & H3 & H4 & H5).
  - discriminate.
  - repeat constructor.
  - reflexivity.
  - reflexivity.
  - exists st'. split; [exact H1|]. split; [exact H3|]. rewrite H4, H5. reflexivity.
Defined.

Lemma chain_eqb_refl (c : list (string * nat)) : chain_eqb c c = true.
Proof.
  induction c as [|[k n] c IH]; [reflexivity|]. simpl. unfold pair_eqb. simpl.
  rewrite String.eqb_refl, Nat.eqb_refl, IH. reflexivity.
Qed.

Lemma simple_name_parts (name : string) :
  no_sep name -> parent_path name = "" /\ requested name = name.
Proof. intros H. unfold parent_path, requested. rewrite (split_one name H). split; reflexivity. Qed.

(** A name without a separator is looked up in the current directory. *)
Lemma get_node_simple (name : string) (st : FileSystem) :
  no_sep name -> name <> "" ->
  _get_node name st = get_node_step (heap st) (Some (_current st)) name.
Proof.
  intros Hs Hne. rewrite get_node_of_parts by assumption.
  assert (Hr : is_root_relative name = false).
  { destruct name as [|c s]; [congruence|]. destruct Hs as [H _]. exact H. }
  unfold strip, anchor. rewrite Hr. rewrite (split_one name Hs). reflexivity.
Qed.

(** [mv] between two names without a separator, once the old one
    resolves: the entry is stored, then the old one is removed. *)
Lemma mv_simple (old new : string) (st : FileSystem) (n : nat) :
  no_sep old -> no_sep new -> String.eqb new old = false ->
  is_dir (heap st) (_current st) = true ->
  _get_node old st = Some n ->
  mv old new st
  = (let* _ := delete_child (_current st) old in ret n)
      (with_heap (h_add (_current st) new n (heap st)) st).
Proof.
  intros Ho Hn Hne Hd Hold. unfold mv.
  destruct (simple_name_parts old Ho) as [-> ->].
  destruct (simple_name_parts new Hn) as [-> ->].
  assert (H1 : _get_node_or_fail old st = (inr n, st)).
  { unfold _get_node_or_fail. rewrite Hold. reflexivity. }
  rewrite (bind_inr _ _ _ _ _ H1).
  rewrite (bind_inr _ _ _ _ _ (ignore_missing_lookup new st)).
  assert (H2 : _get_directory_or_fail "" st = (inr (_current st), st)).
  { unfold _get_directory_or_fail, bind, _get_node_or_fail. simpl. rewrite Hd. reflexivity. }
  rewrite (bind_inr _ _ _ _ _ H2). rewrite (bind_inr _ _ _ _ _ H2).
  assert (H3 : same_parent "" "" st = (inr true, st)).
  { unfold same_parent, bind, _resolve_path. simpl. rewrite chain_eqb_refl. reflexivity. }
  rewrite (bind_inr _ _ _ _ _ H3). rewrite Hne.
  change (true && false) with false. cbn iota.
  rewrite (bind_inr _ _ _ _ _ (add_child_dir (_current st) new n st Hd)).
  reflexivity.
Qed.

Lemma find_child_h_add_ne (d : nat) (k : string) (c : nat) (h : list INode)
    (a : nat) (part : string) :
  a <> d \/ part <> k -> find_child (h_add d k c h) a part = find_child h a part.
Proof.
  intros Hne. unfold h_add. destruct (h !! d) as [[l [s|p ch]]|] eqn:E; try reflexivity.
  unfold find_child. destruct (decide (d = a)) as [<-|Hda].
  - rewrite list_lookup_insert_eq by (eapply lookup_lt_Some; eassumption). rewrite E.
    destruct Hne as [Hne|Hne]; [contradiction|].
    rewrite (dict_get_set_ne String.eqb String.eqb_eq) by congruence. reflexivity.
  - rewrite list_lookup_insert_ne by assumption. reflexivity.
Qed.

Lemma is_dir_h_add (d : nat) (k : string) (c : nat) (h : list INode) (a : nat) :
  is_dir (h_add d k c h) a = is_dir h a.
Proof.
  unfold h_add. destruct (h !! d) as [[l [s|p ch]]|] eqn:E; try reflexivity.
  unfold is_dir. destruct (decide (d = a)) as [<-|Hda].
  - rewrite list_lookup_insert_eq by (eapply lookup_lt_Some; eassumption). rewrite E.
    reflexivity.
  - rewrite list_lookup_insert_ne by assumption. reflexivity.
Qed.

(** X16.  [mv] renames within the current directory.  After any sequence
    of calls on a fresh system, when [mv(old, new)] returns for two
    different names without a separator, of which [old] is not empty, [.]
    or [..] and [new] is not empty: it returns the node [old] resolved to,
    [new] resolves to that node, [old] resolves no longer, every other
    name without a separator resolves as before, and the current directory
    and the path to it are what they were. *)
Theorem mv_renames_in_place (ops : list Op) (old new : string) (n : nat)
    (st' : FileSystem) :
  no_sep old -> no_sep new -> old <> "" -> new <> "" -> old <> new ->
  reserved old = false ->
  mv old new (run ops init_fs) = (inr n, st') ->
  _get_node old (run ops init_fs) = Some n /\
  _get_node new st' = Some n /\
  _get_node old st' = None /\
  same_session (run ops init_fs) st' /\
  (forall q, no_sep q -> q <> old -> q <> new ->
     _get_node q st' = _get_node q (run ops init_fs)).
Proof.
  intros Ho Hn Hoe Hnee Hne Hr H.
  pose proof (run_names_unique ops init_fs init_fs_names_unique) as Hu.
  pose proof (anch_current _ (run_anchored ops init_fs init_fs_anchored)) as Hd.
  remember (run ops init_fs) as st eqn:Est. clear Est.
  destruct (_get_node old st) as [m|] eqn:Hold.
  2:{ unfold mv, bind, _get_node_or_fail in H. rewrite Hold in H. discriminate. }
  assert (Hneb : String.eqb new old = false) by (apply String.eqb_neq; congruence).
  rewrite (mv_simple old new st m Ho Hn Hneb Hd Hold) in H.
  unfold bind in H.
  pose proof (delete_child_snd (_current st) old
                (with_heap (h_add (_current st) new m (heap st)) st)) as Hs.
  destruct (delete_child (_current st) old
              (with_heap (h_add (_current st) new m (heap st)) st)) as [[e|c] st2];
    [discriminate|].
  simpl in Hs. subst st2. unfold ret in H. injection H as <- <-.
  set (h1 := h_add (_current st) new m (heap st)).
  assert (Hd1 : is_dir h1 (_current st) = true) by (unfold h1; rewrite is_dir_h_add; exact Hd).
  destruct (entry_removed_del (_current st) old h1 (names_unique_add _ _ _ _ Hu) Hd1 Hr)
    as (E1 & E2 & E3).
  assert (Hlook : forall q, no_sep q -> q <> "" ->
            _get_node q (with_heap (h_del (_current st) old h1) (with_heap h1 st))
            = find_child (h_del (_current st) old h1) (_current st) q).
  { intros q Hq Hqe. rewrite get_node_simple by assumption. simpl.
    rewrite E1, Hd1. reflexivity. }
  split; [reflexivity|]. split; [|split; [|split]].
  - rewrite Hlook by assumption. rewrite E2 by (right; congruence).
    apply find_child_h_add_new. assumption.
  - rewrite Hlook by assumption. assumption.
  - repeat split.
  - intros q Hq Hqo Hqn. destruct (string_dec q "") as [->|Hqe]; [reflexivity|].
    rewrite Hlook by assumption. rewrite E2 by (right; assumption).
    unfold h1. rewrite find_child_h_add_ne by (right; assumption).
    rewrite get_node_simple by assumption. simpl. rewrite Hd. reflexivity.
Qed.

(** A file renamed beside another one. *)
Lemma mv_renames_in_place_witness :
  _get_node "g" (snd (mv "f" "g" (run [Touch "f"; Touch "k"] init_fs))) = Some 1 /\
  _get_node "f" (snd (mv "f" "g" (run [Touch "f"; Touch "k"] init_fs))) = None /\
  ls None (snd (mv "f" "g" (run [Touch "f"; Touch "k"] init_fs)))
  = (inr ["k"; "g"], snd (mv "f" "g" (run [Touch "f"; Touch "k"] init_fs))).
Proof.
  destruct (mv_renames_in_place [Touch "f"; Touch "k"] "f" "g" 1
              (snd (mv "f" "g" (run [Touch "f"; Touch "k"] init_fs)))
              (conj eq_refl I) (conj eq_refl I)
              ltac:(discriminate) ltac:(discriminate) ltac:(discriminate)
              eq_refl eq_refl) as (_ & H2 & H3 & _).
  split; [exact H2|]. split; [exact H3|reflexivity].
Defined.

Lemma pair_eqb_eq (a b : string * nat) : pair_eqb a b = true <-> a = b.
Proof.
  destruct a as [k n], b as [k' n']. unfold pair_eqb. simpl.
  rewrite andb_true_iff, String.eqb_eq, Nat.eqb_eq. split; [intros [-> ->]|intros [= -> ->]]; auto.
Qed.

Lemma seen_In (x : string * nat) (vis : list (string * nat)) :
  seen x vis = true <-> In x vis.
Proof.
  unfold seen. rewrite existsb_exists. split.
  - intros (y & Hin & Heq). apply pair_eqb_eq in Heq. subst. assumption.
  - intros Hin. exists x. split; [assumption|]. apply pair_eqb_eq. reflexivity.
Qed.

Lemma seen_cons (x y : string * nat) (vis : list (string * nat)) :
  seen x (y :: vis) = pair_eqb x y || seen x vis.
Proof. reflexivity. Qed.

Lemma unseen_le (vis U : list (string * nat)) : unseen vis U <= length U.
Proof. unfold unseen. apply List.filter_length_le. Qed.

Lemma unseen_cons_le (y : string * nat) (vis U : list (string * nat)) :
  unseen (y :: vis) U <= unseen vis U.
Proof.
  unfold unseen. induction U as [|x U IH]; [reflexivity|].
  cbn [List.filter]. rewrite seen_cons.
  destruct (pair_eqb x y), (seen x vis); cbn [orb negb length]; lia.
Qed.

Lemma unseen_cons_lt (y : string * nat) (vis U : list (string * nat)) :
  In y U -> seen y vis = false -> unseen (y :: vis) U < unseen vis U.
Proof.
  intros Hin Hy. unfold unseen. induction U as [|x U IH]; [destruct Hin|].
  pose proof (unseen_cons_le y vis U) as Hle. unfold unseen in Hle.
  cbn [List.filter]. rewrite seen_cons. destruct Hin as [->|Hin].
  - rewrite (proj2 (pair_eqb_eq y y) eq_refl), Hy. cbn [orb negb length]. lia.
  - specialize (IH Hin).
    destruct (pair_eqb x y), (seen x vis); cbn [orb negb length]; lia.
Qed.

Lemma adj_key_In (k v : string * nat) (adj : list ((string * nat) * (string * nat))) :
  dict_get pair_eqb k adj = Some v -> In (k, v) adj.
Proof.
  induction adj as [|[k0 v0] adj IH]; simpl; [discriminate|].
  destruct (pair_eqb k0 k) eqn:E.
  - apply pair_eqb_eq in E. subst k0. intros [= ->]. left. reflexivity.
  - intros H. right. apply IH. assumption.
Qed.

Lemma adj_In_key (k v : string * nat) (adj : list ((string * nat) * (string * nat))) :
  In (k, v) adj -> exists v', dict_get pair_eqb k adj = Some v'.
Proof.
  induction adj as [|[k0 v0] adj IH]; simpl; [intros []|].
  destruct (pair_eqb k0 k) eqn:E; [eauto|].
  intros [[= -> ->]|H]; [|auto].
  rewrite (proj2 (pair_eqb_eq k k) eq_refl) in E. discriminate.
Qed.

(** One round of [for child in node_obj]. *)
Lemma discover_inv (U : list (string * nat)) (node child : string * nat) (s : search) :
  search_inv U s -> In node (visited s) -> In child U ->
  search_inv U (discover node s child) /\
  length (nodes (discover node s child)) + unseen (visited (discover node s child)) U
  <= length (nodes s) + unseen (visited s) U /\
  (forall x, In x (visited s) -> In x (visited (discover node s child))).
Proof.
  intros [Hn Hk Hf Hl] Hnode Hchild. unfold discover.
  destruct (seen child (visited s)) eqn:E.
  { split; [constructor; assumption|]. split; [lia|auto]. }
  assert (Hnot : ~ In child (visited s)).
  { intros Hin. apply seen_In in Hin. congruence. }
  assert (Hfresh : dict_get pair_eqb child (adjacency_map s) = None).
  { destruct (dict_get pair_eqb child (adjacency_map s)) as [v|] eqn:G; [|reflexivity].
    apply adj_key_In in G. destruct (Hk _ _ G). contradiction. }
  pose proof (unseen_cons_lt child (visited s) U Hchild E) as Hlt.
  simpl. rewrite (dict_set_fresh pair_eqb) by assumption.
  split; [constructor; simpl|split].
  - apply Forall_app_2.
    + eapply Forall_impl; [exact Hn|]. simpl. auto.
    + constructor; [left; reflexivity|constructor].
  - intros k v Hin. apply in_app_or in Hin as [Hin|[[= <- <-]|[]]].
    + destruct (Hk _ _ Hin). auto.
    + auto.
  - apply forest_snoc; try assumption.
    + intros k' v' Hin ->. destruct (Hk _ _ Hin). contradiction.
    + intros ->. contradiction.
  - rewrite length_app. simpl. lia.
  - rewrite length_app. simpl. lia.
  - intros x Hx. right. assumption.
Qed.

Lemma discover_all_inv (U : list (string * nat)) (node : string * nat)
    (ch : list (string * nat)) :
  forall s, search_inv U s -> In node (visited s) -> Forall (fun c => In c U) ch ->
    search_inv U (fold_left (discover node) ch s) /\
    length (nodes (fold_left (discover node) ch s))
    + unseen (visited (fold_left (discover node) ch s)) U
    <= length (nodes s) + unseen (visited s) U.
Proof.
  induction ch as [|c ch IH]; intros s Hs Hnode Hall; simpl; [split; [assumption|lia]|].
  inversion Hall as [|? ? Hc Hall']; subst.
  destruct (discover_inv U node c s Hs Hnode Hc) as (Hs' & Hm & Hv).
  destruct (IH _ Hs' (Hv _ Hnode) Hall') as (Hs'' & Hm').
  split; [assumption|lia].
Qed.

Lemma removelast_length {A} (l : list A) :
  l <> [] -> length l = S (length (removelast l)).
Proof.
  induction l as [|a l IH]; [congruence|]. intros _.
  destruct l as [|b l]; [reflexivity|].
  change (removelast (a :: b :: l)) with (a :: removelast (b :: l)).
  cbn [length]. f_equal. apply IH. discriminate.
Qed.

Lemma list_pop_rest {A} (l : list A) (x : A) (rest : list A) :
  list_pop l = Some (x, rest) -> rest = removelast l /\ length l = S (length rest).
Proof.
  unfold list_pop. destruct l as [|y l]; [discriminate|]. intros H.
  assert (Hr : rest = removelast (y :: l)) by congruence.
  split; [assumption|]. rewrite Hr. apply removelast_length. discriminate.
Qed.

Lemma lookup_In {A} (l : list A) (n : nat) (x : A) : l !! n = Some x -> In x l.
Proof.
  revert n. induction l as [|a l IH]; intros [|n]; simpl; try discriminate.
  - intros [= ->]. left. reflexivity.
  - intros H. right. eapply IH. exact H.
Qed.

Lemma children_in_entries (h : list INode) (n : nat) :
  Forall (fun c => In c (entries h)) (iter_children h n).
Proof.
  unfold iter_children, children, entries.
  destruct (h !! n) as [[l [s|p ch]]|] eqn:E; try constructor.
  apply List.Forall_forall. intros x Hx. apply in_concat.
  exists ch. split; [|assumption].
  apply in_map_iff. exists {| links := l; obj := DirectoryNode p ch |}.
  split; [reflexivity|]. eapply lookup_In. eassumption.
Qed.

(** The search loop ends within as many rounds as there are pairs on the
    stack and pairs not yet seen. *)
Lemma search_loop_terminates (h : list INode) (fuel : nat) :
  forall s, search_inv (entries h) s ->
    length (nodes s) + unseen (visited s) (entries h) <= fuel ->
    exists s', search_loop fuel h s = Some s' /\ search_inv (entries h) s'.
Proof.
  induction fuel as [|fuel IH]; intros s Hs Hm.
  - destruct (nodes s) as [|x l] eqn:E; [|simpl in Hm; lia].
    exists s. simpl. rewrite E. auto.
  - simpl. destruct (list_pop (nodes s)) as [[node rest]|] eqn:P; [|eauto].
    destruct (list_pop_rest _ _ _ P) as [Hrest Hlen].
    pose proof (list_pop_In _ _ _ P) as Hin.
    destruct Hs as [Hn Hk Hf Hl].
    assert (Hnode : In node (visited s)).
    { rewrite List.Forall_forall in Hn. apply Hn. assumption. }
    set (s1 := {| visited := visited s; nodes := rest; adjacency_map := adjacency_map s |}).
    assert (Hs1 : search_inv (entries h) s1).
    { constructor; simpl; try assumption. rewrite Hrest. apply removelast_Forall. assumption. }
    destruct (is_dir h (snd node)).
    + destruct (discover_all_inv (entries h) node (iter_children h (snd node)) s1 Hs1 Hnode
                  (children_in_entries h (snd node))) as (Hs2 & Hm2).
      apply IH; [assumption|]. simpl in Hm2. lia.
    + apply IH; [assumption|]. simpl. lia.
Qed.

Lemma pair_dict_get_app (x k v : string * nat) (adj : list ((string * nat) * (string * nat))) :
  x <> k -> dict_get pair_eqb x (adj ++ [(k, v)]) = dict_get pair_eqb x adj.
Proof.
  intros Hne. induction adj as [|[k0 v0] adj IH]; simpl.
  - destruct (pair_eqb k x) eqn:E; [|reflexivity].
    apply pair_eqb_eq in E. congruence.
  - destruct (pair_eqb k0 x); [reflexivity|assumption].
Qed.

(** Climbing from a pair other than the newest key never meets it. *)
Lemma climb_snoc (adj : list ((string * nat) * (string * nat))) (k v : string * nat)
    (fuel : nat) :
  (forall k' v', In (k', v') adj -> v' <> k) ->
  forall x path, x <> k -> climb fuel (adj ++ [(k, v)]) x path = climb fuel adj x path.
Proof.
  intros Hv. induction fuel as [|fuel IH]; intros x path Hx; simpl;
    rewrite pair_dict_get_app by assumption.
  - reflexivity.
  - destruct (dict_get pair_eqb x adj) as [g|] eqn:G; [|reflexivity].
    apply IH. apply adj_key_In in G. eapply Hv. eassumption.
Qed.

Lemma climb_forest (adj : list ((string * nat) * (string * nat))) :
  forest adj ->
  forall x path, exists r, climb (length adj) adj x path = Some r.
Proof.
  induction 1 as [|adj k v Hf IH Hk Hv Hvk]; intros x path.
  - simpl. eauto.
  - rewrite length_app. simpl length. rewrite Nat.add_1_r.
    assert (Hdec : x = k \/ x <> k).
    { destruct (pair_eqb x k) eqn:E; [left; apply pair_eqb_eq; assumption|right].
      intros ->. rewrite (proj2 (pair_eqb_eq k k) eq_refl) in E. discriminate. }
    destruct Hdec as [->|Hx].
    + simpl. assert (G : dict_get pair_eqb k (adj ++ [(k, v)]) = Some v).
      { clear -Hk. induction adj as [|[k0 v0] adj IHa]; simpl in *.
        - rewrite (proj2 (pair_eqb_eq k k) eq_refl). reflexivity.
        - destruct (pair_eqb k0 k); [discriminate|]. auto. }
      rewrite G. rewrite climb_snoc by assumption. apply IH.
    + rewrite climb_snoc by assumption.
      destruct (IH x path) as [r Hr]. exists r.
      eapply climb_mono; [eassumption|lia].
Qed.

Lemma matches_are_keys (adj l : list ((string * nat) * (string * nat))) (name : string) :
  Forall (fun kv => In kv adj) l ->
  Forall (fun m => exists v, In (m, v) adj)
    (map fst (filter (fun kv => String.eqb (fst (fst kv)) name) l)).
Proof.
  induction 1 as [|[k v] l Hkv Hl IH]; [constructor|].
  rewrite filter_cons. destruct (decide _); [|assumption].
  simpl. constructor; [eauto|assumption].
Qed.

Lemma coalesce_all_total (adj : list ((string * nat) * (string * nat))) (rel : string)
    (fuel : nat) (ms : list (string * nat)) :
  forest adj -> length adj <= fuel ->
  Forall (fun m => exists v, In (m, v) adj) ms ->
  exists r, coalesce_all fuel adj rel ms = Some r.
Proof.
  intros Hf Hle. induction 1 as [|m ms [v Hm] Hms [r IH]]; simpl; [eauto|].
  unfold coalesce. destruct (adj_In_key _ _ _ Hm) as [parent ->].
  destruct (climb_forest adj Hf parent [fst m]) as [path Hp].
  rewrite (climb_mono _ _ _ _ _ _ Hp Hle), IH. eauto.
Qed.

Lemma search_from_terminates (h : list INode) (start : nat) :
  exists s,
    search_loop (S (length (entries h))) h
      {| visited := [("", start)]; nodes := [("", start)]; adjacency_map := [] |}
    = Some s /\
    forest (adjacency_map s) /\ length (adjacency_map s) <= length (entries h).
Proof.
  destruct (search_loop_terminates h (S (length (entries h)))
              {| visited := [("", start)]; nodes := [("", start)]; adjacency_map := [] |})
    as (s & Hs & [_ _ Hf Hl]).
  - constructor; simpl.
    + constructor; [left; reflexivity|constructor].
    + intros k v [].
    + constructor.
    + apply unseen_le.
  - simpl. pose proof (unseen_le [("", start)] (entries h)). lia.
  - exists s. split; [assumption|]. split; [assumption|lia].
Qed.

Lemma In_Forall_self {A} (l : list A) : Forall (fun x => In x l) l.
Proof. apply List.Forall_forall. auto. Qed.

(** X17.  [find] ends.  In every state, whatever links [ln] has made
    between directories, the search loop of [find] and the loops that
    build the paths end: with one round more than there are directory
    entries in the store for each loop, [find] returns a list of paths or
    raises [NoSuchFileOrDirectory] for [relative_to], and nothing else. *)
Theorem find_terminates (name : string) (relative_to : option string) (st : FileSystem) :
  (exists paths,
     find (S (length (entries (heap st)))) name relative_to st = Some (inr paths)) \/
  (find (S (length (entries (heap st)))) name relative_to st
   = Some (inl (NoSuchFileOrDirectory (arg relative_to))) /\
   arg relative_to <> "" /\ _get_node (arg relative_to) st = None).
Proof.
  assert (Hfrom : forall start,
            exists paths,
              match search_loop (S (length (entries (heap st)))) (heap st)
                      {| visited := [("", start)]; nodes := [("", start)];
                         adjacency_map := [] |} with
              | None => None
              | Some s =>
                  match coalesce_all (S (length (entries (heap st)))) (adjacency_map s)
                          (arg relative_to)
                          (map fst (filter (fun kv => String.eqb (fst (fst kv)) name)
                                      (adjacency_map s))) with
                  | None => None
                  | Some found_paths => Some (inr found_paths)
                  end
              end = Some (inr paths : Exn + list string)).
  { intros start. destruct (search_from_terminates (heap st) start) as (s & -> & Hf & Hl).
    destruct (coalesce_all_total (adjacency_map s) (arg relative_to)
                (S (length (entries (heap st))))
                (map fst (filter (fun kv => String.eqb (fst (fst kv)) name)
                            (adjacency_map s))) Hf ltac:(lia)
                (matches_are_keys _ _ name (In_Forall_self _))) as [r ->].
    eauto. }
  unfold find. destruct (String.eqb (arg relative_to) "") eqn:Erel.
  - left. apply Hfrom.
  - destruct (_get_node (arg relative_to) st) as [start|] eqn:Hstart.
    + left. apply Hfrom.
    + right. split; [reflexivity|]. split; [|reflexivity]. apply eqb_empty. assumption.
Qed.

(** A property kept by every round holds when the loop ends, and the
    stack is empty then. *)
Lemma search_loop_ind (h : list INode) (I : search -> Prop) :
  (forall s node rest,
     I s -> list_pop (nodes s) = Some (node, rest) -> I (search_round h s node rest)) ->
  forall fuel s s', I s -> search_loop fuel h s = Some s' -> I s' /\ nodes s' = [].
Proof.
  intros Hround. induction fuel as [|fuel IH]; intros s s' Hs H; simpl in H.
  - destruct (list_pop (nodes s)) as [[node rest]|] eqn:P; [discriminate|].
    injection H as <-. split; [assumption|].
    unfold list_pop in P. destruct (nodes s); [reflexivity|discriminate].
  - destruct (list_pop (nodes s)) as [[node rest]|] eqn:P.
    + apply (IH (search_round h s node rest)); [apply Hround; assumption|exact H].
    + injection H as <-. split; [assumption|].
      unfold list_pop in P. destruct (nodes s); [reflexivity|discriminate].
Qed.

Lemma removelast_In {A} (l : list A) (x : A) : In x (removelast l) -> In x l.
Proof.
  induction l as [|a l IH]; [auto|]. destruct l as [|b l]; [intros []|].
  change (removelast (a :: b :: l)) with (a :: removelast (b :: l)).
  intros [->|H]; [left; reflexivity|right; apply IH; assumption].
Qed.

Lemma In_removelast_or_last {A} (l : list A) (d x : A) :
  In x l -> In x (removelast l) \/ x = List.last l d.
Proof.
  induction l as [|a l IH]; [intros []|]. destruct l as [|b l].
  - intros [->|[]]. right. reflexivity.
  - change (removelast (a :: b :: l)) with (a :: removelast (b :: l)).
    change (List.last (a :: b :: l) d) with (List.last (b :: l) d).
    intros [->|H]; [left; left; reflexivity|].
    destruct (IH H) as [H'|H']; [left; right; assumption|right; assumption].
Qed.

Lemma list_pop_split {A} (l : list A) (x : A) (rest : list A) :
  list_pop l = Some (x, rest) ->
  (forall y, In y rest -> In y l) /\ (forall y, In y l -> In y rest \/ y = x).
Proof.
  unfold list_pop. destruct l as [|a l]; [discriminate|]. intros H.
  assert (Hr : rest = removelast (a :: l)) by congruence.
  assert (Hx : x = List.last (a :: l) a).
  { rewrite last_cons_first. congruence. }
  clear H. subst rest x. split.
  - intros y. apply removelast_In.
  - intros y Hy. apply In_removelast_or_last. assumption.
Qed.

(** What one [discover] does to the collections, whatever they hold. *)
Lemma discover_grows (node child : string * nat) (s : search) :
  In child (visited (discover node s child)) /\
  (forall x, In x (visited s) -> In x (visited (discover node s child))) /\
  (forall x, In x (nodes s) -> In x (nodes (discover node s child))) /\
  (forall x, In x (visited (discover node s child)) ->
     In x (visited s) \/ In x (nodes (discover node s child))).
Proof.
  unfold discover. destruct (seen child (visited s)) eqn:E.
  - apply seen_In in E. repeat split; auto.
  - simpl. repeat split; auto.
    + intros x Hx. apply in_or_app. auto.
    + intros x [<-|Hx]; [right; apply in_or_app; right; left; reflexivity|auto].
Qed.

Lemma discover_sound (h : list INode) (start : nat) (node child : string * nat)
    (s : search) :
  search_sound h start s -> In node (visited s) -> is_dir h (snd node) = true ->
  In child (children h (snd node)) ->
  search_sound h start (discover node s child).
Proof.
  intros [Hst Hn Hv Hk] Hnode Hd Hc. unfold discover.
  destruct (seen child (visited s)) eqn:E; [constructor; assumption|].
  assert (Hnot : ~ In child (visited s)).
  { intros Hin. apply seen_In in Hin. congruence. }
  assert (Hfresh : dict_get pair_eqb child (adjacency_map s) = None).
  { destruct (dict_get pair_eqb child (adjacency_map s)) as [v|] eqn:G; [|reflexivity].
    apply adj_key_In in G. destruct (Hk _ _ G). contradiction. }
  assert (Hbelow : below h start child).
  { destruct (Hv _ Hnode) as [->|[Hb _]].
    - apply below_child; assumption.
    - eapply below_step; eassumption. }
  constructor; simpl; rewrite ?(dict_set_fresh pair_eqb) by assumption.
  - right. assumption.
  - intros x Hx. apply in_app_or in Hx as [Hx|[<-|[]]]; [right; auto|left; reflexivity].
  - intros x [<-|Hx].
    + right. split; [assumption|]. exists node. apply in_or_app. right. left. reflexivity.
    + destruct (Hv _ Hx) as [->|[Hb [v Hin]]]; [left; reflexivity|right].
      split; [assumption|]. exists v. apply in_or_app. left. assumption.
  - intros k v Hin. apply in_app_or in Hin as [Hin|[[= <- <-]|[]]].
    + destruct (Hk _ _ Hin). split; [right|]; assumption.
    + split; [left; reflexivity|]. intros ->. contradiction.
Qed.

Lemma discover_closed (h : list INode) (extra : list (string * nat))
    (node child : string * nat) (s : search) :
  closed_but h extra s -> closed_but h extra (discover node s child).
Proof.
  intros Hc x Hx. destruct (discover_grows node child s) as (_ & Hv & Hn & Hnew).
  destruct (Hnew x Hx) as [Hold|Hstack]; [|left; assumption].
  destruct (Hc x Hold) as [H|[H|H]]; [left; auto|right; left; assumption|].
  right. right. intros Hd c Hin. apply Hv. apply H; assumption.
Qed.

(** The [for] loop over the entries of a directory. *)
Lemma discover_all_sound (h : list INode) (start : nat) (extra : list (string * nat))
    (node : string * nat) (ch : list (string * nat)) :
  is_dir h (snd node) = true ->
  (forall c, In c ch -> In c (children h (snd node))) ->
  forall s, search_sound h start s -> closed_but h extra s -> In node (visited s) ->
    search_sound h start (fold_left (discover node) ch s) /\
    closed_but h extra (fold_left (discover node) ch s) /\
    (forall x, In x (visited s) -> In x (visited (fold_left (discover node) ch s))) /\
    (forall c, In c ch -> In c (visited (fold_left (discover node) ch s))).
Proof.
  intros Hd. induction ch as [|c ch IH]; intros Hch s Hs Hc Hnode; simpl.
  - split; [assumption|]. split; [assumption|]. split; [auto|]. intros c [].
  - destruct (discover_grows node c s) as (Hin & Hv & _ & _).
    destruct (IH (fun c' H => Hch c' (or_intror H)) (discover node s c)) as (H1 & H2 & H3 & H4).
    + apply discover_sound; auto. apply Hch. left. reflexivity.
    + apply discover_closed. assumption.
    + apply Hv. assumption.
    + split; [assumption|]. split; [assumption|]. split; [auto|].
      intros c' [<-|H]; auto.
Qed.

(** One round of the search loop keeps the search sound and closed. *)
Lemma search_round_sound (h : list INode) (start : nat) (s : search)
    (node : string * nat) (rest : list (string * nat)) :
  search_sound h start s /\ closed_but h [] s ->
  list_pop (nodes s) = Some (node, rest) ->
  search_sound h start (search_round h s node rest) /\
  closed_but h [] (search_round h s node rest).
Proof.
  intros [Hs Hc] P. destruct (list_pop_split _ _ _ P) as [Hrest Hsplit].
  pose proof (list_pop_In _ _ _ P) as Hin.
  destruct Hs as [Hst Hn Hv Hk].
  set (s1 := {| visited := visited s; nodes := rest; adjacency_map := adjacency_map s |}).
  assert (Hs1 : search_sound h start s1) by (constructor; simpl; auto).
  assert (Hc1 : closed_but h [node] s1).
  { intros x Hx. destruct (Hc x Hx) as [H|[H|H]]; [|destruct H|].
    - destruct (Hsplit x H) as [H' | ->]; [left; assumption|right; left; left; reflexivity].
    - right. right. assumption. }
  assert (Hnode : In node (visited s1)) by (apply Hn; assumption).
  unfold search_round. fold s1. destruct (is_dir h (snd node)) eqn:Hd.
  - destruct (discover_all_sound h start [node] node (iter_children h (snd node)) Hd
                (fun c H => H) s1 Hs1 Hc1 Hnode) as (H1 & H2 & H3 & H4).
    split; [assumption|]. intros x Hx.
    destruct (H2 x Hx) as [H|[[<-|[ ]]|H]]; [left; assumption| |right; right; assumption].
    right. right. intros _ c Hcin. apply H4. assumption.
  - split; [assumption|]. intros x Hx.
    destruct (Hc1 x Hx) as [H|[[<-|[ ]]|H]]; [left; assumption| |right; right; assumption].
    right. right. intros Hd'. congruence.
Qed.

Lemma matches_In (adj : list ((string * nat) * (string * nat))) (name : string)
    (m : string * nat) :
  In m (map fst (filter (fun kv => String.eqb (fst (fst kv)) name) adj)) <->
  fst m = name /\ exists v, In (m, v) adj.
Proof.
  induction adj as [|[k v] adj IH]; [simpl; split; [intros []|intros [_ [? []]]]|].
  rewrite filter_cons. destruct (decide _) as [Hk|Hk]; simpl in Hk.
  - apply Is_true_true in Hk. apply String.eqb_eq in Hk. simpl. rewrite IH. split.
    + intros [<-|[H1 [v' H2]]]; [split; [assumption|eauto]|split; [assumption|eauto]].
    + intros [H1 [v' [[= <- <-]|H2]]]; [left; reflexivity|right; eauto].
  - rewrite IH. split.
    + intros [H1 [v' H2]]. split; [assumption|]. exists v'. right. assumption.
    + intros [H1 [v' [[= <- <-]|H2]]]; [|eauto].
      exfalso. apply Hk. apply Is_true_true. apply String.eqb_eq. assumption.
Qed.

Lemma coalesce_all_length (fuel : nat) (adj : list ((string * nat) * (string * nat)))
    (rel : string) (ms : list (string * nat)) (r : list string) :
  coalesce_all fuel adj rel ms = Some r -> length r = length ms.
Proof.
  revert r. induction ms as [|m ms IH]; intros r; simpl; [intros [= <-]; reflexivity|].
  destruct (coalesce fuel adj rel m); [|discriminate].
  destruct (coalesce_all fuel adj rel ms) as [ps|]; [|discriminate].
  intros [= <-]. simpl. f_equal. apply IH. reflexivity.
Qed.

(** When the search loop has ended, the keys of the adjacency map are the
    pairs below the start, the starting pair apart. *)
Lemma search_finds_what_is_below (h : list INode) (start : nat) (fuel : nat) (s : search) :
  search_loop fuel h
    {| visited := [("", start)]; nodes := [("", start)]; adjacency_map := [] |} = Some s ->
  forall x, (exists v, In (x, v) (adjacency_map s)) <-> below h start x /\ x <> ("", start).
Proof.
  intros H.
  destruct (search_loop_ind h (fun s => search_sound h start s /\ closed_but h [] s)
              (search_round_sound h start) fuel
              {| visited := [("", start)]; nodes := [("", start)]; adjacency_map := [] |}
              s) as [[Hs Hc] Hn]; [|exact H|].
  { split.
    - constructor; simpl.
      + left. reflexivity.
      + auto.
      + intros x [<-|[]]. left. reflexivity.
      + intros k v [].
    - intros x Hx. left. assumption. }
  destruct Hs as [Hst _ Hv Hk].
  assert (Hexp : forall x, In x (visited s) -> explored h s x).
  { intros x Hx. destruct (Hc x Hx) as [Hin|[[]|He]]; [|assumption].
    rewrite Hn in Hin. destruct Hin. }
  assert (Hall : forall x, below h start x -> In x (visited s)).
  { induction 1 as [c Hd Hin|x c Hb IH Hd Hin].
    - apply (Hexp _ Hst); assumption.
    - apply (Hexp _ IH); assumption. }
  intros x. split.
  - intros [v Hin]. destruct (Hk _ _ Hin) as [Hvis Hne]. split; [|assumption].
    destruct (Hv _ Hvis) as [->|[Hb _]]; [contradiction|assumption].
  - intros [Hb Hne]. destruct (Hv _ (Hall _ Hb)) as [->|[_ Hkey]]; [contradiction|assumption].
Qed.

Lemma NoDup_snoc {A} (l : list A) (x : A) :
  List.NoDup l -> ~ In x l -> List.NoDup (l ++ [x]).
Proof.
  induction 1 as [|a l Ha Hl IH]; intros Hx; simpl.
  - constructor; [intros []|constructor].
  - constructor.
    + intros Hin. apply in_app_or in Hin as [Hin|[->|[]]]; [contradiction|].
      apply Hx. left. reflexivity.
    + apply IH. intros Hin. apply Hx. right. assumption.
Qed.

Lemma forest_keys_NoDup (adj : list ((string * nat) * (string * nat))) :
  forest adj -> List.NoDup (map fst adj).
Proof.
  induction 1 as [|adj k v Hf IH Hk Hv Hvk]; [constructor|].
  rewrite map_app. simpl. apply NoDup_snoc; [assumption|].
  apply (dict_get_None_keys pair_eqb pair_eqb_eq). assumption.
Qed.

Lemma matches_NoDup (adj : list ((string * nat) * (string * nat))) (name : string) :
  List.NoDup (map fst adj) ->
  List.NoDup (map fst (filter (fun kv => String.eqb (fst (fst kv)) name) adj)).
Proof.
  induction adj as [|[k v] adj IH]; intros Hd; [constructor|].
  inversion Hd as [|? ? Hnin Hd']; subst.
  rewrite filter_cons. destruct (decide _); [|auto].
  simpl. constructor; [|auto].
  intros Hin. apply matches_In in Hin as [_ [v' Hin]].
  apply Hnin. apply in_map_iff. exists (k, v'). auto.
Qed.

Lemma same_name_nodes_NoDup (name : string) (ms : list (string * nat)) :
  Forall (fun m => fst m = name) ms -> List.NoDup ms -> List.NoDup (map snd ms).
Proof.
  induction 1 as [|[k c] ms Hk Hms IH]; intros Hd; [constructor|].
  inversion Hd as [|? ? Hnin Hd']; subst. simpl in *. constructor; [|auto].
  intros Hin. apply in_map_iff in Hin as ([k' c'] & Hc & Hin). simpl in Hc. subst c'.
  rewrite List.Forall_forall in Hms. specialize (Hms _ Hin). simpl in Hms. subst k'.
  contradiction.
Qed.

(** X18.  [find] lists each node once.  In every state, when [find]
    returns for a name that is not empty, it has one path for each node
    that a directory below the starting directory holds under that name:
    the paths are as many as those nodes, so the list is empty exactly
    when no entry below the start has the name, and a node held under the
    name by several directories is listed once. *)
Theorem find_lists_each_node_once (fuel : nat) (name : string)
    (relative_to : option string) (st : FileSystem) (start : nat) (paths : list string) :
  name <> "" ->
  (if String.eqb (arg relative_to) "" then Some (_current st)
   else _get_node (arg relative_to) st) = Some start ->
  find fuel name relative_to st = Some (inr paths) ->
  exists cs,
    List.NoDup cs /\
    (forall c, In c cs <-> below (heap st) start (name, c)) /\
    length paths = length cs.
Proof.
  intros Hne Hstart. unfold find. rewrite Hstart.
  destruct (search_loop fuel (heap st) _) as [s|] eqn:Hloop; [|discriminate].
  destruct (coalesce_all fuel (adjacency_map s) (arg relative_to) _) as [r|] eqn:Hco;
    [|discriminate].
  intros [= <-].
  assert (Hf : forest (adjacency_map s)).
  { destruct (search_from_terminates (heap st) start) as (s0 & H0 & Hf & _).
    pose proof (search_loop_mono _ _ (Nat.max fuel (S (length (entries (heap st))))) _ _
                  Hloop ltac:(lia)) as H1.
    pose proof (search_loop_mono _ _ (Nat.max fuel (S (length (entries (heap st))))) _ _
                  H0 ltac:(lia)) as H2.
    congruence. }
  pose proof (search_finds_what_is_below _ _ _ _ Hloop) as Hkeys.
  set (ms := map fst (filter (fun kv => String.eqb (fst (fst kv)) name) (adjacency_map s)))
    in *.
  assert (Hms : Forall (fun m => fst m = name) ms).
  { apply List.Forall_forall. intros m Hm. apply matches_In in Hm. apply Hm. }
  exists (map snd ms). split; [|split].
  - apply (same_name_nodes_NoDup name); [assumption|].
    apply matches_NoDup, forest_keys_NoDup. assumption.
  - intros c. split.
    + intros Hin. apply in_map_iff in Hin as ([k c'] & Hc & Hin). simpl in Hc. subst c'.
      pose proof Hin as Hin'. apply matches_In in Hin' as [Hk Hkey]. simpl in Hk. subst k.
      apply Hkeys in Hkey. apply Hkey.
    + intros Hb. apply in_map_iff. exists (name, c). split; [reflexivity|].
      apply matches_In. split; [reflexivity|]. apply Hkeys. split; [assumption|].
      intros [= Hn _]. contradiction.
  - rewrite (coalesce_all_length _ _ _ _ _ Hco). rewrite length_map. reflexivity.
Qed.

(** A file held under the same name by two directories is found once. *)
Lemma find_lists_each_node_once_witness :
  find 6 "f" None
    (run [Mkdir "a" false; Mkdir "b" false; Touch "a/f"; Ln "a/f" "b/f"] init_fs)
  = Some (inr ["b/f"]) /\
  exists cs,
    List.NoDup cs /\
    (forall c, In c cs <->
       below (heap (run [Mkdir "a" false; Mkdir "b" false; Touch "a/f"; Ln "a/f" "b/f"]
                      init_fs)) 0 ("f", c)) /\
    length ["b/f"] = length cs.
Proof.
  split; [reflexivity|].
  apply (find_lists_each_node_once 6 "f" None
           (run [Mkdir "a" false; Mkdir "b" false; Touch "a/f"; Ln "a/f" "b/f"] init_fs) 0);
    [discriminate|reflexivity|reflexivity].
Defined.
